(** * ZyloClient: the three-tier token manager

    A shallow embedding of [class ZyloClient] (the credential lifecycle
    manager consumed by the pages of the site) and the properties of its
    public operations: [boot], [login], [signUp], [logout], [cleanup] and
    the two [setTimeout] callbacks armed by [scheduleReexchange] and
    [scheduleUpgradeAttempt].

    Conventions of the embedding.
    - The instance fields and the part of the browser the class talks to
      (clock, [localStorage], the Supabase session, the pending timeouts,
      the requests issued so far) live in one record [State].
    - Methods are computations in a state-and-exception monad [M]; a JS
      [throw] is the completion [Throw], [try]/[catch] is [try_catch].
    - What the outside world answers (an HTTP response, a rejected fetch,
      the result of a Supabase auth call) is an explicit argument of the
      method that awaits it, together with the time the answer took.
    - An [async] method is first run to completion: the awaits of one
      call are sequenced, and a timer callback is a separate step [fire]
      (the runs [reachable]). The part _Calls in flight_ then cuts the
      methods at their awaits and lets calls, callbacks and [cleanup()]
      overlap (the runs [reachable_world]); a call run with nothing in
      between is the method run to completion.
    - Request bodies are not modelled; a request is recorded by its
      endpoint.
    - Timestamps are integer milliseconds ([Z]); [expires_in] is an
      integer number of seconds.

    The development also covers the forms of the site around the
    manager: the answer form [PuzzleSolver], the sign-up and sign-in
    handlers of the authentication page, the first step and the
    navigation of the character ritual, and the countdown of the puzzle
    hub. Each handler is a function from the state of the render it runs
    in to the state it leaves; a call into the manager is recorded as a
    request, and how that call completes is an argument. *)

From Stdlib Require Import ZArith List Bool Ascii String DecimalString DecimalPos Lia.
From stdpp Require Import base option gmap strings.

Local Open Scope string_scope.
Local Open Scope Z_scope.

(** ** JavaScript values used by the class *)

Module JS.

(** A JS [number] holding a timestamp: an integer or [NaN] (the only
    non-integer [parseInt] produces). *)
Inductive number := Num (z : Z) | NaN.

(** [!!n] for a number. *)
Definition truthy_number (n : number) : bool :=
  match n with
  | Num z => negb (z =? 0)
  | NaN => false
  end.

(** [!!s] for a string. *)
Definition truthy_string (s : string) : bool :=
  match s with
  | EmptyString => false
  | String _ _ => true
  end.

(** [!!v] for a value that is a string, [null] or [undefined]. *)
Definition truthy (o : option string) : bool :=
  match o with
  | Some s => truthy_string s
  | None => false
  end.

(** [hay.includes(needle)]. *)
Fixpoint includes (needle hay : string) : bool :=
  String.prefix needle hay ||
  match hay with
  | EmptyString => false
  | String _ rest => includes needle rest
  end.

(** [n.toString()] for an integer [n]: its decimal digits. This is what
    [Number.prototype.toString] gives for the integers a [number] holds
    exactly (the safe integers, below [2^53] in absolute value); above
    them a [number] rounds, and from [1e21] the string is in exponent
    form. Statements that read a written number back carry the range
    ([safe_integer]). *)
Definition toString (z : Z) : string := NilZero.string_of_int (Z.to_int z).

(** [Number.isSafeInteger(z)]: arithmetic on such integers is exact as
    long as its results are such integers too. *)
Definition safe_integer (z : Z) : Prop := - 2 ^ 53 < z < 2 ^ 53.

Definition is_space (c : ascii) : bool :=
  let n := nat_of_ascii c in
  (n =? 32)%nat || ((9 <=? n)%nat && (n <=? 13)%nat).

Definition digit_of (c : ascii) : option Z :=
  let n := Z.of_nat (nat_of_ascii c) in
  if (48 <=? n) && (n <=? 57) then Some (n - 48) else None.

Fixpoint skip_spaces (s : string) : string :=
  match s with
  | String c rest => if is_space c then skip_spaces rest else s
  | EmptyString => s
  end.

Fixpoint parse_digits (s : string) (acc : option Z) : option Z :=
  match s with
  | String c rest =>
      match digit_of c with
      | Some d => parse_digits rest (Some (10 * default 0 acc + d))
      | None => acc
      end
  | EmptyString => acc
  end.

(** [parseInt(s, 10)]: leading white space, an optional sign, then the
    longest run of decimal digits; [NaN] when there is no digit. *)
Definition parseInt (s : string) : number :=
  let s := skip_spaces s in
  let '(neg, ds) :=
    match s with
    | String "-" rest => (true, rest)
    | String "+" rest => (false, rest)
    | _ => (false, s)
    end in
  match parse_digits ds None with
  | Some v => Num (if neg then - v else v)
  | None => NaN
  end.

(** A thrown [Error] object: the two properties the class inspects. *)
Record Error := mkError { name : string; message : string }.

(** [new Error(msg)]. *)
Definition new_Error (msg : string) : Error := mkError "Error" msg.

End JS.
Export JS.

(** ** Configuration, storage and the browser state *)

(** Modelled from the spec: [ZyloConfig] of the missing module [./types]
    (the spec's ClientConfig), with the fields the class reads from
    [this.config]. *)
Record ZyloConfig := {
  supabaseUrl : string;
  supabaseAnonKey : string;
  controlPlaneUrl : string;
  tenantId : string;
  projectId : string;
  signedAppContext : option string;
}.

(** Modelled from the spec: [TokenType] of the missing module [./types],
    the three tiers. The class uses it as a union of three string
    literals; at run time a tier is the string itself, and the value read
    back from storage is cast to it without a check. *)
Abbreviation TokenType := string.
Definition FALLBACK_ANON : TokenType := "FALLBACK_ANON".
Definition SCOPED_ANON : TokenType := "SCOPED_ANON".
Definition USER_SCOPED : TokenType := "USER_SCOPED".

Definition is_tier (t : TokenType) : Prop :=
  t = FALLBACK_ANON \/ t = SCOPED_ANON \/ t = USER_SCOPED.

(** Modelled from the spec: [TokenResponse] of the missing module
    [./types], the success fields of an exchange. *)
Record TokenResponse := { access_token : string; expires_in : Z }.

(** Storage keys. *)
Definition TOKEN_KEY : string := "zylo_token".
Definition TOKEN_EXPIRY_KEY : string := "zylo_token_expiry".
Definition TOKEN_TYPE_KEY : string := "zylo_token_type".

(** The two purposes a timeout is armed for. *)
Inductive TimerKind := Reexchange | Upgrade.

Definition TimerKind_eqb (a b : TimerKind) : bool :=
  match a, b with
  | Reexchange, Reexchange | Upgrade, Upgrade => true
  | _, _ => false
  end.

(** A timeout waiting in the event loop: the handle [setTimeout]
    returned, the callback it runs and the instant it is due. Browser
    handles are positive integers, hence always truthy. *)
Record Timer := { timer_id : positive; timer_kind : TimerKind; timer_due : Z }.

(** The requests the class issues, in the order they leave. *)
Inductive Call :=
| CallEnsureTable
| CallBoot
| CallTenantUserExchange (userToken : string)
| CallSignup (email : string)
| CallSignInWithPassword (email : string)
| CallDirectSignUp (email : string)
| CallSignOut
| CallSetSession (token : string).

Definition is_exchange (c : Call) : bool :=
  match c with
  | CallBoot | CallTenantUserExchange _ => true
  | _ => false
  end.

Record State := {
  (* fields of the instance *)
  config : ZyloConfig;
  currentTokenType : TokenType;
  tokenExpiry : option number;
  reexchangeTimer : option positive;
  upgradeTimer : option positive;
  (* the browser *)
  clock : Z;
  localStorage : gmap string string;
  session : option string;
  timers : list Timer;
  next_timer : positive;
  calls : list Call;
}.

(** [new ZyloClient(config)] in a browser whose storage holds [store]. *)
Definition construct (cfg : ZyloConfig) (now : Z) (store : gmap string string) : State :=
  {| config := cfg;
     currentTokenType := FALLBACK_ANON;
     tokenExpiry := None;
     reexchangeTimer := None;
     upgradeTimer := None;
     clock := now;
     localStorage := store;
     session := None;
     timers := [];
     next_timer := 1%positive;
     calls := [] |}.

Definition with_currentTokenType (t : TokenType) (s : State) : State :=
  {| config := config s; currentTokenType := t; tokenExpiry := tokenExpiry s;
     reexchangeTimer := reexchangeTimer s; upgradeTimer := upgradeTimer s;
     clock := clock s; localStorage := localStorage s; session := session s;
     timers := timers s; next_timer := next_timer s; calls := calls s |}.

Definition with_tokenExpiry (e : option number) (s : State) : State :=
  {| config := config s; currentTokenType := currentTokenType s; tokenExpiry := e;
     reexchangeTimer := reexchangeTimer s; upgradeTimer := upgradeTimer s;
     clock := clock s; localStorage := localStorage s; session := session s;
     timers := timers s; next_timer := next_timer s; calls := calls s |}.

Definition with_reexchangeTimer (h : option positive) (s : State) : State :=
  {| config := config s; currentTokenType := currentTokenType s;
     tokenExpiry := tokenExpiry s;
     reexchangeTimer := h; upgradeTimer := upgradeTimer s;
     clock := clock s; localStorage := localStorage s; session := session s;
     timers := timers s; next_timer := next_timer s; calls := calls s |}.

Definition with_upgradeTimer (h : option positive) (s : State) : State :=
  {| config := config s; currentTokenType := currentTokenType s;
     tokenExpiry := tokenExpiry s;
     reexchangeTimer := reexchangeTimer s; upgradeTimer := h;
     clock := clock s; localStorage := localStorage s; session := session s;
     timers := timers s; next_timer := next_timer s; calls := calls s |}.

Definition with_clock (t : Z) (s : State) : State :=
  {| config := config s; currentTokenType := currentTokenType s;
     tokenExpiry := tokenExpiry s;
     reexchangeTimer := reexchangeTimer s; upgradeTimer := upgradeTimer s;
     clock := t; localStorage := localStorage s; session := session s;
     timers := timers s; next_timer := next_timer s; calls := calls s |}.

Definition with_localStorage (m : gmap string string) (s : State) : State :=
  {| config := config s; currentTokenType := currentTokenType s;
     tokenExpiry := tokenExpiry s;
     reexchangeTimer := reexchangeTimer s; upgradeTimer := upgradeTimer s;
     clock := clock s; localStorage := m; session := session s;
     timers := timers s; next_timer := next_timer s; calls := calls s |}.

Definition with_session (o : option string) (s : State) : State :=
  {| config := config s; currentTokenType := currentTokenType s;
     tokenExpiry := tokenExpiry s;
     reexchangeTimer := reexchangeTimer s; upgradeTimer := upgradeTimer s;
     clock := clock s; localStorage := localStorage s; session := o;
     timers := timers s; next_timer := next_timer s; calls := calls s |}.

Definition with_timers (l : list Timer) (n : positive) (s : State) : State :=
  {| config := config s; currentTokenType := currentTokenType s;
     tokenExpiry := tokenExpiry s;
     reexchangeTimer := reexchangeTimer s; upgradeTimer := upgradeTimer s;
     clock := clock s; localStorage := localStorage s; session := session s;
     timers := l; next_timer := n; calls := calls s |}.

Definition with_calls (l : list Call) (s : State) : State :=
  {| config := config s; currentTokenType := currentTokenType s;
     tokenExpiry := tokenExpiry s;
     reexchangeTimer := reexchangeTimer s; upgradeTimer := upgradeTimer s;
     clock := clock s; localStorage := localStorage s; session := session s;
     timers := timers s; next_timer := next_timer s; calls := l |}.

(** ** The monad of methods *)

Inductive completion (A : Type) :=
| Normal (a : A)
| Throw (e : Error).
Arguments Normal {A} a.
Arguments Throw {A} e.

Definition M (A : Type) : Type := State -> completion A * State.

Definition ret {A} (a : A) : M A := fun s => (Normal a, s).

Definition throw {A} (e : Error) : M A := fun s => (Throw e, s).

Definition bind {A B} (m : M A) (k : A -> M B) : M B :=
  fun s =>
    match m s with
    | (Normal a, s') => k a s'
    | (Throw e, s') => (Throw e, s')
    end.

(** [try { m } catch (e) { h e }]. *)
Definition try_catch {A} (m : M A) (h : Error -> M A) : M A :=
  fun s =>
    match m s with
    | (Normal a, s') => (Normal a, s')
    | (Throw e, s') => h e s'
    end.

Definition gets {A} (f : State -> A) : M A := fun s => (Normal (f s), s).

Definition modify (f : State -> State) : M unit := fun s => (Normal tt, f s).

Declare Scope zylo_scope.
Delimit Scope zylo_scope with zylo.
Notation "x <- m ;; k" := (bind m (fun x => k))
  (at level 20, m at level 99, k at level 200) : zylo_scope.
Notation "m ;; k" := (bind m (fun _ => k))
  (at level 100, k at level 200, right associativity) : zylo_scope.
Local Open Scope zylo_scope.

(** The state a call ends in, and how it completes. *)
Definition exec {A} (m : M A) (s : State) : State := snd (m s).
Definition outcome {A} (m : M A) (s : State) : completion A := fst (m s).

Definition returns {A} (c : completion A) : bool :=
  match c with
  | Normal _ => true
  | Throw _ => false
  end.

(** ** Primitives of the environment *)

(** [Date.now()]. *)
Definition Date_now : M Z := gets clock.

(** Time passes while a request is awaited. *)
Definition elapse (dt : N) : M unit :=
  modify (fun s => with_clock (clock s + Z.of_N dt) s).

Definition record_call (c : Call) : M unit :=
  modify (fun s => with_calls (calls s ++ [c]) s).

(** Modelled from the spec: [browserAPI.localStorage] of the missing
    module [@/components/client-safe], the durable keyed slots of the
    Token Store behind the Web Storage interface ([getItem], [setItem],
    [removeItem]); its calls do not throw. *)
Definition getItem (k : string) : M (option string) :=
  gets (fun s => localStorage s !! k).

Definition setItem (k v : string) : M unit :=
  modify (fun s => with_localStorage (<[k := v]> (localStorage s)) s).

Definition removeItem (k : string) : M unit :=
  modify (fun s => with_localStorage (delete k (localStorage s)) s).

(** The largest delay a host timer waits for: the delay of [setTimeout]
    is a signed 32-bit number of milliseconds (about 24.9 days), and a
    larger one is not waited for. *)
Definition MAX_TIMEOUT_DELAY : Z := 2147483647.

(** [setTimeout(callback, delay)]: the timeout joins the event loop, due
    [delay] milliseconds from now, and its fresh handle is returned.
    The due instant is that of the host for a delay up to
    [MAX_TIMEOUT_DELAY]; the class does not clamp the delay it passes, and
    statements about a due instant carry that bound. *)
Definition setTimeout (k : TimerKind) (delay : Z) : M positive :=
  fun s =>
    let id := next_timer s in
    (Normal id,
     with_timers (timers s ++ [{| timer_id := id; timer_kind := k;
                                  timer_due := clock s + delay |}])
                 (Pos.succ id) s).

(** [clearTimeout(handle)]. *)
Definition clearTimeout (id : positive) : M unit :=
  modify (fun s =>
    with_timers (filter (fun t => timer_id t <> id) (timers s)) (next_timer s) s).

(** An HTTP response: [res.status], [res.statusText], [res.text()] and
    [res.json()] (the parsed body, or the error [res.json()] rejects
    with). *)
Record Response (B : Type) := {
  status : Z;
  statusText : string;
  text : string;
  json : completion B;
}.
Arguments status {B} _.
Arguments statusText {B} _.
Arguments text {B} _.
Arguments json {B} _.

(** [res.ok]. *)
Definition ok {B} (r : Response B) : bool := (200 <=? status r) && (status r <=? 299).

(** What [fetch] settles to: a rejection (network failure; a
    [TimeoutError] when [AbortSignal.timeout] fires) or a response. *)
Inductive FetchResult (B : Type) :=
| Rejected (e : Error)
| Responded (r : Response B).
Arguments Rejected {B} e.
Arguments Responded {B} r.

(** An awaited answer together with the time it took to arrive. *)
Record Reply (A : Type) := { latency : N; answer : A }.
Arguments latency {A} _.
Arguments answer {A} _.

(** The exchange did not deliver a token: the request was rejected, or
    the response is not 2xx. *)
Definition exchange_failed (x : FetchResult TokenResponse) : bool :=
  match x with
  | Rejected _ => true
  | Responded r => negb (ok r)
  end.

(** ** The Identity Provider Binding

    The Supabase client ([@supabase/supabase-js]) is an external
    collaborator. It holds at most one session; the class only needs
    "authenticate and get a bearer token back" and "set the active
    token". Its auth calls resolve to a result object and do not reject. *)

(** [{ data, error }] of [auth.signInWithPassword]: [error] and
    [data.session?.access_token]. *)
Record SignInResult := {
  signin_error : option Error;
  signin_access_token : option string;
}.

(** [data.session] of [auth.signUp]. *)
Record DirectSession := {
  ds_access_token : string;
  ds_expires_in : option Z;
}.

(** [{ data, error }] of [auth.signUp]: [error], whether [data.user] is
    present, and [data.session]. *)
Record DirectSignUpResult := {
  signup_error : option Error;
  signup_user : bool;
  signup_session : option DirectSession;
}.

(** Modelled from the spec: [auth.signInWithPassword] of the Identity
    Provider Binding; a successful sign-in establishes the session. *)
Definition signInWithPassword (email : string) (r : Reply SignInResult) : M SignInResult :=
  record_call (CallSignInWithPassword email) ;;
  elapse (latency r) ;;
  match signin_error (answer r), signin_access_token (answer r) with
  | None, Some tok => modify (with_session (Some tok))
  | _, _ => ret tt
  end ;;
  ret (answer r).

(** Modelled from the spec: [auth.signUp] of the Identity Provider
    Binding; the session, if one is returned at once, is established. *)
Definition auth_signUp (email : string) (r : Reply DirectSignUpResult) : M DirectSignUpResult :=
  record_call (CallDirectSignUp email) ;;
  elapse (latency r) ;;
  match signup_error (answer r), signup_session (answer r) with
  | None, Some ds => modify (with_session (Some (ds_access_token ds)))
  | _, _ => ret tt
  end ;;
  ret (answer r).

(** Modelled from the spec: [auth.signOut] of the Identity Provider
    Binding. *)
Definition signOut : M unit :=
  record_call CallSignOut ;;
  modify (with_session None).

(** Modelled from the spec: [auth.setSession({ access_token: token,
    refresh_token: '' })], the Session Binder: the token becomes the
    active one. *)
Definition setSession (token : string) : M unit :=
  record_call (CallSetSession token) ;;
  modify (with_session (Some token)).

(** Modelled from the spec:
    [(await auth.getSession()).data.session?.access_token]. *)
Definition getSession_access_token : M (option string) := gets session.

(** ** Private methods of [ZyloClient] *)

Definition clearReexchangeTimer : M unit :=
  h <- gets reexchangeTimer ;;
  match h with
  | Some id => clearTimeout id ;; modify (with_reexchangeTimer None)
  | None => ret tt
  end.

Definition clearUpgradeTimer : M unit :=
  h <- gets upgradeTimer ;;
  match h with
  | Some id => clearTimeout id ;; modify (with_upgradeTimer None)
  | None => ret tt
  end.

Definition exchangeForScopedAnonToken (x : Reply (FetchResult TokenResponse)) : M TokenResponse :=
  record_call CallBoot ;;
  elapse (latency x) ;;
  match answer x with
  | Rejected _ => throw (new_Error "Control Plane unreachable")
  | Responded res =>
      if negb (ok res) then
        throw (new_Error ("CP /api/supabase/boot failed: " +:+ toString (status res)
                          +:+ " " +:+ statusText res +:+ " - " +:+ text res))
      else
        match json res with
        | Normal body => ret body
        | Throw e => throw e
        end
  end.

Definition exchangeForTenantUserScopedToken (userToken : string)
    (x : Reply (FetchResult TokenResponse)) : M TokenResponse :=
  record_call (CallTenantUserExchange userToken) ;;
  elapse (latency x) ;;
  match answer x with
  | Rejected _ => throw (new_Error "Unable to complete authentication. Please try again.")
  | Responded res =>
      if negb (ok res) then
        throw (new_Error ("CP /api/supabase/tenant-users/exchange-token failed: "
                          +:+ toString (status res)
                          +:+ " " +:+ statusText res +:+ " - " +:+ text res))
      else
        match json res with
        | Normal body => ret body
        | Throw e => throw e
        end
  end.

(** [this.ensureTenantUsersTableExists().catch(...)] as [boot] uses it:
    the request leaves, nobody waits for it, and its failure is only
    logged. *)
Definition ensureTenantUsersTableExists_detached : M unit :=
  record_call CallEnsureTable.

Definition setToken (token : string) (expiresIn : option Z) : M unit :=
  setSession token ;;
  match expiresIn with
  | Some secs =>
      now <- Date_now ;;
      let expiryTime := now + secs * 1000 in
      modify (with_tokenExpiry (Some (Num expiryTime))) ;;
      setItem TOKEN_KEY token ;;
      setItem TOKEN_EXPIRY_KEY (toString expiryTime) ;;
      type <- gets currentTokenType ;;
      setItem TOKEN_TYPE_KEY type
  | None =>
      modify (with_tokenExpiry None) ;;
      removeItem TOKEN_KEY ;;
      removeItem TOKEN_EXPIRY_KEY ;;
      removeItem TOKEN_TYPE_KEY
  end.

Record StoredToken := {
  stored_token : string;
  stored_expiry : number;
  stored_type : TokenType;
}.

Definition loadStoredToken : M (option StoredToken) :=
  token <- getItem TOKEN_KEY ;;
  expiry <- getItem TOKEN_EXPIRY_KEY ;;
  type <- getItem TOKEN_TYPE_KEY ;;
  match token, expiry, type with
  | Some tok, Some e, Some ty =>
      if negb (truthy_string tok) || negb (truthy_string e) || negb (truthy_string ty)
      then ret None
      else ret (Some {| stored_token := tok; stored_expiry := parseInt e;
                        stored_type := ty |})
  | _, _, _ => ret None
  end.

(** [isTokenExpired(expiry?)]: [expiry ?? this.tokenExpiry], not expired
    when that is falsy. *)
Definition isTokenExpired (expiry : option number) : M bool :=
  own <- gets tokenExpiry ;;
  let expiryTime := match expiry with Some n => Some n | None => own end in
  match expiryTime with
  | Some n =>
      if negb (truthy_number n) then ret false
      else now <- Date_now ;;
           ret match n with Num z => now >=? z | NaN => false end
  | None => ret false
  end.

(** [scheduleReexchange()]: the callback itself is [reexchange_callback]
    below, run when the armed timeout fires. *)
Definition scheduleReexchange : M unit :=
  clearReexchangeTimer ;;
  e <- gets tokenExpiry ;;
  match e with
  | Some (Num expiry) =>
      if negb (truthy_number (Num expiry)) then ret tt
      else
        let renewAt := expiry - 2 * 60 * 1000 in
        now <- Date_now ;;
        let delay := Z.max 0 (renewAt - now) in
        id <- setTimeout Reexchange delay ;;
        modify (with_reexchangeTimer (Some id))
  | _ => ret tt
  end.

(** [scheduleUpgradeAttempt()]: the callback is [upgrade_callback]. *)
Definition scheduleUpgradeAttempt : M unit :=
  clearUpgradeTimer ;;
  id <- setTimeout Upgrade (5 * 60 * 1000) ;;
  modify (with_upgradeTimer (Some id)).

(** ** Public methods *)

Definition boot (x : Reply (FetchResult TokenResponse)) : M unit :=
  ensureTenantUsersTableExists_detached ;;
  stored <- loadStoredToken ;;
  restorable <- match stored with
                | Some st => expired <- isTokenExpired (Some (stored_expiry st)) ;;
                             ret (negb expired)
                | None => ret false
                end ;;
  match stored, restorable with
  | Some st, true =>
      setToken (stored_token st) None ;;
      modify (with_currentTokenType (stored_type st)) ;;
      modify (with_tokenExpiry (Some (stored_expiry st))) ;;
      scheduleReexchange
  | _, _ =>
      try_catch
        (tokenResponse <- exchangeForScopedAnonToken x ;;
         setToken (access_token tokenResponse) (Some (expires_in tokenResponse)) ;;
         modify (with_currentTokenType SCOPED_ANON) ;;
         scheduleReexchange)
        (fun _ =>
           cfg <- gets config ;;
           setToken (supabaseAnonKey cfg) None ;;
           modify (with_currentTokenType FALLBACK_ANON) ;;
           scheduleUpgradeAttempt)
  end.

Definition login (email password : string) (si : Reply SignInResult)
    (x : Reply (FetchResult TokenResponse)) : M unit :=
  r <- signInWithPassword email si ;;
  match signin_error r with
  | Some error => throw error
  | None =>
      let supabaseUserToken := signin_access_token r in
      match supabaseUserToken with
      | Some userToken =>
          if negb (truthy_string userToken)
          then throw (new_Error "No user token returned from Supabase")
          else
            try_catch
              (tokenResponse <- exchangeForTenantUserScopedToken userToken x ;;
               setToken (access_token tokenResponse) (Some (expires_in tokenResponse)) ;;
               modify (with_currentTokenType USER_SCOPED) ;;
               scheduleReexchange)
              (fun _ => ret tt)
      | None => throw (new_Error "No user token returned from Supabase")
      end
  end.

(** The primary path of [signUp]: the inner [try]/[catch] around the
    request to the Control Plane. The result says whether [signUp] has
    returned ([true]) or goes on to the direct Supabase signup ([false]). *)
Definition signUp_control_plane (email password : string)
    (p : Reply (FetchResult (option string)))
    (si : Reply SignInResult) (x : Reply (FetchResult TokenResponse)) : M bool :=
  try_catch
    (record_call (CallSignup email) ;;
     elapse (latency p) ;;
     match answer p with
     | Rejected e => throw e
     | Responded res =>
         if ok res then
           login email password si x ;;
           ret true
         else if status res =? 404 then
           ret false
         else
           let errorData_error :=
             match json res with
             | Normal err => err
             | Throw _ => Some (statusText res)
             end in
           throw (new_Error (if truthy errorData_error
                             then default "" errorData_error
                             else "Signup failed: " +:+ toString (status res)))
     end)
    (fun networkError =>
       if String.eqb (name networkError) "AbortError" then ret false
       else if includes "Signup failed" (message networkError) then throw networkError
       else ret false).

(** The direct Supabase signup [signUp] falls back to. *)
Definition signUp_direct (email password : string)
    (d : Reply DirectSignUpResult)
    (si : Reply SignInResult) (x : Reply (FetchResult TokenResponse)) : M unit :=
  r <- auth_signUp email d ;;
  match signup_error r with
  | Some signUpError => throw signUpError
  | None =>
      if negb (signup_user r)
      then throw (new_Error "Signup succeeded but no user data returned")
      else
        match signup_session r with
        | Some sess =>
            let expiresIn :=
              match ds_expires_in sess with
              | Some n => if n =? 0 then None else Some n
              | None => None
              end in
            setToken (ds_access_token sess) expiresIn ;;
            modify (with_currentTokenType USER_SCOPED) ;;
            scheduleReexchange
        | None => login email password si x
        end
  end.

(** [signUp(email, password, userData?)]; [userData] only travels in the
    request bodies. The answers are those of the Control Plane signup
    ([p]), of the direct signup ([d]) and of the [login] that may follow
    ([si], [x]). *)
Definition signUp (email password : string)
    (p : Reply (FetchResult (option string))) (d : Reply DirectSignUpResult)
    (si : Reply SignInResult) (x : Reply (FetchResult TokenResponse)) : M unit :=
  try_catch
    (returned <- signUp_control_plane email password p si x ;;
     if (returned : bool) then ret tt
     else signUp_direct email password d si x)
    (fun error =>
       let msg := message error in
       if includes "User already registered" msg then
         throw (new_Error "An account with this username already exists. Please sign in instead.")
       else if includes "Invalid email" msg then
         throw (new_Error "Invalid username. Please use only letters and numbers.")
       else if includes "Password" msg then
         throw (new_Error "Password does not meet requirements. Please use a stronger password.")
       else
         throw (new_Error (if truthy_string msg then msg
                           else "Account creation failed. Please try again."))).

Definition logout (x : Reply (FetchResult TokenResponse)) : M unit :=
  signOut ;;
  clearReexchangeTimer ;;
  clearUpgradeTimer ;;
  boot x.

Definition cleanup : M unit :=
  clearReexchangeTimer ;;
  clearUpgradeTimer.

Definition isAuthenticated : M bool :=
  gets (fun s => match session s with Some _ => true | None => false end).

Record TokenStatus := {
  status_type : TokenType;
  status_expiresAt : option number;
  status_isExpired : bool;
  status_hasSignedContext : bool;
}.

(** [!!(ctx && ctx.trim())]: some character of [ctx] is not white space. *)
Definition has_signed_context (ctx : option string) : bool :=
  match ctx with
  | Some c => truthy_string (skip_spaces c)
  | None => false
  end.

Definition getTokenStatus : M TokenStatus :=
  type <- gets currentTokenType ;;
  e <- gets tokenExpiry ;;
  expired <- isTokenExpired None ;;
  cfg <- gets config ;;
  ret {| status_type := type;
         status_expiresAt := match e with
                             | Some n => if truthy_number n then Some n else None
                             | None => None
                             end;
         status_isExpired := expired;
         status_hasSignedContext := has_signed_context (signedAppContext cfg) |}.

(** ** The two timer callbacks *)

(** The callback armed by [scheduleReexchange]; [x] answers the one
    exchange request it may issue. *)
Definition reexchange_callback (x : Reply (FetchResult TokenResponse)) : M unit :=
  try_catch
    (type <- gets currentTokenType ;;
     (if String.eqb type USER_SCOPED then
        userToken <- getSession_access_token ;;
        match userToken with
        | Some tok =>
            if truthy_string tok then
              tokenResponse <- exchangeForTenantUserScopedToken tok x ;;
              setToken (access_token tokenResponse) (Some (expires_in tokenResponse))
            else boot x
        | None => boot x
        end
      else if String.eqb type SCOPED_ANON then
        tokenResponse <- exchangeForScopedAnonToken x ;;
        setToken (access_token tokenResponse) (Some (expires_in tokenResponse))
      else ret tt) ;;
     scheduleReexchange)
    (fun _ =>
       cfg <- gets config ;;
       setToken (supabaseAnonKey cfg) None ;;
       modify (with_currentTokenType FALLBACK_ANON) ;;
       scheduleUpgradeAttempt).

(** The callback armed by [scheduleUpgradeAttempt]. *)
Definition upgrade_callback (x : Reply (FetchResult TokenResponse)) : M unit :=
  try_catch
    (tokenResponse <- exchangeForScopedAnonToken x ;;
     setToken (access_token tokenResponse) (Some (expires_in tokenResponse)) ;;
     modify (with_currentTokenType SCOPED_ANON) ;;
     scheduleReexchange)
    (fun _ => scheduleUpgradeAttempt).

(** The event loop runs a due timeout: it leaves the pending list and its
    callback runs. *)
Definition fire (t : Timer) (x : Reply (FetchResult TokenResponse)) : M unit :=
  modify (fun s =>
    with_timers (filter (fun u => timer_id u <> timer_id t) (timers s)) (next_timer s) s) ;;
  match timer_kind t with
  | Reexchange => reexchange_callback x
  | Upgrade => upgrade_callback x
  end.

(** ** Runs of the manager *)

(** What can happen to an instance: a call of the public API, a timeout
    firing, or time passing. *)
Inductive Op :=
| OpBoot (x : Reply (FetchResult TokenResponse))
| OpLogin (email password : string) (si : Reply SignInResult)
    (x : Reply (FetchResult TokenResponse))
| OpSignUp (email password : string)
    (p : Reply (FetchResult (option string))) (d : Reply DirectSignUpResult)
    (si : Reply SignInResult) (x : Reply (FetchResult TokenResponse))
| OpLogout (x : Reply (FetchResult TokenResponse))
| OpCleanup
| OpFire (t : Timer) (x : Reply (FetchResult TokenResponse))
| OpWait (dt : N).

Definition run_op (o : Op) : M unit :=
  match o with
  | OpBoot x => boot x
  | OpLogin email password si x => login email password si x
  | OpSignUp email password p d si x => signUp email password p d si x
  | OpLogout x => logout x
  | OpCleanup => cleanup
  | OpFire t x => fire t x
  | OpWait dt => elapse dt
  end.

(** A timeout fires only while it is pending and once it is due. *)
Definition enabled (o : Op) (s : State) : Prop :=
  match o with
  | OpFire t _ => In t (timers s) /\ timer_due t <= clock s
  | _ => True
  end.

(** The runs in which no call overlaps another: each operation runs to
    its end before the next begins. The runs in which calls are in
    flight while others begin are [reachable_world], further down. *)
Inductive reachable : State -> Prop :=
| reachable_construct cfg now store :
    reachable (construct cfg now store)
| reachable_step s o :
    reachable s -> enabled o s -> reachable (exec (run_op o) s).

(** The pending timeouts of one purpose. *)
Definition armed (k : TimerKind) (s : State) : list Timer :=
  List.filter (fun t => TimerKind_eqb (timer_kind t) k) (timers s).

Definition stored_triple (s : State) : option string * option string * option string :=
  (localStorage s !! TOKEN_KEY, localStorage s !! TOKEN_EXPIRY_KEY,
   localStorage s !! TOKEN_TYPE_KEY).

(** The exchange requests among the calls issued from [s] to [s']. *)
Definition exchanges_since (s s' : State) : list Call :=
  List.filter is_exchange (drop (length (calls s)) (calls s')).

(** ** Observers used in the statements *)

(** What [loadStoredToken] finds in the state. *)
Definition peek_stored (s : State) : option StoredToken :=
  match outcome loadStoredToken s with
  | Normal o => o
  | Throw _ => None
  end.

(** The stored record [boot] would restore: present and not expired. *)
Definition restorable (s : State) : option StoredToken :=
  match peek_stored s with
  | Some st =>
      match outcome (isTokenExpired (Some (stored_expiry st))) s with
      | Normal false => Some st
      | _ => None
      end
  | None => None
  end.

(** Primary authentication delivered a bearer token: no error, and a
    non-empty [data.session.access_token]. *)
Definition primary_auth_ok (r : SignInResult) : bool :=
  match signin_error r with
  | Some _ => false
  | None => truthy (signin_access_token r)
  end.

(** The timeout [setTimeout] creates in [s]. *)
Definition new_timer (k : TimerKind) (s : State) (due : Z) : Timer :=
  {| timer_id := next_timer s; timer_kind := k; timer_due := due |}.

(** The handle field of a purpose. *)
Definition handle (k : TimerKind) (s : State) : option positive :=
  match k with
  | Reexchange => reexchangeTimer s
  | Upgrade => upgradeTimer s
  end.

(** The discipline of the two handles: there is at most one pending
    timeout of each purpose, and every pending timeout is the one the
    handle field of its purpose names. *)
Definition timers_ok (s : State) : Prop :=
  (forall k, (length (armed k s) <= 1)%nat) /\
  (forall t, In t (timers s) -> handle (timer_kind t) s = Some (timer_id t)).

Definition with_handle (k : TimerKind) (h : option positive) (s : State) : State :=
  match k with
  | Reexchange => with_reexchangeTimer h s
  | Upgrade => with_upgradeTimer h s
  end.

(** The state once the timeout named by the handle of [k] is cancelled
    and the handle reset, as [clearReexchangeTimer] and
    [clearUpgradeTimer] leave it. *)
Definition cancelled (k : TimerKind) (s : State) : State :=
  match handle k s with
  | Some h =>
      with_handle k None
        (with_timers (filter (fun t => timer_id t <> h) (timers s)) (next_timer s) s)
  | None => s
  end.

(** The state once a timeout of purpose [k] is created, due in [delay]
    milliseconds, and kept in the handle of [k]. *)
Definition rearmed (k : TimerKind) (delay : Z) (s : State) : State :=
  with_handle k (Some (next_timer s))
    (with_timers (timers s ++ [new_timer k s (clock s + delay)])
       (Pos.succ (next_timer s)) s).

(** The delay [scheduleReexchange] computes in [s]; [None] when the
    expiry is falsy and no timeout is armed. *)
Definition renewal_delay (s : State) : option Z :=
  match tokenExpiry s with
  | Some (Num e) => if e =? 0 then None else Some (Z.max 0 (e - 2 * 60 * 1000 - clock s))
  | _ => None
  end.

(** The sequence every exchange success runs: store the token, set the
    tier, arm the renewal. *)
Definition token_then_schedule (tok : string) (secs : Z) (ty : TokenType) : M unit :=
  setToken tok (Some secs) ;;
  modify (with_currentTokenType ty) ;;
  scheduleReexchange.

(** The message of the [Error] the primary path of [signUp] throws on a
    response that is neither 2xx nor 404: [errorData.error], or
    ["Signup failed: <status>"] when that is falsy. *)
Definition signup_error_message (res : Response (option string)) : string :=
  let errorData_error :=
    match json res with
    | Normal err => err
    | Throw _ => Some (statusText res)
    end in
  if truthy errorData_error then default "" errorData_error
  else "Signup failed: " +:+ toString (status res).

(** The tier held, and the tier tag in storage if there is one, are
    among the three tiers. *)
Definition tier_ok (s : State) : Prop :=
  is_tier (currentTokenType s) /\
  (forall ty, localStorage s !! TOKEN_TYPE_KEY = Some ty -> is_tier ty).

(** A computation keeps a property of the state, however it completes. *)
Definition preserves {A} (P : State -> Prop) (m : M A) : Prop :=
  forall s, P s -> P (exec m s).

(** ** Observers for the timer callbacks and [cleanup] *)

(** Between [s] and [s'] only the pending timeouts, the two handles and
    the handle counter may differ. *)
Definition only_timers_changed (s s' : State) : Prop :=
  config s' = config s /\
  currentTokenType s' = currentTokenType s /\
  tokenExpiry s' = tokenExpiry s /\
  localStorage s' = localStorage s /\
  session s' = session s /\
  clock s' = clock s /\
  calls s' = calls s.

(** The handles a run hands out: each is below the handle counter, and
    the two handle fields never hold the same handle. *)
Definition handles_ok (s : State) : Prop :=
  (forall k h, handle k s = Some h -> (h < next_timer s)%positive) /\
  (forall h, reexchangeTimer s = Some h -> upgradeTimer s <> Some h).

(** The state in which a callback starts: the timeout [t] has left the
    event loop. *)
Definition fired (t : Timer) (s : State) : State :=
  with_timers (filter (fun u => timer_id u <> timer_id t) (timers s)) (next_timer s) s.

(** The state in which the answer [x] to a request [c] arrives. *)
Definition answered (c : Call) (x : Reply (FetchResult TokenResponse)) (s : State) : State :=
  with_clock (clock s + Z.of_N (latency x)) (with_calls (calls s ++ [c]) s).

(** The exchange request the renewal callback issues in [s], if any:
    the tenant-user exchange with the session's token for [USER_SCOPED]
    (none when there is no session token: the callback boots instead),
    the scoped-anonymous exchange for [SCOPED_ANON], none otherwise. *)
Definition renewal_request (s : State) : option Call :=
  if String.eqb (currentTokenType s) USER_SCOPED then
    match session s with
    | Some tok => if truthy_string tok then Some (CallTenantUserExchange tok) else None
    | None => None
    end
  else if String.eqb (currentTokenType s) SCOPED_ANON then Some CallBoot
  else None.

(** The [catch] branch shared by [boot] and the renewal callback:
    degrade to the static fallback credential and start the upgrade
    retries. *)
Definition demote : M unit :=
  cfg <- gets config ;;
  setToken (supabaseAnonKey cfg) None ;;
  modify (with_currentTokenType FALLBACK_ANON) ;;
  scheduleUpgradeAttempt.

(** What the renewal callback does after a granted exchange: store the
    token and re-arm, the tier staying what it is. *)
Definition renew_with (tok : string) (secs : Z) : M unit :=
  setToken tok (Some secs) ;;
  scheduleReexchange.

(** ** Observers for the stored record *)

(** The three slots hold a record [boot] restores at the instant of [s]:
    each slot holds a non-empty string, and the expiry slot reads as
    [NaN], as zero, or as an instant still ahead. *)
Definition holds_valid_record (s : State) : bool :=
  match stored_triple s with
  | (Some tok, Some e, Some ty) =>
      truthy_string tok && truthy_string e && truthy_string ty &&
      match parseInt e with
      | Num z => (z =? 0) || (clock s <? z)
      | NaN => true
      end
  | _ => false
  end.

(** The state [logout] boots in: the Supabase session is gone and both
    timeouts are cancelled. *)
Definition signed_out (s : State) : State :=
  cancelled Upgrade
    (cancelled Reexchange (with_session None (with_calls (calls s ++ [CallSignOut]) s))).

(** The state in which the tenant-user exchange of [login] is answered:
    Supabase has accepted the password and holds the user's session. *)
Definition authenticated (email ut : string) (si : Reply SignInResult)
    (x : Reply (FetchResult TokenResponse)) (s : State) : State :=
  answered (CallTenantUserExchange ut) x
    (with_session (Some ut)
       (with_clock (clock s + Z.of_N (latency si))
          (with_calls (calls s ++ [CallSignInWithPassword email]) s))).

(** The sequence the direct signup runs on a session that carries no
    [expires_in]: bind the token without an expiry, set the tier, and
    call [scheduleReexchange()]. *)
Definition token_without_expiry (tok : string) (ty : TokenType) : M unit :=
  setToken tok None ;;
  modify (with_currentTokenType ty) ;;
  scheduleReexchange.

(** The state in which the direct Supabase signup has answered with a
    session, after the Control Plane signup request was answered. *)
Definition registered_directly (email tok : string)
    (p : Reply (FetchResult (option string))) (d : Reply DirectSignUpResult)
    (s : State) : State :=
  with_session (Some tok)
    (with_clock (clock s + Z.of_N (latency p) + Z.of_N (latency d))
       (with_calls (calls s ++ [CallSignup email; CallDirectSignUp email]) s)).

(** [session.expires_in || null]. *)
Definition session_lifetime (sess : DirectSession) : option Z :=
  match ds_expires_in sess with
  | Some n => if n =? 0 then None else Some n
  | None => None
  end.

(** ** Scenarios *)

Module Scenario.

Definition cfg : ZyloConfig :=
  {| supabaseUrl := "https://db.example";
     supabaseAnonKey := "anon-key";
     controlPlaneUrl := "https://cp.example";
     tenantId := "tenant-1";
     projectId := "project-1";
     signedAppContext := None |}.

(** The gateway answers 200 with a token valid for [secs] seconds. *)
Definition granted (tok : string) (secs : Z) : Reply (FetchResult TokenResponse) :=
  {| latency := 0;
     answer := Responded {| status := 200; statusText := "OK"; text := "";
                            json := Normal {| access_token := tok;
                                              expires_in := secs |} |} |}.

(** The gateway cannot be reached. *)
Definition unreachable : Reply (FetchResult TokenResponse) :=
  {| latency := 0; answer := Rejected (mkError "TypeError" "Failed to fetch") |}.

(** The gateway answers 503. *)
Definition unavailable : Reply (FetchResult TokenResponse) :=
  {| latency := 0;
     answer := Responded {| status := 503; statusText := "Service Unavailable";
                            text := "down";
                            json := Throw (mkError "SyntaxError" "Unexpected token") |} |}.

(** Supabase accepts the password and returns a session. *)
Definition signed_in (tok : string) : Reply SignInResult :=
  {| latency := 0;
     answer := {| signin_error := None; signin_access_token := Some tok |} |}.

(** Supabase rejects the password. *)
Definition bad_password : Reply SignInResult :=
  {| latency := 0;
     answer := {| signin_error := Some (mkError "AuthApiError" "Invalid login credentials");
                  signin_access_token := None |} |}.

(** The signup endpoint answers 409 with [{ error: "User already registered" }]. *)
Definition conflict : Reply (FetchResult (option string)) :=
  {| latency := 0;
     answer := Responded {| status := 409; statusText := "Conflict"; text := "";
                            json := Normal (Some "User already registered") |} |}.

(** The signup endpoint answers 500 with an empty JSON object. *)
Definition server_error : Reply (FetchResult (option string)) :=
  {| latency := 0;
     answer := Responded {| status := 500; statusText := "Internal Server Error";
                            text := ""; json := Normal None |} |}.

(** The signup endpoint is not deployed. *)
Definition not_found : Reply (FetchResult (option string)) :=
  {| latency := 0;
     answer := Responded {| status := 404; statusText := "Not Found"; text := "";
                            json := Normal None |} |}.

(** The signup request runs into [AbortSignal.timeout(10000)]. *)
Definition timed_out : Reply (FetchResult (option string)) :=
  {| latency := 10000;
     answer := Rejected (mkError "TimeoutError" "The operation timed out.") |}.

(** The direct Supabase signup creates the user and logs in at once. *)
Definition registered (tok : string) : Reply DirectSignUpResult :=
  {| latency := 0;
     answer := {| signup_error := None; signup_user := true;
                  signup_session := Some {| ds_access_token := tok;
                                            ds_expires_in := Some 3600 |} |} |}.

(** A fresh instance in a browser with empty storage, at time 1000. *)
Definition fresh : State := construct cfg 1000 ∅.

(** [boot()] with the gateway up, then [boot()] again one second later. *)
Definition booted : State := exec (run_op (OpBoot (granted "scoped-1" 600))) fresh.
Definition booted_twice : State :=
  exec (run_op (OpBoot (granted "scoped-2" 600))) (exec (run_op (OpWait 1000)) booted).

(** [boot()] with the gateway down, a successful [login], and the upgrade
    timeout firing five minutes after the boot. *)
Definition degraded : State := exec (run_op (OpBoot unreachable)) fresh.
Definition logged_in : State :=
  exec (run_op (OpLogin "alice" "goodpw" (signed_in "user-jwt")
                  (granted "user-scoped-1" 600))) degraded.
Definition upgrade_timer : Timer :=
  {| timer_id := 1; timer_kind := Upgrade; timer_due := 301000 |}.
Definition after_upgrade : State :=
  exec (run_op (OpFire upgrade_timer (granted "scoped-9" 600)))
    (exec (run_op (OpWait 300000)) logged_in).

End Scenario.

(** ** Further scenarios *)

Module Cases.

(** Five minutes after a degraded boot: the upgrade timeout is due. *)
Definition degraded_due : State :=
  exec (run_op (OpWait 300000)) Scenario.degraded.

(** A granted boot, then 480 seconds pass: the renewal timeout is due. *)
Definition renewal_timer : Timer :=
  {| timer_id := 1; timer_kind := Reexchange; timer_due := 481000 |}.
Definition renewal_due : State :=
  exec (run_op (OpWait 480000)) Scenario.booted.

End Cases.

Module Cases2.

(** After the repeated boot of [Scenario.booted_twice] the tier is
    [FALLBACK_ANON] with an expiry held; 479 seconds later the renewal
    timeout armed by that boot is due. *)
Definition stale_timer : Timer :=
  {| timer_id := 2; timer_kind := Reexchange; timer_due := 481000 |}.
Definition stale_due : State :=
  exec (run_op (OpWait 479000)) Scenario.booted_twice.

End Cases2.

Module Cases3.

(** A browser whose storage holds a token, a tier tag and an expiry slot
    that is not a number. *)
Definition garbled : State :=
  construct Scenario.cfg 1000
    (<[TOKEN_TYPE_KEY := "SCOPED_ANON"]>
       (<[TOKEN_EXPIRY_KEY := "soon"]> (<[TOKEN_KEY := "old-token"]> ∅))).

End Cases3.

Module Cases4.

(** The direct Supabase signup finds the e-mail address taken. *)
Definition taken : Reply DirectSignUpResult :=
  {| latency := 0;
     answer := {| signup_error := Some (mkError "AuthApiError" "User already registered");
                  signup_user := false;
                  signup_session := None |} |}.

(** The direct Supabase signup returns a session without [expires_in]. *)
Definition open_session : DirectSession :=
  {| ds_access_token := "bob-jwt"; ds_expires_in := None |}.
Definition registered_open : Reply DirectSignUpResult :=
  {| latency := 0;
     answer := {| signup_error := None; signup_user := true;
                  signup_session := Some open_session |} |}.

End Cases4.

(** ** The forms of the site

    The puzzle form ([PuzzleSolver]) and the two account forms (the
    authentication page and the first step of the character ritual) work
    on what the user typed. Their string methods are modelled on ASCII
    text: every character has a code below 128 ([ascii_only]); on other
    characters [toUpperCase], [toLowerCase], [trim] and [\s] of
    JavaScript follow Unicode, which is not modelled, and the statements
    about the forms carry the restriction. *)

Module JSString.

Fixpoint ascii_only (s : string) : bool :=
  match s with
  | EmptyString => true
  | String c rest => (nat_of_ascii c <? 128)%nat && ascii_only rest
  end.

(** [c.toUpperCase()] and [c.toLowerCase()] for one character. *)
Definition upper (c : ascii) : ascii :=
  let n := nat_of_ascii c in
  if (97 <=? n)%nat && (n <=? 122)%nat then ascii_of_nat (n - 32) else c.

Definition lower (c : ascii) : ascii :=
  let n := nat_of_ascii c in
  if (65 <=? n)%nat && (n <=? 90)%nat then ascii_of_nat (n + 32) else c.

Fixpoint map_chars (f : ascii -> ascii) (s : string) : string :=
  match s with
  | EmptyString => EmptyString
  | String c rest => String (f c) (map_chars f rest)
  end.

Definition toUpperCase (s : string) : string := map_chars upper s.
Definition toLowerCase (s : string) : string := map_chars lower s.

(** [s.trimEnd()]. *)
Fixpoint trimEnd (s : string) : string :=
  match s with
  | EmptyString => EmptyString
  | String c rest =>
      match trimEnd rest with
      | EmptyString => if is_space c then EmptyString else String c EmptyString
      | String d r => String c (String d r)
      end
  end.

(** [s.trim()]; [skip_spaces] is [trimStart]. *)
Definition trim (s : string) : string := trimEnd (skip_spaces s).

(** [s.replace(/\s+/g, " ")]: every maximal run of white space becomes
    one space; [in_run] says the previous character was white space. *)
Fixpoint squeeze (in_run : bool) (s : string) : string :=
  match s with
  | EmptyString => EmptyString
  | String c rest =>
      if is_space c then
        if in_run then squeeze true rest else String " " (squeeze true rest)
      else String c (squeeze false rest)
  end.

Definition collapse_spaces (s : string) : string := squeeze false s.

(** [/[a-z0-9]/] on one character. *)
Definition is_lower_alnum (c : ascii) : bool :=
  let n := nat_of_ascii c in
  ((97 <=? n)%nat && (n <=? 122)%nat) || ((48 <=? n)%nat && (n <=? 57)%nat).

Fixpoint keep (f : ascii -> bool) (s : string) : string :=
  match s with
  | EmptyString => EmptyString
  | String c rest => if f c then String c (keep f rest) else keep f rest
  end.

(** [s.toLowerCase().replace(/[^a-z0-9]/g, '')], the local part both
    account forms derive from the username. *)
Definition local_part (username : string) : string :=
  keep is_lower_alnum (toLowerCase username).

(** Every character of the string passes the test. *)
Fixpoint every (f : ascii -> bool) (s : string) : bool :=
  match s with
  | EmptyString => true
  | String c rest => f c && every f rest
  end.

(** The string is white space only. *)
Fixpoint blank (s : string) : bool :=
  match s with
  | EmptyString => true
  | String c rest => is_space c && blank rest
  end.

(** The first and the last character are not white space. *)
Definition starts_with_space (s : string) : bool :=
  match s with
  | String c _ => is_space c
  | EmptyString => false
  end.

Fixpoint ends_with_space (s : string) : bool :=
  match s with
  | EmptyString => false
  | String c EmptyString => is_space c
  | String _ rest => ends_with_space rest
  end.

End JSString.
Export JSString.

(** *** PuzzleSolver *)

Module Puzzle.

Inductive FeedbackType := success | error | hint.

Record Feedback := { type : option FeedbackType; message : string }.

(** The four [useState] cells of the component. *)
Record Solver := {
  answer : string;
  feedback : Feedback;
  attempts : Z;
  solved : bool;
}.

(** The state of the first render. *)
Definition mount : Solver :=
  {| answer := ""; feedback := {| type := None; message := "" |};
     attempts := 0; solved := false |}.

Definition setAnswer (a : string) (st : Solver) : Solver :=
  {| answer := a; feedback := feedback st; attempts := attempts st; solved := solved st |}.

Definition setFeedback (f : Feedback) (st : Solver) : Solver :=
  {| answer := answer st; feedback := f; attempts := attempts st; solved := solved st |}.

Definition setAttempts (n : Z) (st : Solver) : Solver :=
  {| answer := answer st; feedback := feedback st; attempts := n; solved := solved st |}.

Definition setSolved (b : bool) (st : Solver) : Solver :=
  {| answer := answer st; feedback := feedback st; attempts := attempts st; solved := b |}.

Definition normalizedAnswer (answer : string) : string :=
  collapse_spaces (toUpperCase (trim answer)).

Definition normalizedSolution (solution : string) : string :=
  collapse_spaces (toUpperCase solution).

(** [handleSubmit] of a component rendered with [solution], run on the
    state of the current render. *)
Definition handleSubmit (solution : string) (st : Solver) : Solver :=
  if negb (truthy_string (trim (answer st))) then
    setFeedback {| type := Some error;
                   message := "Please enter an answer before submitting." |} st
  else
    let st := setAttempts (attempts st + 1) st in
    if String.eqb (normalizedAnswer (answer st)) (normalizedSolution solution) then
      setSolved true
        (setFeedback
           {| type := Some success;
              message := "✓ CORRECT! The veil grows thinner. You have unlocked deeper truths." |}
           st)
    else
      setFeedback {| type := Some error;
                     message := "Incorrect. The cipher remains unbroken. Try again." |} st.

(** What the user can do: the form (input and button) is rendered only
    while the puzzle is not solved. *)
Inductive Event := Typed (a : string) | Submitted.

Definition step (solution : string) (st : Solver) (ev : Event) : Solver :=
  if solved st then st
  else match ev with
       | Typed a => setAnswer a st
       | Submitted => handleSubmit solution st
       end.

Definition run (solution : string) (evs : list Event) : Solver :=
  fold_left (step solution) evs mount.

(** The text of the event is ASCII. *)
Definition ascii_event (ev : Event) : bool :=
  match ev with
  | Typed a => ascii_only a
  | Submitted => true
  end.

(** The verdict on an answer typed into a form that is not solved. *)
Definition accepted (solution a : string) : bool :=
  solved (handleSubmit solution (setAnswer a mount)).

End Puzzle.

(** *** The two account forms *)

Module Account.

(** The three checks of [handleSignup] on the authentication page, in
    its order; [None] when the form passes. *)
Definition auth_validation (username password confirmPassword : string) : option string :=
  if negb (truthy_string (trim username)) then Some "Username is required"
  else if negb (String.eqb password confirmPassword) then Some "Passwords do not match"
  else if (String.length password <? 8)%nat
       then Some "Password must be at least 8 characters long"
  else None.

(** The three checks of [handleAccountCreation] of the ritual, in its
    order. *)
Definition ritual_validation (username password confirmPassword : string) : option string :=
  if negb (truthy_string (trim username)) then Some "Username is required"
  else if (String.length password <? 8)%nat
       then Some "Password must be at least 8 characters long"
  else if negb (String.eqb password confirmPassword) then Some "Passwords do not match"
  else None.

(** The e-mail address each form sends for a username. *)
Definition auth_email (username : string) : string := local_part username +:+ "@veil.app".
Definition ritual_email (username : string) : string := local_part username +:+ "@veil.local".

(** A call of [auth.signUp] or [auth.login] of the hook. *)
Record Request := { req_email : string; req_password : string }.

(** Where the router is sent. *)
Inductive Navigation := Stay | Push (path : string).

(** The cells of the authentication page. *)
Record AuthForm := {
  loading : bool;
  error : option string;
  loginUsername : string;
  loginPassword : string;
  signupUsername : string;
  signupPassword : string;
  signupConfirmPassword : string;
}.

Definition settle (err : option string) (st : AuthForm) : AuthForm :=
  {| loading := false; error := err;
     loginUsername := loginUsername st; loginPassword := loginPassword st;
     signupUsername := signupUsername st; signupPassword := signupPassword st;
     signupConfirmPassword := signupConfirmPassword st |}.

(** [err.message || fallback]. *)
Definition message_or (fallback : string) (e : Error) : string :=
  if truthy_string (JS.message e) then JS.message e else fallback.

(** [handleSignup]: the state it ends in, the call it makes to
    [auth.signUp] if any, and where it sends the router; [reply] is how
    that call completes. *)
Definition handleSignup (reply : completion unit) (st : AuthForm)
    : AuthForm * option Request * Navigation :=
  match auth_validation (signupUsername st) (signupPassword st)
          (signupConfirmPassword st) with
  | Some msg => (settle (Some msg) st, None, Stay)
  | None =>
      let request := {| req_email := auth_email (signupUsername st);
                        req_password := signupPassword st |} in
      match reply with
      | Normal _ => (settle None st, Some request, Push "/")
      | Throw err =>
          (settle (Some (message_or "Account creation failed. Please try again." err)) st,
           Some request, Stay)
      end
  end.

(** [handleLogin]. *)
Definition handleLogin (reply : completion unit) (st : AuthForm)
    : AuthForm * option Request * Navigation :=
  let request := {| req_email := auth_email (loginUsername st);
                    req_password := loginPassword st |} in
  match reply with
  | Normal _ => (settle None st, Some request, Push "/")
  | Throw err =>
      (settle (Some (message_or "Login failed. Please check your credentials." err)) st,
       Some request, Stay)
  end.

End Account.

(** *** The character ritual *)

Module Ritual.

(** [STEPS]. *)
Definition ACCOUNT : Z := 0.
Definition DRIVE : Z := 1.
Definition FIRST_ACT : Z := 2.
Definition FEAR : Z := 3.
Definition NAME : Z := 4.

Record Wizard := {
  currentStep : Z;
  username : string;
  password : string;
  confirmPassword : string;
  loading : bool;
  error : option string;
  drive : string;
  firstAct : string;
  fear : string;
  characterName : string;
}.

Definition update (step : Z) (busy : bool) (err : option string) (w : Wizard) : Wizard :=
  {| currentStep := step; username := username w; password := password w;
     confirmPassword := confirmPassword w; loading := busy; error := err;
     drive := drive w; firstAct := firstAct w; fear := fear w;
     characterName := characterName w |}.

(** [handleAccountCreation]: the state it ends in and the call to
    [auth.signUp] it makes, if any. *)
Definition handleAccountCreation (reply : completion unit) (w : Wizard)
    : Wizard * option Account.Request :=
  match Account.ritual_validation (username w) (password w) (confirmPassword w) with
  | Some msg => (update (currentStep w) (loading w) (Some msg) w, None)
  | None =>
      let request := {| Account.req_email := Account.ritual_email (username w);
                        Account.req_password := password w |} in
      match reply with
      | Normal _ => (update DRIVE false None w, Some request)
      | Throw err =>
          (update (currentStep w) false
             (Some (Account.message_or
                      "Failed to create account. Username may already exist." err)) w,
           Some request)
      end
  end.

(** [handleComplete]: whatever the insertion answers, the router is sent
    to the puzzles and the step stays. *)
Definition handleComplete (w : Wizard) : Wizard :=
  update (currentStep w) false None w.

(** [canProceed()]: the gate of the button that runs [handleNext]. *)
Definition canProceed (w : Wizard) : bool :=
  if currentStep w =? ACCOUNT then
    truthy_string (username w) && truthy_string (password w) &&
    truthy_string (confirmPassword w) && String.eqb (password w) (confirmPassword w) &&
    (8 <=? String.length (password w))%nat
  else if currentStep w =? DRIVE then truthy_string (drive w)
  else if currentStep w =? FIRST_ACT then truthy_string (firstAct w)
  else if currentStep w =? FEAR then truthy_string (fear w)
  else if currentStep w =? NAME then (0 <? String.length (trim (characterName w)))%nat
  else false.

Definition handleNext (reply : completion unit) (w : Wizard) : Wizard :=
  if currentStep w =? ACCOUNT then fst (handleAccountCreation reply w)
  else if currentStep w =? NAME then handleComplete w
  else update (currentStep w + 1) (loading w) (error w) w.

Definition handleBack (w : Wizard) : Wizard :=
  if currentStep w >? ACCOUNT then update (currentStep w - 1) (loading w) (error w) w
  else w.

(** The two buttons; "next" is disabled unless [canProceed()] holds and
    no request is running. *)
Inductive Click := Next (reply : completion unit) | Back.

Definition click (w : Wizard) (c : Click) : Wizard :=
  match c with
  | Next reply => if canProceed w && negb (loading w) then handleNext reply w else w
  | Back => handleBack w
  end.

End Ritual.

(** *** The countdown of the puzzle hub *)

Module Countdown.

Record Fields := { days : Z; hours : Z; minutes : Z; secs : Z }.

(** The four numbers [formatCountdown] computes; [Math.floor] of a
    quotient is [/] of [Z], and [%] is [Z.rem]. *)
Definition fields (milliseconds : Z) : Fields :=
  let seconds := milliseconds / 1000 in
  {| days := seconds / (24 * 60 * 60);
     hours := Z.rem seconds (24 * 60 * 60) / (60 * 60);
     minutes := Z.rem seconds (60 * 60) / 60;
     secs := Z.rem seconds 60 |}.

Definition formatCountdown (milliseconds : Z) : string :=
  let f := fields milliseconds in
  if days f >? 0 then
    toString (days f) +:+ "D " +:+ toString (hours f) +:+ "H "
    +:+ toString (minutes f) +:+ "M"
  else if hours f >? 0 then
    toString (hours f) +:+ "H " +:+ toString (minutes f) +:+ "M "
    +:+ toString (secs f) +:+ "S"
  else
    toString (minutes f) +:+ "M " +:+ toString (secs f) +:+ "S".

(** [Math.max(0, unlockDate.getTime() - now)], what [PuzzleCountdown]
    and the hub pass to [formatCountdown]. *)
Definition remaining (unlock now : Z) : Z := Z.max 0 (unlock - now).

End Countdown.

Module Cases5.

(** The first step of the ritual, filled in. *)
Definition ritualist : Ritual.Wizard :=
  {| Ritual.currentStep := Ritual.ACCOUNT;
     Ritual.username := "Ada Lovelace";
     Ritual.password := "correct horse";
     Ritual.confirmPassword := "correct horse";
     Ritual.loading := false;
     Ritual.error := None;
     Ritual.drive := "";
     Ritual.firstAct := "";
     Ritual.fear := "";
     Ritual.characterName := "" |}.

(** The authentication page, both tabs filled in. *)
Definition visitor : Account.AuthForm :=
  {| Account.loading := false;
     Account.error := None;
     Account.loginUsername := "Ada Lovelace";
     Account.loginPassword := "correct horse";
     Account.signupUsername := "Ada Lovelace";
     Account.signupPassword := "correct horse";
     Account.signupConfirmPassword := "correct horse" |}.

End Cases5.

Module Cases6.

(** The Control Plane creates the user. *)
Definition created : Reply (FetchResult (option string)) :=
  {| latency := 0;
     answer := Responded {| status := 201; statusText := "Created"; text := "";
                            json := Normal None |} |}.

(** Supabase refuses the sign-in that follows. *)
Definition unconfirmed : Reply SignInResult :=
  {| latency := 0;
     answer := {| signin_error := Some (mkError "AuthApiError" "Email not confirmed");
                  signin_access_token := None |} |}.

(** A session of calls on a fresh instance. *)
Definition session_ops : list Op :=
  [OpBoot Scenario.unreachable;
   OpLogin "alice" "goodpw" (Scenario.signed_in "user-jwt") (Scenario.granted "user-scoped-1" 600);
   OpWait 300000;
   OpLogout (Scenario.granted "scoped-3" 600)].

End Cases6.

(** ** Calls in flight

    The methods above run a call to its end in one step. In the browser
    an [async] method runs up to an [await] and goes on when the awaited
    answer is in; in between, other calls, timer callbacks and
    [cleanup()] can run on the same instance. The definitions below cut
    each asynchronous method of the class at its awaits: those of the
    Supabase client ([setSession], [signOut], [getSession],
    [signInWithPassword], [signUp]) and those of [fetch]. Awaits that
    follow one another with no access to the instance or to the browser
    state between them ([fetch] and the reading of its body) are one
    suspension, and a method of the class that returns to the method
    awaiting it goes on there in the same turn of the event loop. The
    request that [boot] starts and does not await
    ([ensureTenantUsersTableExists]) is only recorded, as above. Run
    with nothing in between, each method cut this way is the method
    above (lemma [uninterrupted_begin]). *)

(** A call in flight. [Done c]: it has completed with [c].
    [Await dt next eff]: it is suspended at an [await] whose answer takes
    [dt] milliseconds; resumed in a state [s] it runs up to its next
    [await] (or to its end), leaves the state [eff s], and is then
    [next s]. *)
Inductive Async (A : Type) : Type :=
| Done (c : completion A)
| Await (dt : N) (next : State -> Async A) (eff : State -> State).
Arguments Done {A} c.
Arguments Await {A} dt next eff.

(** An asynchronous method: from the state it is called in, the state
    it leaves at its first [await] (or at its end) and what remains of
    the call. *)
Definition AM (A : Type) : Type := State -> Async A * State.

(** A synchronous stretch of code. *)
Definition alift {A} (m : M A) : AM A :=
  fun s => (Done (fst (m s)), snd (m s)).

Definition aret {A} (a : A) : AM A := alift (ret a).

Definition athrow {A} (e : Error) : AM A := alift (throw e).

(** [await] of an answer that takes [dt] milliseconds. *)
Definition await (dt : N) : AM unit :=
  fun s => (Await dt (fun _ => Done (Normal tt)) (fun s' => s'), s).

(** The rest of a call in flight, followed by [f]. *)
Fixpoint bind_task {A B} (t : Async A) (f : A -> AM B) : AM B :=
  match t with
  | Done (Normal a) => f a
  | Done (Throw e) => fun s => (Done (Throw e), s)
  | Await dt next eff =>
      fun s =>
        (Await dt (fun s1 => fst (bind_task (next s1) f (eff s1)))
                  (fun s1 => snd (bind_task (next s1) f (eff s1))),
         s)
  end.

Definition abind {A B} (m : AM A) (f : A -> AM B) : AM B :=
  fun s => bind_task (fst (m s)) f (snd (m s)).

(** The rest of a call in flight inside [try { ... } catch (e) { h e }]. *)
Fixpoint catch_task {A} (t : Async A) (h : Error -> AM A) : AM A :=
  match t with
  | Done (Normal a) => fun s => (Done (Normal a), s)
  | Done (Throw e) => h e
  | Await dt next eff =>
      fun s =>
        (Await dt (fun s1 => fst (catch_task (next s1) h (eff s1)))
                  (fun s1 => snd (catch_task (next s1) h (eff s1))),
         s)
  end.

Definition atry {A} (m : AM A) (h : Error -> AM A) : AM A :=
  fun s => catch_task (fst (m s)) h (snd (m s)).

Declare Scope async_scope.
Delimit Scope async_scope with async.
Notation "x <- m ;; k" := (abind m (fun x => k))
  (at level 20, m at level 99, k at level 200) : async_scope.
Notation "m ;; k" := (abind m (fun _ => k))
  (at level 100, k at level 200, right associativity) : async_scope.

(** [await this.supabaseClient.auth.setSession(...)]: the call leaves,
    and the token is the active one when it has resolved. *)
Definition setSession_async (token : string) : AM unit :=
  (alift (record_call (CallSetSession token)) ;;
   await 0 ;;
   alift (modify (with_session (Some token))))%async.

(** What [setToken] does once [setSession] has resolved. *)
Definition store_token (token : string) (expiresIn : option Z) : M unit :=
  match expiresIn with
  | Some secs =>
      now <- Date_now ;;
      let expiryTime := now + secs * 1000 in
      modify (with_tokenExpiry (Some (Num expiryTime))) ;;
      setItem TOKEN_KEY token ;;
      setItem TOKEN_EXPIRY_KEY (toString expiryTime) ;;
      type <- gets currentTokenType ;;
      setItem TOKEN_TYPE_KEY type
  | None =>
      modify (with_tokenExpiry None) ;;
      removeItem TOKEN_KEY ;;
      removeItem TOKEN_EXPIRY_KEY ;;
      removeItem TOKEN_TYPE_KEY
  end.

Definition setToken_async (token : string) (expiresIn : option Z) : AM unit :=
  (setSession_async token ;;
   alift (store_token token expiresIn))%async.

(** What [exchangeForScopedAnonToken] does with the answer to its
    request. *)
Definition scoped_anon_answer (x : Reply (FetchResult TokenResponse)) : M TokenResponse :=
  match answer x with
  | Rejected _ => throw (new_Error "Control Plane unreachable")
  | Responded res =>
      if negb (ok res) then
        throw (new_Error ("CP /api/supabase/boot failed: " +:+ toString (status res)
                          +:+ " " +:+ statusText res +:+ " - " +:+ text res))
      else
        match json res with
        | Normal body => ret body
        | Throw e => throw e
        end
  end.

Definition exchangeForScopedAnonToken_async (x : Reply (FetchResult TokenResponse))
    : AM TokenResponse :=
  (alift (record_call CallBoot) ;;
   await (latency x) ;;
   alift (scoped_anon_answer x))%async.

(** What [exchangeForTenantUserScopedToken] does with the answer to its
    request. *)
Definition tenant_user_answer (x : Reply (FetchResult TokenResponse)) : M TokenResponse :=
  match answer x with
  | Rejected _ => throw (new_Error "Unable to complete authentication. Please try again.")
  | Responded res =>
      if negb (ok res) then
        throw (new_Error ("CP /api/supabase/tenant-users/exchange-token failed: "
                          +:+ toString (status res)
                          +:+ " " +:+ statusText res +:+ " - " +:+ text res))
      else
        match json res with
        | Normal body => ret body
        | Throw e => throw e
        end
  end.

Definition exchangeForTenantUserScopedToken_async (userToken : string)
    (x : Reply (FetchResult TokenResponse)) : AM TokenResponse :=
  (alift (record_call (CallTenantUserExchange userToken)) ;;
   await (latency x) ;;
   alift (tenant_user_answer x))%async.

(** The [catch] branch of [boot] and of the renewal callback. *)
Definition demote_async : AM unit :=
  (cfg <- alift (gets config) ;;
   setToken_async (supabaseAnonKey cfg) None ;;
   alift (modify (with_currentTokenType FALLBACK_ANON) ;; scheduleUpgradeAttempt)%zylo)%async.

Definition boot_async (x : Reply (FetchResult TokenResponse)) : AM unit :=
  (alift ensureTenantUsersTableExists_detached ;;
   stored <- alift loadStoredToken ;;
   restorable <- alift (match stored with
                        | Some st => expired <- isTokenExpired (Some (stored_expiry st)) ;;
                                     ret (negb expired)
                        | None => ret false
                        end)%zylo ;;
   match stored, restorable with
   | Some st, true =>
       setToken_async (stored_token st) None ;;
       alift (modify (with_currentTokenType (stored_type st)) ;;
              modify (with_tokenExpiry (Some (stored_expiry st))) ;;
              scheduleReexchange)%zylo
   | _, _ =>
       atry
         (tokenResponse <- exchangeForScopedAnonToken_async x ;;
          setToken_async (access_token tokenResponse) (Some (expires_in tokenResponse)) ;;
          alift (modify (with_currentTokenType SCOPED_ANON) ;; scheduleReexchange)%zylo)
         (fun _ => demote_async)
   end)%async.

(** [await auth.signInWithPassword(...)]. *)
Definition signInWithPassword_async (email : string) (r : Reply SignInResult)
    : AM SignInResult :=
  (alift (record_call (CallSignInWithPassword email)) ;;
   await (latency r) ;;
   alift (match signin_error (answer r), signin_access_token (answer r) with
          | None, Some tok => modify (with_session (Some tok))
          | _, _ => ret tt
          end ;;
          ret (answer r))%zylo)%async.

Definition login_async (email password : string) (si : Reply SignInResult)
    (x : Reply (FetchResult TokenResponse)) : AM unit :=
  (r <- signInWithPassword_async email si ;;
   match signin_error r with
   | Some error => athrow error
   | None =>
       match signin_access_token r with
       | Some userToken =>
           if negb (truthy_string userToken)
           then athrow (new_Error "No user token returned from Supabase")
           else
             atry
               (tokenResponse <- exchangeForTenantUserScopedToken_async userToken x ;;
                setToken_async (access_token tokenResponse)
                  (Some (expires_in tokenResponse)) ;;
                alift (modify (with_currentTokenType USER_SCOPED) ;; scheduleReexchange)%zylo)
               (fun _ => aret tt)
       | None => athrow (new_Error "No user token returned from Supabase")
       end
   end)%async.

Definition signUp_control_plane_async (email password : string)
    (p : Reply (FetchResult (option string)))
    (si : Reply SignInResult) (x : Reply (FetchResult TokenResponse)) : AM bool :=
  atry
    (alift (record_call (CallSignup email)) ;;
     await (latency p) ;;
     match answer p with
     | Rejected e => athrow e
     | Responded res =>
         if ok res then
           login_async email password si x ;;
           aret true
         else if status res =? 404 then
           aret false
         else
           athrow (new_Error (signup_error_message res))
     end)%async
    (fun networkError =>
       if String.eqb (name networkError) "AbortError" then aret false
       else if includes "Signup failed" (JS.message networkError) then athrow networkError
       else aret false).

(** [await auth.signUp(...)]. *)
Definition auth_signUp_async (email : string) (r : Reply DirectSignUpResult)
    : AM DirectSignUpResult :=
  (alift (record_call (CallDirectSignUp email)) ;;
   await (latency r) ;;
   alift (match signup_error (answer r), signup_session (answer r) with
          | None, Some ds => modify (with_session (Some (ds_access_token ds)))
          | _, _ => ret tt
          end ;;
          ret (answer r))%zylo)%async.

Definition signUp_direct_async (email password : string)
    (d : Reply DirectSignUpResult)
    (si : Reply SignInResult) (x : Reply (FetchResult TokenResponse)) : AM unit :=
  (r <- auth_signUp_async email d ;;
   match signup_error r with
   | Some signUpError => athrow signUpError
   | None =>
       if negb (signup_user r)
       then athrow (new_Error "Signup succeeded but no user data returned")
       else
         match signup_session r with
         | Some sess =>
             setToken_async (ds_access_token sess) (session_lifetime sess) ;;
             alift (modify (with_currentTokenType USER_SCOPED) ;; scheduleReexchange)%zylo
         | None => login_async email password si x
         end
   end)%async.

Definition signUp_async (email password : string)
    (p : Reply (FetchResult (option string))) (d : Reply DirectSignUpResult)
    (si : Reply SignInResult) (x : Reply (FetchResult TokenResponse)) : AM unit :=
  atry
    (returned <- signUp_control_plane_async email password p si x ;;
     if (returned : bool) then aret tt
     else signUp_direct_async email password d si x)%async
    (fun error =>
       let msg := JS.message error in
       if includes "User already registered" msg then
         athrow (new_Error "An account with this username already exists. Please sign in instead.")
       else if includes "Invalid email" msg then
         athrow (new_Error "Invalid username. Please use only letters and numbers.")
       else if includes "Password" msg then
         athrow (new_Error "Password does not meet requirements. Please use a stronger password.")
       else
         athrow (new_Error (if truthy_string msg then msg
                            else "Account creation failed. Please try again."))).

(** [await auth.signOut()]. *)
Definition signOut_async : AM unit :=
  (alift (record_call CallSignOut) ;;
   await 0 ;;
   alift (modify (with_session None)))%async.

Definition logout_async (x : Reply (FetchResult TokenResponse)) : AM unit :=
  (signOut_async ;;
   alift clearReexchangeTimer ;;
   alift clearUpgradeTimer ;;
   boot_async x)%async.

(** [(await auth.getSession()).data.session?.access_token]. *)
Definition getSession_async : AM (option string) :=
  (await 0 ;; alift getSession_access_token)%async.

Definition reexchange_callback_async (x : Reply (FetchResult TokenResponse)) : AM unit :=
  atry
    (type <- alift (gets currentTokenType) ;;
     (if String.eqb type USER_SCOPED then
        userToken <- getSession_async ;;
        match userToken with
        | Some tok =>
            if truthy_string tok then
              tokenResponse <- exchangeForTenantUserScopedToken_async tok x ;;
              setToken_async (access_token tokenResponse) (Some (expires_in tokenResponse))
            else boot_async x
        | None => boot_async x
        end
      else if String.eqb type SCOPED_ANON then
        tokenResponse <- exchangeForScopedAnonToken_async x ;;
        setToken_async (access_token tokenResponse) (Some (expires_in tokenResponse))
      else aret tt) ;;
     alift scheduleReexchange)%async
    (fun _ => demote_async).

Definition upgrade_callback_async (x : Reply (FetchResult TokenResponse)) : AM unit :=
  atry
    (tokenResponse <- exchangeForScopedAnonToken_async x ;;
     setToken_async (access_token tokenResponse) (Some (expires_in tokenResponse)) ;;
     alift (modify (with_currentTokenType SCOPED_ANON) ;; scheduleReexchange)%zylo)%async
    (fun _ => alift scheduleUpgradeAttempt).

(** What an operation starts: a call of the public API, the callback of
    a timeout that fires (which leaves the pending list), or time
    passing. *)
Definition begin (o : Op) : AM unit :=
  match o with
  | OpBoot x => boot_async x
  | OpLogin email password si x => login_async email password si x
  | OpSignUp email password p d si x => signUp_async email password p d si x
  | OpLogout x => logout_async x
  | OpCleanup => alift cleanup
  | OpFire t x =>
      (alift (modify (fired t)) ;;
       match timer_kind t with
       | Reexchange => reexchange_callback_async x
       | Upgrade => upgrade_callback_async x
       end)%async
  | OpWait dt => alift (elapse dt)
  end.

(** A call suspended at an [await]: the instant its answer is in, and
    what it does when it resumes. *)
Record Suspended := {
  ready_at : Z;
  resume_next : State -> Async unit;
  resume_eff : State -> State;
}.

(** The instance together with its calls in flight. *)
Record World := {
  world_state : State;
  in_flight : list Suspended;
}.

(** A call has run up to an [await] or to its end. *)
Definition settle (t : Async unit) (s : State) (pool : list Suspended) : World :=
  match t with
  | Done _ => {| world_state := s; in_flight := pool |}
  | Await dt next eff =>
      {| world_state := s;
         in_flight := pool ++ [{| ready_at := clock s + Z.of_N dt;
                                  resume_next := next; resume_eff := eff |}] |}
  end.

(** What happens in the browser: an operation begins, or the call in
    flight at position [i] resumes. *)
Inductive Event :=
| Begin (o : Op)
| Resume (i : nat).

Definition happen (ev : Event) (w : World) : World :=
  match ev with
  | Begin o =>
      settle (fst (begin o (world_state w))) (snd (begin o (world_state w))) (in_flight w)
  | Resume i =>
      match in_flight w !! i with
      | Some p =>
          settle (resume_next p (world_state w)) (resume_eff p (world_state w))
            (delete i (in_flight w))
      | None => w
      end
  end.

(** A timeout fires only while it is pending and once it is due; a call
    resumes only once its answer is in. *)
Definition can_happen (ev : Event) (w : World) : Prop :=
  match ev with
  | Begin o => enabled o (world_state w)
  | Resume i => exists p, in_flight w !! i = Some p /\ ready_at p <= clock (world_state w)
  end.

Inductive reachable_world : World -> Prop :=
| reachable_world_construct cfg now store :
    reachable_world {| world_state := construct cfg now store; in_flight := [] |}
| reachable_world_step w ev :
    reachable_world w -> can_happen ev w -> reachable_world (happen ev w).

(** A call run to its end with nothing else in between: at each [await]
    the time the answer takes passes, and the call resumes. *)
Fixpoint complete {A} (t : Async A) : M A :=
  match t with
  | Done c => fun s => (c, s)
  | Await dt next eff =>
      fun s =>
        let s1 := with_clock (clock s + Z.of_N dt) s in
        complete (next s1) (eff s1)
  end.

Definition uninterrupted {A} (m : AM A) : M A :=
  fun s => complete (fst (m s)) (snd (m s)).

(** Every segment of a call in flight keeps a property of the state. *)
Fixpoint keeps {A} (P : State -> Prop) (t : Async A) : Prop :=
  match t with
  | Done _ => True
  | Await _ next eff => forall s, P s -> P (eff s) /\ keeps P (next s)
  end.

Definition keeps_method {A} (P : State -> Prop) (m : AM A) : Prop :=
  forall s, P s -> P (snd (m s)) /\ keeps P (fst (m s)).

(** A synchronous stretch of code that never throws. *)
Definition always_returns {A} (m : M A) : Prop :=
  forall s, exists a, fst (m s) = Normal a.

(** However the call goes on, and whatever state it resumes in, it
    does not end in an exception. *)
Fixpoint never_throws {A} (t : Async A) : Prop :=
  match t with
  | Done (Normal _) => True
  | Done (Throw _) => False
  | Await _ next _ => forall s, never_throws (next s)
  end.

(** The state a suspended call leaves when it resumes in [s] and runs up
    to its next [await], or to its end. *)
Definition resumed_state {A} (t : Async A) (s : State) : State :=
  match t with
  | Done _ => s
  | Await _ _ eff => eff s
  end.

(** The answer the call at position [i] waits for is in. *)
Definition ready (i : nat) (w : World) : bool :=
  match in_flight w !! i with
  | Some p => ready_at p <=? clock (world_state w)
  | None => false
  end.

(** A property of the state that holds now and that every call in
    flight keeps, whenever it resumes. *)
Definition world_keeps (P : State -> Prop) (w : World) : Prop :=
  P (world_state w) /\
  Forall (fun p => forall s, P s -> P (resume_eff p s) /\ keeps P (resume_next p s))
    (in_flight w).

(** The instance in state [s] with no call in flight. *)
Definition at_rest (s : State) : World := {| world_state := s; in_flight := [] |}.

(** ** Scenarios with calls in flight *)

Module Overlap.

(** Five minutes after a degraded boot the upgrade timeout fires and its
    callback asks the gateway; [cleanup()] runs before the answer (a 503)
    is in. *)
Definition upgrade_asking : World :=
  happen (Begin (OpFire Scenario.upgrade_timer Scenario.unavailable))
    (at_rest Cases.degraded_due).
Definition cleaned_up : World := happen (Begin OpCleanup) upgrade_asking.
Definition cleanup_overtaken : World := happen (Resume 0) cleaned_up.

(** The timeout the callback arms after [cleanup()]. *)
Definition retry_timer : Timer :=
  {| timer_id := 2; timer_kind := Upgrade; timer_due := 601000 |}.

(** Two minutes before the token of a boot expires the renewal timeout
    fires and its callback asks the gateway; [logout()] runs to its end
    before the answer (a 503) is in, then the callback goes on. *)
Definition renewal_asking : World :=
  happen (Begin (OpFire Cases.renewal_timer Scenario.unavailable))
    (at_rest Cases.renewal_due).
Definition logout_begun : World :=
  happen (Begin (OpLogout (Scenario.granted "scoped-2" 600))) renewal_asking.
Definition logout_restoring : World := happen (Resume 1) logout_begun.
Definition logout_returned : World := happen (Resume 1) logout_restoring.
Definition renewal_refused : World := happen (Resume 0) logout_returned.
Definition logout_overtaken : World := happen (Resume 0) renewal_refused.

(** The two timeouts pending in the end. *)
Definition restored_renewal : Timer :=
  {| timer_id := 2; timer_kind := Reexchange; timer_due := 481000 |}.
Definition upgrade_retry : Timer :=
  {| timer_id := 3; timer_kind := Upgrade; timer_due := 781000 |}.

End Overlap.
(** * Properties *)

(** Symbolic execution of a method: unfold the monad, the primitives and
    the record updates, and leave storage lookups and arithmetic alone. *)
Ltac run :=
  cbv beta iota zeta delta
    [exec outcome bind ret throw try_catch gets modify Date_now elapse record_call
     getItem setItem removeItem setTimeout clearTimeout
     signInWithPassword auth_signUp signOut setSession getSession_access_token
     clearReexchangeTimer clearUpgradeTimer exchangeForScopedAnonToken
     exchangeForTenantUserScopedToken ensureTenantUsersTableExists_detached
     setToken loadStoredToken isTokenExpired scheduleReexchange scheduleUpgradeAttempt
     boot login logout cleanup restorable peek_stored isAuthenticated
     with_currentTokenType with_tokenExpiry with_reexchangeTimer with_upgradeTimer
     with_clock with_localStorage with_session with_timers with_calls
     config currentTokenType tokenExpiry reexchangeTimer upgradeTimer clock
     localStorage session timers next_timer calls fst snd stored_triple new_timer
     stored_token stored_expiry stored_type returns exchange_failed primary_auth_ok
     truthy_number truthy negb orb andb latency answer access_token expires_in
     signin_error signin_access_token signup_error signup_user signup_session
     ds_access_token ds_expires_in supabaseAnonKey name message new_Error].


(** Case analysis on whatever a [match] of the goal is stuck on,
    innermost scrutinee first. *)
Ltac crack :=
  repeat first
    [ match goal with
      | |- ?a = _ -> _ =>
          lazymatch a with
          | context [match _ with _ => _ end] => fail
          | _ => intros ?; simplify_eq; run
          end
      end
    | match goal with
      | |- context [match ?x with _ => _ end] =>
          lazymatch x with
          | context [match _ with _ => _ end] => fail
          | _ => destruct x; run
          end
      end ].

Lemma keys_distinct :
  TOKEN_KEY <> TOKEN_EXPIRY_KEY /\ TOKEN_KEY <> TOKEN_TYPE_KEY /\
  TOKEN_EXPIRY_KEY <> TOKEN_TYPE_KEY.
Proof. repeat split; discriminate. Qed.

Lemma loadStoredToken_pure s : loadStoredToken s = (Normal (peek_stored s), s).
Proof. destruct s. run. crack; reflexivity. Qed.

Lemma boot_restore x s st :
  restorable s = Some st ->
  boot x s =
  (setToken (stored_token st) None ;;
   modify (with_currentTokenType (stored_type st)) ;;
   modify (with_tokenExpiry (Some (stored_expiry st))) ;;
   scheduleReexchange) (with_calls (calls s ++ [CallEnsureTable]) s).
Proof.
  destruct s. run. crack; intros; simplify_eq; reflexivity.
Qed.

Lemma boot_exchange x s :
  restorable s = None ->
  boot x s =
  try_catch
    (tokenResponse <- exchangeForScopedAnonToken x ;;
     setToken (access_token tokenResponse) (Some (expires_in tokenResponse)) ;;
     modify (with_currentTokenType SCOPED_ANON) ;;
     scheduleReexchange)
    (fun _ =>
       cfg <- gets config ;;
       setToken (supabaseAnonKey cfg) None ;;
       modify (with_currentTokenType FALLBACK_ANON) ;;
       scheduleUpgradeAttempt)
    (with_calls (calls s ++ [CallEnsureTable]) s).
Proof.
  destruct s. run. crack; intros; simplify_eq; reflexivity.
Qed.

Lemma boot_returns x s : outcome (boot x) s = Normal tt.
Proof.
  unfold outcome.
  destruct (restorable s) as [st|] eqn:R.
  - rewrite (boot_restore _ _ _ R). clear R. destruct s, st. run. crack; reflexivity.
  - rewrite (boot_exchange _ _ R). clear R. destruct s. run. crack; reflexivity.
Qed.

(** Storage after [setToken(token, null)]: the three slots are gone. *)
Lemma cleared_triple (m : gmap string string) :
  let m' := delete TOKEN_TYPE_KEY (delete TOKEN_EXPIRY_KEY (delete TOKEN_KEY m)) in
  m' !! TOKEN_KEY = None /\ m' !! TOKEN_EXPIRY_KEY = None /\ m' !! TOKEN_TYPE_KEY = None.
Proof.
  destruct keys_distinct as (H1 & H2 & H3). cbv zeta.
  rewrite !lookup_delete_eq.
  rewrite (lookup_delete_ne _ TOKEN_TYPE_KEY TOKEN_KEY) by congruence.
  rewrite (lookup_delete_ne _ TOKEN_EXPIRY_KEY TOKEN_KEY) by congruence.
  rewrite (lookup_delete_ne _ TOKEN_TYPE_KEY TOKEN_EXPIRY_KEY) by congruence.
  rewrite !lookup_delete_eq. auto.
Qed.

Lemma cleared_triple_eq (m : gmap string string) :
  let m' := delete TOKEN_TYPE_KEY (delete TOKEN_EXPIRY_KEY (delete TOKEN_KEY m)) in
  (m' !! TOKEN_KEY, m' !! TOKEN_EXPIRY_KEY, m' !! TOKEN_TYPE_KEY) = (None, None, None).
Proof. cbv zeta. destruct (cleared_triple m) as (-> & -> & ->). reflexivity. Qed.

Lemma no_triple_not_restorable s :
  stored_triple s = (None, None, None) -> peek_stored s = None /\ restorable s = None.
Proof.
  unfold stored_triple, restorable. intros E. injection E as E1 E2 E3.
  assert (peek_stored s = None) as P.
  { destruct s; simpl in *. run. rewrite E1. reflexivity. }
  rewrite P. auto.
Qed.

(** The requests [boot] issues on each of its two paths. *)
Lemma boot_restore_calls x s st :
  restorable s = Some st ->
  calls (exec (boot x) s)
  = (calls s ++ [CallEnsureTable; CallSetSession (stored_token st)])%list.
Proof.
  intros R. unfold exec. rewrite (boot_restore _ _ _ R). clear R.
  destruct s, st. run. crack; simpl; rewrite <- app_assoc; reflexivity.
Qed.

Lemma boot_exchange_calls x s :
  restorable s = None ->
  exists tok,
    calls (exec (boot x) s)
    = (calls s ++ [CallEnsureTable; CallBoot; CallSetSession tok])%list.
Proof.
  intros R. unfold exec. rewrite (boot_exchange _ _ R). clear R.
  destruct s. run. crack; simpl; eexists; rewrite <- !app_assoc; reflexivity.
Qed.

Lemma exchanges_since_app s s' l :
  calls s' = (calls s ++ l)%list -> exchanges_since s s' = List.filter is_exchange l.
Proof.
  intros E. unfold exchanges_since. rewrite E, drop_app_length. reflexivity.
Qed.

(** ** The two timers *)

Lemma TimerKind_eqb_eq a b : TimerKind_eqb a b = true <-> a = b.
Proof. destruct a, b; simpl; split; congruence. Qed.

Lemma in_cleared id (t : Timer) (l : list Timer) :
  In t (filter (fun u => timer_id u <> id) l) <-> In t l /\ timer_id t <> id.
Proof. rewrite <- !list_elem_of_In, list_elem_of_filter. tauto. Qed.

Lemma filter_none (f : Timer -> bool) (l : list Timer) :
  (forall t, In t l -> f t = false) -> List.filter f l = [].
Proof.
  induction l as [|a l IH]; simpl; intros H; [reflexivity|].
  rewrite (H a) by auto. apply IH. intros t Ht. apply H. auto.
Qed.

Lemma length_filter_cleared (f : Timer -> bool) id (l : list Timer) :
  (length (List.filter f (filter (fun u => timer_id u <> id) l))
   <= length (List.filter f l))%nat.
Proof.
  induction l as [|a l IH]; simpl; [lia|].
  rewrite filter_cons. destruct (decide (timer_id a <> id)); simpl;
    destruct (f a); simpl; lia.
Qed.

(** What the four timer methods do, as equations. *)
Lemma clearReexchangeTimer_eq s :
  clearReexchangeTimer s = (Normal tt, cancelled Reexchange s).
Proof. destruct s as [? ? ? [h|] ? ? ? ? ? ? ?]; reflexivity. Qed.

Lemma clearUpgradeTimer_eq s :
  clearUpgradeTimer s = (Normal tt, cancelled Upgrade s).
Proof. destruct s as [? ? ? ? [h|] ? ? ? ? ? ?]; reflexivity. Qed.

Lemma scheduleUpgradeAttempt_eq s :
  scheduleUpgradeAttempt s
  = (Normal tt, rearmed Upgrade (5 * 60 * 1000) (cancelled Upgrade s)).
Proof. destruct s as [? ? ? ? [h|] ? ? ? ? ? ?]; reflexivity. Qed.

Lemma scheduleReexchange_eq s :
  scheduleReexchange s
  = (Normal tt,
     match renewal_delay s with
     | Some delay => rearmed Reexchange delay (cancelled Reexchange s)
     | None => cancelled Reexchange s
     end).
Proof.
  destruct s as [? ? [[e|]|] [h|] ? ? ? ? ? ? ?]; unfold renewal_delay; simpl;
    try reflexivity; unfold scheduleReexchange, bind; simpl;
    destruct (e =? 0); reflexivity.
Qed.

Lemma handle_with_handle k k' h s :
  handle k (with_handle k' h s) = if TimerKind_eqb k k' then h else handle k s.
Proof. destruct k, k'; reflexivity. Qed.

Lemma timers_ok_cancelled k s :
  timers_ok s -> timers_ok (cancelled k s) /\ armed k (cancelled k s) = [].
Proof.
  intros [Hlen Hh]. unfold cancelled. destruct (handle k s) as [h|] eqn:E.
  - assert (timers (with_handle k None
              (with_timers (filter (fun t => timer_id t <> h) (timers s)) (next_timer s) s))
            = filter (fun t => timer_id t <> h) (timers s)) as T by (destruct k; reflexivity).
    split; [split|].
    + intros k'. unfold armed. rewrite T.
      etransitivity; [apply length_filter_cleared|apply Hlen].
    + intros t. rewrite T, in_cleared. intros [Ht Hne].
      rewrite handle_with_handle.
      destruct (TimerKind_eqb (timer_kind t) k) eqn:K.
      * apply TimerKind_eqb_eq in K. specialize (Hh t Ht). congruence.
      * rewrite <- (Hh t Ht). destruct k, (timer_kind t); simpl in *; congruence.
    + unfold armed. rewrite T. apply filter_none. intros t. rewrite in_cleared.
      intros [Ht Hne]. destruct (TimerKind_eqb (timer_kind t) k) eqn:K; [|reflexivity].
      apply TimerKind_eqb_eq in K. specialize (Hh t Ht). congruence.
  - split; [split; assumption|].
    apply filter_none. intros t Ht.
    destruct (TimerKind_eqb (timer_kind t) k) eqn:K; [|reflexivity].
    apply TimerKind_eqb_eq in K. specialize (Hh t Ht). congruence.
Qed.

Lemma timers_ok_rearmed k delay s :
  timers_ok s -> armed k s = [] ->
  timers_ok (rearmed k delay s) /\
  armed k (rearmed k delay s) = [new_timer k s (clock s + delay)].
Proof.
  intros [Hlen Hh] Hnone. unfold rearmed.
  assert (timers (with_handle k (Some (next_timer s))
            (with_timers (timers s ++ [new_timer k s (clock s + delay)])
               (Pos.succ (next_timer s)) s))
          = (timers s ++ [new_timer k s (clock s + delay)])%list) as T
    by (destruct k; reflexivity).
  assert (forall k', armed k' (with_handle k (Some (next_timer s))
            (with_timers (timers s ++ [new_timer k s (clock s + delay)])
               (Pos.succ (next_timer s)) s))
          = (armed k' s ++ if TimerKind_eqb k k' then [new_timer k s (clock s + delay)] else [])%list) as A.
  { intros k'. unfold armed. rewrite T, List.filter_app. simpl. reflexivity. }
  split; [split|].
  - intros k'. rewrite A. destruct (TimerKind_eqb k k') eqn:K.
    + apply TimerKind_eqb_eq in K. subst k'. rewrite Hnone. simpl. lia.
    + rewrite app_nil_r. apply Hlen.
  - intros t. rewrite T, in_app_iff. rewrite handle_with_handle. intros [Ht|[<-|[]]].
    + destruct (TimerKind_eqb (timer_kind t) k) eqn:K; [|apply Hh, Ht].
      apply TimerKind_eqb_eq in K. exfalso.
      assert (In t (armed k s)) as I.
      { unfold armed. apply filter_In. split; [exact Ht|]. apply TimerKind_eqb_eq, K. }
      rewrite Hnone in I. exact I.
    + simpl. destruct k; reflexivity.
  - rewrite A, Hnone. destruct k; reflexivity.
Qed.

(** ** Preservation along the methods *)

Section Preservation.

Variable P : State -> Prop.

Lemma preserves_ret {A} (a : A) : preserves P (ret a).
Proof. intros s H. exact H. Qed.

Lemma preserves_throw {A} e : preserves P (@throw A e).
Proof. intros s H. exact H. Qed.

Lemma preserves_gets {A} (f : State -> A) : preserves P (gets f).
Proof. intros s H. exact H. Qed.

Lemma preserves_modify f : (forall s, P s -> P (f s)) -> preserves P (modify f).
Proof. intros Hf s H. apply Hf, H. Qed.

Lemma preserves_bind {A B} (m : M A) (k : A -> M B) :
  preserves P m -> (forall a, preserves P (k a)) -> preserves P (bind m k).
Proof.
  intros Hm Hk s H. specialize (Hm s H). unfold exec, bind in *.
  destruct (m s) as [[a|e] s1]; simpl in *; [apply Hk|]; assumption.
Qed.

Lemma preserves_try_catch {A} (m : M A) (h : Error -> M A) :
  preserves P m -> (forall e, preserves P (h e)) -> preserves P (try_catch m h).
Proof.
  intros Hm Hh s H. specialize (Hm s H). unfold exec, try_catch in *.
  destruct (m s) as [[a|e] s1]; simpl in *; [|apply Hh]; assumption.
Qed.

End Preservation.

Lemma timers_ok_frame s s' :
  timers s' = timers s -> reexchangeTimer s' = reexchangeTimer s ->
  upgradeTimer s' = upgradeTimer s -> timers_ok s -> timers_ok s'.
Proof.
  intros T R U [Hlen Hh]. split.
  - intros k. unfold armed. rewrite T. apply Hlen.
  - intros t. rewrite T. intros Ht. rewrite <- (Hh t Ht).
    destruct (timer_kind t); simpl; assumption.
Qed.

Lemma clearReexchangeTimer_ok : preserves timers_ok clearReexchangeTimer.
Proof.
  intros s H. unfold exec. rewrite clearReexchangeTimer_eq.
  exact (proj1 (timers_ok_cancelled _ _ H)).
Qed.

Lemma clearUpgradeTimer_ok : preserves timers_ok clearUpgradeTimer.
Proof.
  intros s H. unfold exec. rewrite clearUpgradeTimer_eq.
  exact (proj1 (timers_ok_cancelled _ _ H)).
Qed.

Lemma scheduleReexchange_ok : preserves timers_ok scheduleReexchange.
Proof.
  intros s H. unfold exec. rewrite scheduleReexchange_eq. cbn [snd].
  destruct (timers_ok_cancelled Reexchange s H) as [H1 H2].
  destruct (renewal_delay s); [|exact H1].
  exact (proj1 (timers_ok_rearmed _ _ _ H1 H2)).
Qed.

Lemma scheduleUpgradeAttempt_ok : preserves timers_ok scheduleUpgradeAttempt.
Proof.
  intros s H. unfold exec. rewrite scheduleUpgradeAttempt_eq. cbn [snd].
  destruct (timers_ok_cancelled Upgrade s H) as [H1 H2].
  exact (proj1 (timers_ok_rearmed _ _ _ H1 H2)).
Qed.

Lemma timers_ok_fired id s :
  timers_ok s ->
  timers_ok (with_timers (filter (fun u => timer_id u <> id) (timers s)) (next_timer s) s).
Proof.
  intros [Hlen Hh]. split.
  - intros k. unfold armed. simpl.
    etransitivity; [apply length_filter_cleared|apply Hlen].
  - intros t. simpl. rewrite in_cleared. intros [Ht _].
    rewrite <- (Hh t Ht). destruct (timer_kind t); reflexivity.
Qed.

Create HintDb zylo_timers.
#[local] Hint Resolve clearReexchangeTimer_ok clearUpgradeTimer_ok
  scheduleReexchange_ok scheduleUpgradeAttempt_ok : zylo_timers.

(** Preservation of [timers_ok] by a method body: follow its structure;
    a state update that touches neither the pending timeouts nor the two
    handles is a frame step. *)
Ltac frame_step :=
  let s := fresh "s" in
  let H := fresh "H" in
  apply preserves_modify; intros s H; apply (timers_ok_frame s);
    [reflexivity | reflexivity | reflexivity | exact H].

Ltac timers_step :=
  first
    [ solve [auto with zylo_timers]
    | apply preserves_ret
    | apply preserves_throw
    | apply preserves_gets
    | frame_step
    | apply preserves_bind; [|intros ?]
    | apply preserves_try_catch; [|intros ?]
    | match goal with
      | |- preserves _ (match ?x with _ => _ end) => destruct x
      | |- preserves _ (let (_, _) := ?x in _) => destruct x
      end ].

Ltac timers_auto := repeat timers_step.

Lemma setToken_ok tok e : preserves timers_ok (setToken tok e).
Proof.
  unfold setToken, setSession, record_call, setItem, removeItem, Date_now.
  timers_auto.
Qed.
#[local] Hint Resolve setToken_ok : zylo_timers.

Lemma exchangeForScopedAnonToken_ok x : preserves timers_ok (exchangeForScopedAnonToken x).
Proof. unfold exchangeForScopedAnonToken, record_call, elapse. timers_auto. Qed.

Lemma exchangeForTenantUserScopedToken_ok tok x :
  preserves timers_ok (exchangeForTenantUserScopedToken tok x).
Proof. unfold exchangeForTenantUserScopedToken, record_call, elapse. timers_auto. Qed.
#[local] Hint Resolve exchangeForScopedAnonToken_ok exchangeForTenantUserScopedToken_ok
  : zylo_timers.

Lemma boot_ok x : preserves timers_ok (boot x).
Proof.
  unfold boot, ensureTenantUsersTableExists_detached, record_call, loadStoredToken,
    getItem, isTokenExpired, Date_now.
  timers_auto.
Qed.
#[local] Hint Resolve boot_ok : zylo_timers.

Lemma login_ok email password si x : preserves timers_ok (login email password si x).
Proof.
  unfold login, signInWithPassword, record_call, elapse. timers_auto.
Qed.
#[local] Hint Resolve login_ok : zylo_timers.

Lemma signUp_ok email password p d si x :
  preserves timers_ok (signUp email password p d si x).
Proof.
  unfold signUp, signUp_control_plane, signUp_direct, auth_signUp, record_call, elapse.
  timers_auto.
Qed.

Lemma logout_ok x : preserves timers_ok (logout x).
Proof. unfold logout, signOut, record_call. timers_auto. Qed.

Lemma cleanup_ok : preserves timers_ok cleanup.
Proof. unfold cleanup. timers_auto. Qed.

Lemma reexchange_callback_ok x : preserves timers_ok (reexchange_callback x).
Proof. unfold reexchange_callback, getSession_access_token. timers_auto. Qed.

Lemma upgrade_callback_ok x : preserves timers_ok (upgrade_callback x).
Proof. unfold upgrade_callback. timers_auto. Qed.

Lemma fire_ok t x : preserves timers_ok (fire t x).
Proof.
  unfold fire. apply preserves_bind.
  - apply preserves_modify. intros s. apply timers_ok_fired.
  - intros _. destruct (timer_kind t);
      [apply reexchange_callback_ok | apply upgrade_callback_ok].
Qed.

Lemma run_op_ok o : preserves timers_ok (run_op o).
Proof.
  destruct o; simpl.
  - apply boot_ok.
  - apply login_ok.
  - apply signUp_ok.
  - apply logout_ok.
  - apply cleanup_ok.
  - apply fire_ok.
  - unfold elapse. frame_step.
Qed.

Lemma construct_ok cfg now store : timers_ok (construct cfg now store).
Proof. split; [intros k; simpl; lia | intros t []]. Qed.

Lemma reachable_timers_ok s : reachable s -> timers_ok s.
Proof.
  induction 1 as [cfg now store | s o _ IH _].
  - apply construct_ok.
  - apply run_op_ok, IH.
Qed.

(** ** At most one timeout of each purpose *)

Lemma cancelled_frame k s :
  next_timer (cancelled k s) = next_timer s /\ clock (cancelled k s) = clock s /\
  tokenExpiry (cancelled k s) = tokenExpiry s.
Proof. unfold cancelled. destruct (handle k s), k; repeat split. Qed.

Lemma new_timer_cancelled k k' s due : new_timer k (cancelled k' s) due = new_timer k s due.
Proof. unfold new_timer. destruct (cancelled_frame k' s) as (-> & _). reflexivity. Qed.

(** After [scheduleReexchange] the pending renewal timeouts are exactly
    the new one, or none when the expiry is falsy. *)
Lemma scheduleReexchange_armed s :
  timers_ok s ->
  armed Reexchange (exec scheduleReexchange s)
  = match renewal_delay s with
    | Some delay => [new_timer Reexchange s (clock s + delay)]
    | None => []
    end.
Proof.
  intros H. unfold exec. rewrite scheduleReexchange_eq. cbn [snd].
  destruct (timers_ok_cancelled Reexchange s H) as [H1 H2].
  destruct (renewal_delay s) as [delay|]; [|exact H2].
  rewrite (proj2 (timers_ok_rearmed _ delay _ H1 H2)).
  destruct (cancelled_frame Reexchange s) as (_ & -> & _).
  rewrite new_timer_cancelled. reflexivity.
Qed.

Lemma scheduleUpgradeAttempt_armed s :
  timers_ok s ->
  armed Upgrade (exec scheduleUpgradeAttempt s)
  = [new_timer Upgrade s (clock s + 5 * 60 * 1000)].
Proof.
  intros H. unfold exec. rewrite scheduleUpgradeAttempt_eq. cbn [snd].
  destruct (timers_ok_cancelled Upgrade s H) as [H1 H2].
  rewrite (proj2 (timers_ok_rearmed _ _ _ H1 H2)).
  destruct (cancelled_frame Upgrade s) as (_ & -> & _).
  rewrite new_timer_cancelled. reflexivity.
Qed.

(** C8. In every state a run of the manager reaches, at most one renewal
    timeout and at most one upgrade timeout are pending; and arming a
    timeout of either purpose cancels the pending one of that purpose:
    after [scheduleReexchange] (resp. [scheduleUpgradeAttempt]) the new
    timeout is the only pending one of its purpose. *)
Theorem at_most_one_timer_of_each_kind s :
  reachable s ->
  ((length (armed Reexchange s) <= 1)%nat /\ (length (armed Upgrade s) <= 1)%nat) /\
  armed Reexchange (exec scheduleReexchange s)
    = match renewal_delay s with
      | Some delay => [new_timer Reexchange s (clock s + delay)]
      | None => []
      end /\
  armed Upgrade (exec scheduleUpgradeAttempt s)
    = [new_timer Upgrade s (clock s + 5 * 60 * 1000)].
Proof.
  intros R. pose proof (reachable_timers_ok s R) as H.
  split; [split; apply H|].
  split; [apply scheduleReexchange_armed | apply scheduleUpgradeAttempt_armed]; exact H.
Qed.

Lemma at_most_one_timer_of_each_kind_witness :
  reachable Scenario.logged_in /\
  ((length (armed Reexchange Scenario.logged_in) <= 1)%nat /\
   (length (armed Upgrade Scenario.logged_in) <= 1)%nat) /\
  armed Reexchange (exec scheduleReexchange Scenario.logged_in)
    = match renewal_delay Scenario.logged_in with
      | Some delay => [new_timer Reexchange Scenario.logged_in
                         (clock Scenario.logged_in + delay)]
      | None => []
      end /\
  armed Upgrade (exec scheduleUpgradeAttempt Scenario.logged_in)
    = [new_timer Upgrade Scenario.logged_in (clock Scenario.logged_in + 5 * 60 * 1000)].
Proof.
  assert (reachable Scenario.logged_in) as R.
  { unfold Scenario.logged_in, Scenario.degraded, Scenario.fresh.
    repeat (apply reachable_step; [|exact I]). apply reachable_construct. }
  split; [exact R|].
  exact (at_most_one_timer_of_each_kind Scenario.logged_in R).
Defined.

(** ** Renewal timing *)

Lemma bind_normal {A B} (m : M A) (k : A -> M B) s a s1 :
  m s = (Normal a, s1) -> bind m k s = k a s1.
Proof. intros E. unfold bind. rewrite E. reflexivity. Qed.

Lemma stored_triple_written (m : gmap string string) tok e ty :
  let m' := <[TOKEN_TYPE_KEY := ty]> (<[TOKEN_EXPIRY_KEY := e]> (<[TOKEN_KEY := tok]> m)) in
  (m' !! TOKEN_KEY, m' !! TOKEN_EXPIRY_KEY, m' !! TOKEN_TYPE_KEY)
  = (Some tok, Some e, Some ty).
Proof.
  destruct keys_distinct as (H1 & H2 & H3). cbv zeta.
  rewrite lookup_insert_eq.
  rewrite (lookup_insert_ne _ TOKEN_TYPE_KEY TOKEN_EXPIRY_KEY) by congruence.
  rewrite (lookup_insert_ne _ TOKEN_TYPE_KEY TOKEN_KEY) by congruence.
  rewrite lookup_insert_eq.
  rewrite (lookup_insert_ne _ TOKEN_EXPIRY_KEY TOKEN_KEY) by congruence.
  rewrite lookup_insert_eq. reflexivity.
Qed.

(** [setToken(token, expiresIn)] with a number: what it leaves behind.
    The tier tag written to storage is the tier held when it runs. *)
Lemma setToken_expiring tok secs s :
  exists s1,
    setToken tok (Some secs) s = (Normal tt, s1) /\
    tokenExpiry s1 = Some (Num (clock s + secs * 1000)) /\
    stored_triple s1
      = (Some tok, Some (toString (clock s + secs * 1000)), Some (currentTokenType s)) /\
    session s1 = Some tok /\
    currentTokenType s1 = currentTokenType s /\
    clock s1 = clock s /\ next_timer s1 = next_timer s /\
    (timers_ok s -> timers_ok s1).
Proof.
  destruct s. eexists. split; [run; reflexivity|]. run.
  repeat match goal with |- _ /\ _ => split end; try reflexivity.
  - apply stored_triple_written.
  - apply timers_ok_frame; reflexivity.
Qed.

Lemma renewal_delay_due s e :
  tokenExpiry s = Some (Num e) -> e <> 0 ->
  exists delay, renewal_delay s = Some delay /\
                clock s + delay = Z.max (clock s) (e - 120 * 1000).
Proof.
  intros E Hne. unfold renewal_delay. rewrite E.
  destruct (Z.eqb_spec e 0) as [|_]; [contradiction|].
  eexists. split; [reflexivity|]. lia.
Qed.

Lemma scheduleReexchange_frame s :
  let s' := exec scheduleReexchange s in
  currentTokenType s' = currentTokenType s /\ tokenExpiry s' = tokenExpiry s /\
  localStorage s' = localStorage s /\ session s' = session s /\
  clock s' = clock s /\ calls s' = calls s /\ config s' = config s.
Proof.
  unfold exec. rewrite scheduleReexchange_eq. cbn [snd].
  destruct (renewal_delay s); unfold rearmed, cancelled;
    destruct (handle Reexchange s); simpl; repeat split.
Qed.

Lemma scheduleUpgradeAttempt_frame s :
  let s' := exec scheduleUpgradeAttempt s in
  currentTokenType s' = currentTokenType s /\ tokenExpiry s' = tokenExpiry s /\
  localStorage s' = localStorage s /\ session s' = session s /\
  clock s' = clock s /\ calls s' = calls s /\ config s' = config s.
Proof.
  unfold exec. rewrite scheduleUpgradeAttempt_eq. cbn [snd].
  unfold rearmed, cancelled; destruct (handle Upgrade s); simpl; repeat split.
Qed.

Lemma token_then_schedule_eq tok secs ty s :
  exists s1,
    setToken tok (Some secs) s = (Normal tt, s1) /\
    token_then_schedule tok secs ty s = scheduleReexchange (with_currentTokenType ty s1).
Proof.
  destruct (setToken_expiring tok secs s) as (s1 & E1 & _).
  exists s1. split; [exact E1|].
  unfold token_then_schedule. rewrite (bind_normal _ _ _ _ _ E1). reflexivity.
Qed.

Lemma token_then_schedule_state tok secs ty s :
  let s' := exec (token_then_schedule tok secs ty) s in
  outcome (token_then_schedule tok secs ty) s = Normal tt /\
  currentTokenType s' = ty /\
  tokenExpiry s' = Some (Num (clock s + secs * 1000)) /\
  stored_triple s'
    = (Some tok, Some (toString (clock s + secs * 1000)), Some (currentTokenType s)) /\
  session s' = Some tok /\
  clock s' = clock s.
Proof.
  intros s'.
  destruct (token_then_schedule_eq tok secs ty s) as (s1 & E1 & E).
  destruct (setToken_expiring tok secs s) as (s1' & E1' & X1 & T1 & S1 & _ & C1 & _).
  assert (s1' = s1) as -> by congruence.
  subst s'. unfold exec, outcome. rewrite E.
  destruct (scheduleReexchange_frame (with_currentTokenType ty s1))
    as (F1 & F2 & F3 & F4 & F5 & _).
  unfold exec in F1, F2, F3, F4, F5.
  repeat match goal with |- _ /\ _ => split end.
  - rewrite scheduleReexchange_eq. reflexivity.
  - rewrite F1. reflexivity.
  - rewrite F2. exact X1.
  - unfold stored_triple. rewrite F3. exact T1.
  - rewrite F4. exact S1.
  - rewrite F5. exact C1.
Qed.

Lemma token_then_schedule_armed tok secs ty s :
  timers_ok s -> clock s + secs * 1000 <> 0 ->
  armed Reexchange (exec (token_then_schedule tok secs ty) s)
  = [new_timer Reexchange s (Z.max (clock s) (clock s + secs * 1000 - 120 * 1000))].
Proof.
  intros H Hne.
  destruct (token_then_schedule_eq tok secs ty s) as (s1 & E1 & E).
  destruct (setToken_expiring tok secs s) as (s1' & E1' & X1 & _ & _ & _ & C1 & N1 & O1).
  assert (s1' = s1) as -> by congruence.
  set (s2 := with_currentTokenType ty s1) in *.
  assert (timers_ok s2) as O2 by (apply (timers_ok_frame s1); auto).
  assert (tokenExpiry s2 = Some (Num (clock s + secs * 1000))) as X2 by exact X1.
  destruct (renewal_delay_due s2 _ X2 Hne) as (delay & D & Hdue).
  pose proof (scheduleReexchange_armed s2 O2) as A. rewrite D in A.
  unfold exec in *. rewrite E, A. unfold new_timer. rewrite Hdue.
  change (next_timer s2) with (next_timer s1). change (clock s2) with (clock s1).
  rewrite N1, C1. reflexivity.
Qed.

Lemma exec_eq {A} (m : M A) s (m' : M A) s' :
  m s = m' s' -> exec m s = exec m' s'.
Proof. unfold exec. intros ->. reflexivity. Qed.

Lemma outcome_eq {A} (m : M A) s (m' : M A) s' :
  m s = m' s' -> outcome m s = outcome m' s'.
Proof. unfold outcome. intros ->. reflexivity. Qed.

(** A granted scoped-anonymous exchange during [boot]: the token is
    stored in the state the answer arrives in. *)
Lemma boot_granted x s res body :
  restorable s = None ->
  answer x = Responded res -> ok res = true -> json res = Normal body ->
  boot x s
  = token_then_schedule (access_token body) (expires_in body) SCOPED_ANON
      (with_clock (clock s + Z.of_N (latency x))
         (with_calls (calls s ++ [CallEnsureTable; CallBoot]) s)).
Proof.
  intros R Ha Hok Hj. rewrite (boot_exchange _ _ R). clear R.
  destruct s, x as [dt a], body as [tok secs]. simpl in Ha. subst a.
  unfold token_then_schedule. run. rewrite Hok. run. rewrite Hj. run.
  rewrite <- !app_assoc. simpl.
  crack; reflexivity.
Qed.

Example renewal_due_at_481000 :
  timers (exec (boot (Scenario.granted "scoped-1" 600)) Scenario.fresh)
  = [{| timer_id := 1; timer_kind := Reexchange; timer_due := 481000 |}] /\
  tokenExpiry (exec (boot (Scenario.granted "scoped-1" 600)) Scenario.fresh)
  = Some (Num 601000).
Proof. vm_compute. split; reflexivity. Qed.

(** ** boot *)

(** C1. [boot()] never raises to its caller; and in every run in which
    the scoped-anonymous exchange is attempted and fails (the request is
    rejected by a network error or a timeout, or the response is not 2xx),
    [boot()] returns normally with the tier [FALLBACK_ANON], no expiry,
    the static fallback credential bound to the session, the three
    storage slots cleared and the upgrade-retry timeout armed five
    minutes ahead. *)
Theorem boot_falls_back_and_never_throws x s :
  outcome (boot x) s = Normal tt /\
  (restorable s = None ->
   exchange_failed (answer x) = true ->
   let s' := exec (boot x) s in
   currentTokenType s' = FALLBACK_ANON /\
   tokenExpiry s' = None /\
   session s' = Some (supabaseAnonKey (config s)) /\
   stored_triple s' = (None, None, None) /\
   upgradeTimer s' = Some (next_timer s) /\
   In (new_timer Upgrade s (clock s' + 5 * 60 * 1000)) (timers s')).
Proof.
  split; [apply boot_returns|].
  intros R F s'. subst s'. unfold exec. rewrite (boot_exchange _ _ R). clear R.
  destruct x as [dt [e|res]]; simpl in F.
  - destruct s. run. crack; (repeat split; try reflexivity);
      try apply cleared_triple_eq;
      apply in_or_app; right; left; reflexivity.
  - destruct (ok res) eqn:Hok; [discriminate|].
    destruct s. run. rewrite Hok. run.
    crack; (repeat split; try reflexivity);
      try apply cleared_triple_eq;
      apply in_or_app; right; left; reflexivity.
Qed.

Lemma boot_falls_back_and_never_throws_witness :
  restorable Scenario.fresh = None /\
  exchange_failed (answer Scenario.unavailable) = true /\
  let s' := exec (boot Scenario.unavailable) Scenario.fresh in
  currentTokenType s' = FALLBACK_ANON /\
  tokenExpiry s' = None /\
  session s' = Some (supabaseAnonKey (config Scenario.fresh)) /\
  stored_triple s' = (None, None, None) /\
  upgradeTimer s' = Some (next_timer Scenario.fresh) /\
  In (new_timer Upgrade Scenario.fresh (clock s' + 5 * 60 * 1000)) (timers s').
Proof.
  assert (restorable Scenario.fresh = None) as R by (vm_compute; reflexivity).
  assert (exchange_failed (answer Scenario.unavailable) = true) as F
    by (vm_compute; reflexivity).
  split; [exact R|]. split; [exact F|].
  exact (proj2 (boot_falls_back_and_never_throws Scenario.unavailable Scenario.fresh) R F).
Defined.

(** C10. When [boot()] restores a stored, non-expired token it binds it
    with [setToken(token, null)], which deletes the three storage slots:
    after the restore (which issued no exchange) no record is left in
    storage, and the next [boot()] cannot restore anything and issues the
    scoped-anonymous exchange request. *)
Theorem boot_restore_deletes_stored_record x s st :
  restorable s = Some st ->
  let s' := exec (boot x) s in
  session s' = Some (stored_token st) /\
  exchanges_since s s' = [] /\
  stored_triple s' = (None, None, None) /\
  peek_stored s' = None /\
  forall y, exchanges_since s' (exec (boot y) s') = [CallBoot].
Proof.
  intros R s'.
  assert (stored_triple s' = (None, None, None)) as T.
  { subst s'. unfold exec. rewrite (boot_restore _ _ _ R). clear R.
    destruct s, st. run. crack; apply cleared_triple_eq. }
  destruct (no_triple_not_restorable _ T) as [P R'].
  repeat split; trivial.
  - subst s'. unfold exec. rewrite (boot_restore _ _ _ R). clear.
    destruct s, st. run. crack; reflexivity.
  - apply exchanges_since_app with (l := [CallEnsureTable; CallSetSession (stored_token st)]).
    apply boot_restore_calls, R.
  - intros y. destruct (boot_exchange_calls y s' R') as [tok E].
    rewrite (exchanges_since_app _ _ _ E). reflexivity.
Qed.

Lemma boot_restore_deletes_stored_record_witness :
  restorable Scenario.booted
    = Some {| stored_token := "scoped-1"; stored_expiry := Num 601000;
              stored_type := "FALLBACK_ANON" |} /\
  stored_triple (exec (boot Scenario.unreachable) Scenario.booted) = (None, None, None) /\
  exchanges_since (exec (boot Scenario.unreachable) Scenario.booted)
    (exec (boot Scenario.unreachable) (exec (boot Scenario.unreachable) Scenario.booted))
    = [CallBoot].
Proof.
  assert (restorable Scenario.booted
          = Some {| stored_token := "scoped-1"; stored_expiry := Num 601000;
                    stored_type := "FALLBACK_ANON" |}) as R
    by (vm_compute; reflexivity).
  split; [exact R|].
  destruct (boot_restore_deletes_stored_record Scenario.unreachable _ _ R)
    as (_ & _ & T & _ & N).
  split; [exact T | apply N].
Defined.

(** ** login *)

Lemma login_completion email password si x s :
  returns (outcome (login email password si x) s) = primary_auth_ok (answer si).
Proof.
  destruct s, si as [dt [[err|] [tok|]]], x as [dt' [e|res]]; run;
    crack; reflexivity.
Qed.

(** C5. [login] throws if and only if primary authentication fails, that
    is, unless Supabase reports no error and returns a session token;
    an error reported by Supabase reaches the caller as it is. When
    primary authentication succeeds and the user-scoped exchange fails
    (rejected request or non-2xx response), [login] returns normally, the
    Supabase session is the one the sign-in established, and tier,
    expiry, storage and timers are what they were before the call. *)
Theorem login_throws_iff_primary_auth_fails email password si x s :
  returns (outcome (login email password si x) s) = primary_auth_ok (answer si) /\
  (forall e, signin_error (answer si) = Some e ->
             outcome (login email password si x) s = Throw e) /\
  (primary_auth_ok (answer si) = true ->
   exchange_failed (answer x) = true ->
   let s' := exec (login email password si x) s in
   outcome (login email password si x) s = Normal tt /\
   session s' = signin_access_token (answer si) /\
   outcome isAuthenticated s' = Normal true /\
   currentTokenType s' = currentTokenType s /\
   tokenExpiry s' = tokenExpiry s /\
   localStorage s' = localStorage s /\
   timers s' = timers s /\
   reexchangeTimer s' = reexchangeTimer s /\
   upgradeTimer s' = upgradeTimer s).
Proof.
  split; [apply login_completion|]. split.
  - intros e E. destruct s, si as [dt [err tok]]. simpl in E. subst err.
    run. reflexivity.
  - intros A F s'. subst s'.
    destruct s, si as [dt [[err|] [tok|]]]; try discriminate A.
    destruct tok as [|c tok]; [discriminate A|]. clear A.
    destruct x as [dt' [e|res]]; simpl in F.
    + run. repeat split.
    + destruct (ok res) eqn:Hok; [discriminate F|].
      run. rewrite Hok. run. repeat split.
Qed.

Lemma login_throws_iff_primary_auth_fails_witness :
  primary_auth_ok (answer (Scenario.signed_in "user-jwt")) = true /\
  exchange_failed (answer Scenario.unavailable) = true /\
  let s' := exec (login "alice" "goodpw" (Scenario.signed_in "user-jwt")
                    Scenario.unavailable) Scenario.booted in
  outcome (login "alice" "goodpw" (Scenario.signed_in "user-jwt")
             Scenario.unavailable) Scenario.booted = Normal tt /\
  session s' = signin_access_token (answer (Scenario.signed_in "user-jwt")) /\
  outcome isAuthenticated s' = Normal true /\
  currentTokenType s' = currentTokenType Scenario.booted /\
  tokenExpiry s' = tokenExpiry Scenario.booted /\
  localStorage s' = localStorage Scenario.booted /\
  timers s' = timers Scenario.booted /\
  reexchangeTimer s' = reexchangeTimer Scenario.booted /\
  upgradeTimer s' = upgradeTimer Scenario.booted.
Proof.
  split; [reflexivity|]. split; [reflexivity|].
  exact (proj2 (proj2 (login_throws_iff_primary_auth_fails "alice" "goodpw"
                         (Scenario.signed_in "user-jwt") Scenario.unavailable
                         Scenario.booted)) eq_refl eq_refl).
Defined.

Example login_bad_password_throws :
  outcome (login "alice" "wrong" Scenario.bad_password (Scenario.granted "u" 600))
    Scenario.booted
  = Throw (mkError "AuthApiError" "Invalid login credentials").
Proof. vm_compute. reflexivity. Qed.

(** ** The tier tag in storage *)

(** What a granted [boot] leaves in storage: the tier tag is the tier
    held before the call, since [setToken] writes [currentTokenType]
    before [boot] assigns the new tier. *)
Lemma boot_granted_stores_previous_tier x s res body :
  restorable s = None ->
  answer x = Responded res -> ok res = true -> json res = Normal body ->
  let s' := exec (boot x) s in
  currentTokenType s' = SCOPED_ANON /\
  localStorage s' !! TOKEN_KEY = Some (access_token body) /\
  localStorage s' !! TOKEN_TYPE_KEY = Some (currentTokenType s).
Proof.
  intros R Ha Hok Hj s'. subst s'.
  rewrite (exec_eq _ _ _ _ (boot_granted x s res body R Ha Hok Hj)).
  destruct (token_then_schedule_state (access_token body) (expires_in body) SCOPED_ANON
              (with_clock (clock s + Z.of_N (latency x))
                 (with_calls (calls s ++ [CallEnsureTable; CallBoot]) s)))
    as (_ & T & _ & S & _).
  split; [exact T|]. unfold stored_triple in S. injection S as S1 _ S3. auto.
Qed.

(** C4, at a fresh instance whose first [boot()] is granted a token, and
    at the [login] that follows a degraded boot: the triple written to
    storage carries the tier held before the operation
    ([FALLBACK_ANON]), not the tier that becomes active ([SCOPED_ANON],
    resp. [USER_SCOPED]). *)
Theorem exchange_success_persists_stale_tier :
  currentTokenType Scenario.fresh = FALLBACK_ANON /\
  currentTokenType Scenario.booted = SCOPED_ANON /\
  stored_triple Scenario.booted
    = (Some "scoped-1", Some "601000", Some FALLBACK_ANON) /\
  currentTokenType Scenario.degraded = FALLBACK_ANON /\
  currentTokenType Scenario.logged_in = USER_SCOPED /\
  stored_triple Scenario.logged_in
    = (Some "user-scoped-1", Some "601000", Some FALLBACK_ANON).
Proof. vm_compute. repeat split. Qed.

(** ** boot, twice *)

Lemma booted_twice_reachable : reachable Scenario.booted_twice.
Proof.
  unfold Scenario.booted_twice, Scenario.booted, Scenario.fresh.
  repeat (apply reachable_step; [|exact I]). apply reachable_construct.
Qed.

(** C2, at a fresh instance: the first [boot()] is granted a token valid
    for 600 seconds and ends in [SCOPED_ANON]; a second [boot()] one
    second later, with nothing in between, issues no exchange (it
    restores the stored record) and ends in [FALLBACK_ANON]. *)
Theorem boot_twice_changes_tier :
  reachable Scenario.booted_twice /\
  currentTokenType Scenario.booted = SCOPED_ANON /\
  outcome (isTokenExpired None) (exec (run_op (OpWait 1000)) Scenario.booted)
    = Normal false /\
  exchanges_since Scenario.booted Scenario.booted_twice = [] /\
  currentTokenType Scenario.booted_twice = FALLBACK_ANON.
Proof. split; [apply booted_twice_reachable|]. vm_compute. repeat split. Qed.

(** C3, in the same run: after the second [boot()] the tier is
    [FALLBACK_ANON] while the manager holds the expiry of the restored
    token, and a renewal timeout is pending for it. The same state
    results when a new instance boots over the storage the first left. *)
Theorem fallback_tier_with_expiry :
  reachable Scenario.booted_twice /\
  currentTokenType Scenario.booted_twice = FALLBACK_ANON /\
  tokenExpiry Scenario.booted_twice = Some (Num 601000) /\
  armed Reexchange Scenario.booted_twice
    = [{| timer_id := 2; timer_kind := Reexchange; timer_due := 481000 |}] /\
  let reloaded :=
    exec (boot Scenario.unreachable)
      (construct Scenario.cfg 2000 (localStorage Scenario.booted)) in
  currentTokenType reloaded = FALLBACK_ANON /\
  tokenExpiry reloaded = Some (Num 601000).
Proof. split; [apply booted_twice_reachable|]. vm_compute. repeat split. Qed.

(** ** The upgrade-retry callback *)

(** C7, in a run where [boot()] finds the gateway down, [login] then
    succeeds, and the upgrade timeout armed by the boot fires five
    minutes later with the gateway up: the timeout is still pending
    after the login, its callback applies its result with no look at the
    tier, and [USER_SCOPED] is replaced by [SCOPED_ANON]. *)
Theorem upgrade_callback_overwrites_user_scoped :
  currentTokenType Scenario.degraded = FALLBACK_ANON /\
  currentTokenType Scenario.logged_in = USER_SCOPED /\
  armed Upgrade Scenario.logged_in = [Scenario.upgrade_timer] /\
  enabled (OpFire Scenario.upgrade_timer (Scenario.granted "scoped-9" 600))
    (exec (run_op (OpWait 300000)) Scenario.logged_in) /\
  reachable Scenario.after_upgrade /\
  currentTokenType Scenario.after_upgrade = SCOPED_ANON /\
  session Scenario.after_upgrade = Some "scoped-9".
Proof.
  assert (enabled (OpFire Scenario.upgrade_timer (Scenario.granted "scoped-9" 600))
            (exec (run_op (OpWait 300000)) Scenario.logged_in)) as En.
  { split; [vm_compute; left; reflexivity | vm_compute; discriminate]. }
  repeat match goal with |- _ /\ _ => split end; try (vm_compute; reflexivity).
  - exact En.
  - unfold Scenario.after_upgrade. apply reachable_step; [|exact En].
    unfold Scenario.logged_in, Scenario.degraded, Scenario.fresh.
    repeat (apply reachable_step; [|exact I]). apply reachable_construct.
Qed.

(** ** signUp *)

(** The primary path on a response that is neither 2xx nor 404: the
    error is rethrown only when its message contains ["Signup failed"];
    any other message is taken for an unreachable Control Plane and the
    call goes on to the direct signup. *)
Lemma control_plane_rejection email password p si x s res :
  answer p = Responded res -> ok res = false -> status res <> 404 ->
  outcome (signUp_control_plane email password p si x) s
  = if includes "Signup failed" (signup_error_message res)
    then Throw (new_Error (signup_error_message res))
    else Normal false.
Proof.
  intros Ha Hok Hs. destruct p as [dt a]. simpl in Ha. subst a.
  apply Z.eqb_neq in Hs.
  unfold signUp_control_plane, outcome, try_catch, bind, record_call, elapse, modify, throw.
  cbn [answer latency fst snd]. rewrite Hok, Hs.
  fold (signup_error_message res).
  cbn [name message new_Error String.eqb Ascii.eqb Bool.eqb].
  destruct (includes "Signup failed" (signup_error_message res)); reflexivity.
Qed.

(** A 404 goes on to the direct signup. *)
Lemma control_plane_not_deployed email password p si x s res :
  answer p = Responded res -> status res = 404 ->
  outcome (signUp_control_plane email password p si x) s = Normal false.
Proof.
  intros Ha Hs. destruct p as [dt a]. simpl in Ha. subst a.
  unfold signUp_control_plane, outcome, try_catch, bind, record_call, elapse, modify, ok.
  cbn [answer latency fst snd]. rewrite Hs. reflexivity.
Qed.

(** A rejected request (a timeout, a network failure) goes on to the
    direct signup, unless the rejection's own message contains
    ["Signup failed"]. *)
Lemma control_plane_rejected_request email password p si x s e :
  answer p = Rejected e -> includes "Signup failed" (message e) = false ->
  outcome (signUp_control_plane email password p si x) s = Normal false.
Proof.
  intros Ha Hm. destruct p as [dt a]. simpl in Ha. subst a.
  unfold signUp_control_plane, outcome, try_catch, bind, record_call, elapse, modify, throw.
  cbn [answer latency fst snd]. rewrite Hm.
  destruct (String.eqb (name e) "AbortError"); reflexivity.
Qed.

(** C6, at a signup the Control Plane answers with 409 and the body
    [{ error: "User already registered" }]: no error reaches the
    caller; the server's message does not contain ["Signup failed"], so
    the inner [catch] takes it for an unreachable Control Plane and the
    direct Supabase signup runs. A 500 with no [error] field is
    surfaced, a 404 and a timeout go on to the direct signup. *)
Theorem signUp_conflict_falls_through :
  let run p :=
    signUp "bob" "pw" p (Scenario.registered "bob-jwt") (Scenario.signed_in "bob-jwt")
      (Scenario.granted "bob-scoped" 600) Scenario.fresh in
  signup_error_message
    {| status := 409; statusText := "Conflict"; text := "";
       json := Normal (Some "User already registered") |}
    = "User already registered" /\
  fst (run Scenario.conflict) = Normal tt /\
  calls (snd (run Scenario.conflict))
    = [CallSignup "bob"; CallDirectSignUp "bob"; CallSetSession "bob-jwt"] /\
  currentTokenType (snd (run Scenario.conflict)) = USER_SCOPED /\
  fst (run Scenario.server_error) = Throw (new_Error "Signup failed: 500") /\
  calls (snd (run Scenario.server_error)) = [CallSignup "bob"] /\
  fst (run Scenario.not_found) = Normal tt /\
  fst (run Scenario.timed_out) = Normal tt.
Proof. vm_compute. repeat split. Qed.

(** ** The tier is always one of the three *)

Lemma tier_ok_frame s s' :
  currentTokenType s' = currentTokenType s -> localStorage s' = localStorage s ->
  tier_ok s -> tier_ok s'.
Proof. unfold tier_ok. intros -> ->. auto. Qed.

Lemma set_tier_ok ty : is_tier ty -> preserves tier_ok (modify (with_currentTokenType ty)).
Proof. intros T s [_ H]. split; [exact T | exact H]. Qed.

Lemma setToken_tier_ok tok e : preserves tier_ok (setToken tok e).
Proof.
  destruct keys_distinct as (_ & K2 & K3).
  intros s [T H]. destruct s, e as [secs|]; unfold exec, tier_ok in *; simpl in T; run.
  - split; [exact T|]. intros ty. rewrite lookup_insert_eq. intros [= <-]. exact T.
  - split; [exact T|]. intros ty. rewrite lookup_delete_eq. discriminate.
Qed.

Lemma clearReexchangeTimer_tier_ok : preserves tier_ok clearReexchangeTimer.
Proof.
  intros s H. unfold exec. rewrite clearReexchangeTimer_eq. cbn [snd].
  apply (tier_ok_frame s); [| |exact H];
    unfold cancelled; destruct (handle Reexchange s); reflexivity.
Qed.

Lemma clearUpgradeTimer_tier_ok : preserves tier_ok clearUpgradeTimer.
Proof.
  intros s H. unfold exec. rewrite clearUpgradeTimer_eq. cbn [snd].
  apply (tier_ok_frame s); [| |exact H];
    unfold cancelled; destruct (handle Upgrade s); reflexivity.
Qed.

Lemma scheduleReexchange_tier_ok : preserves tier_ok scheduleReexchange.
Proof.
  intros s H. destruct (scheduleReexchange_frame s) as (F1 & _ & F3 & _).
  apply (tier_ok_frame s); assumption.
Qed.

Lemma scheduleUpgradeAttempt_tier_ok : preserves tier_ok scheduleUpgradeAttempt.
Proof.
  intros s H. destruct (scheduleUpgradeAttempt_frame s) as (F1 & _ & F3 & _).
  apply (tier_ok_frame s); assumption.
Qed.

Create HintDb zylo_tier.
#[local] Hint Resolve setToken_tier_ok clearReexchangeTimer_tier_ok
  clearUpgradeTimer_tier_ok scheduleReexchange_tier_ok scheduleUpgradeAttempt_tier_ok
  : zylo_tier.

Ltac tier_frame_step :=
  let s := fresh "s" in
  let H := fresh "H" in
  apply preserves_modify; intros s H; apply (tier_ok_frame s);
    [reflexivity | reflexivity | exact H].

Ltac tier_step :=
  first
    [ solve [auto with zylo_tier]
    | apply preserves_ret
    | apply preserves_throw
    | apply preserves_gets
    | apply set_tier_ok; unfold is_tier; solve [auto]
    | tier_frame_step
    | apply preserves_bind; [|intros ?]
    | apply preserves_try_catch; [|intros ?]
    | match goal with
      | |- preserves _ (match ?x with _ => _ end) => destruct x
      end ].

Ltac tier_auto := repeat tier_step.

Lemma exchangeForScopedAnonToken_tier_ok x : preserves tier_ok (exchangeForScopedAnonToken x).
Proof. unfold exchangeForScopedAnonToken, record_call, elapse. tier_auto. Qed.

Lemma exchangeForTenantUserScopedToken_tier_ok tok x :
  preserves tier_ok (exchangeForTenantUserScopedToken tok x).
Proof. unfold exchangeForTenantUserScopedToken, record_call, elapse. tier_auto. Qed.
#[local] Hint Resolve exchangeForScopedAnonToken_tier_ok
  exchangeForTenantUserScopedToken_tier_ok : zylo_tier.

(** The tier [boot] restores is the tag found in storage. *)
Lemma restorable_type s st :
  restorable s = Some st -> localStorage s !! TOKEN_TYPE_KEY = Some (stored_type st).
Proof. destruct s. run. crack; intros; simplify_eq; reflexivity. Qed.

Lemma boot_tier_ok x : preserves tier_ok (boot x).
Proof.
  intros s H.
  assert (tier_ok (with_calls (calls s ++ [CallEnsureTable]) s)) as H0
    by (apply (tier_ok_frame s); [reflexivity | reflexivity | exact H]).
  destruct (restorable s) as [st|] eqn:R.
  - rewrite (exec_eq _ _ _ _ (boot_restore x s st R)).
    pose proof (proj2 H _ (restorable_type s st R)) as T.
    revert H0. generalize (with_calls (calls s ++ [CallEnsureTable]) s).
    change (preserves tier_ok
              (setToken (stored_token st) None ;;
               modify (with_currentTokenType (stored_type st)) ;;
               modify (with_tokenExpiry (Some (stored_expiry st))) ;;
               scheduleReexchange)).
    apply preserves_bind; [auto with zylo_tier|intros _].
    apply preserves_bind; [apply set_tier_ok, T|intros _].
    tier_auto.
  - rewrite (exec_eq _ _ _ _ (boot_exchange x s R)).
    revert H0. generalize (with_calls (calls s ++ [CallEnsureTable]) s).
    change (preserves tier_ok
              (try_catch
                 (tokenResponse <- exchangeForScopedAnonToken x ;;
                  setToken (access_token tokenResponse) (Some (expires_in tokenResponse)) ;;
                  modify (with_currentTokenType SCOPED_ANON) ;;
                  scheduleReexchange)
                 (fun _ =>
                    cfg <- gets config ;;
                    setToken (supabaseAnonKey cfg) None ;;
                    modify (with_currentTokenType FALLBACK_ANON) ;;
                    scheduleUpgradeAttempt))).
    tier_auto.
Qed.
#[local] Hint Resolve boot_tier_ok : zylo_tier.

Lemma login_tier_ok email password si x : preserves tier_ok (login email password si x).
Proof. unfold login, signInWithPassword, record_call, elapse. tier_auto. Qed.
#[local] Hint Resolve login_tier_ok : zylo_tier.

Lemma signUp_tier_ok email password p d si x :
  preserves tier_ok (signUp email password p d si x).
Proof.
  unfold signUp, signUp_control_plane, signUp_direct, auth_signUp, record_call, elapse.
  tier_auto.
Qed.

Lemma logout_tier_ok x : preserves tier_ok (logout x).
Proof. unfold logout, signOut, record_call. tier_auto. Qed.

Lemma cleanup_tier_ok : preserves tier_ok cleanup.
Proof. unfold cleanup. tier_auto. Qed.

Lemma reexchange_callback_tier_ok x : preserves tier_ok (reexchange_callback x).
Proof. unfold reexchange_callback, getSession_access_token. tier_auto. Qed.

Lemma upgrade_callback_tier_ok x : preserves tier_ok (upgrade_callback x).
Proof. unfold upgrade_callback. tier_auto. Qed.

Lemma fire_tier_ok t x : preserves tier_ok (fire t x).
Proof.
  unfold fire. apply preserves_bind; [tier_frame_step|intros _].
  destruct (timer_kind t); [apply reexchange_callback_tier_ok | apply upgrade_callback_tier_ok].
Qed.

(** The first half of the tier invariant: over storage the manager wrote
    itself (or an empty one) the tier is one of the three after
    construction and after every call and callback. *)
Lemma tier_ok_construct cfg now store :
  (forall ty, store !! TOKEN_TYPE_KEY = Some ty -> is_tier ty) ->
  tier_ok (construct cfg now store).
Proof. intros H. split; [left; reflexivity | exact H]. Qed.

Lemma run_op_tier_ok o : preserves tier_ok (run_op o).
Proof.
  destruct o; simpl.
  - apply boot_tier_ok.
  - apply login_tier_ok.
  - apply signUp_tier_ok.
  - apply logout_tier_ok.
  - apply cleanup_tier_ok.
  - apply fire_tier_ok.
  - unfold elapse. tier_frame_step.
Qed.

(** ** Two scenarios of the public API *)

(** A fresh instance boots with the gateway unreachable: the status
    reports [FALLBACK_ANON], no expiry, not expired. *)
Example status_after_degraded_boot :
  outcome getTokenStatus Scenario.degraded
  = Normal {| status_type := FALLBACK_ANON; status_expiresAt := None;
              status_isExpired := false; status_hasSignedContext := false |}.
Proof. vm_compute. reflexivity. Qed.

(** [logout()] from the logged-in state, with the gateway up again:
    both timeouts are cancelled and the manager boots afresh; the stored
    record of the login is still valid, so the boot restores it. *)
Example logout_cancels_both_timers :
  let s := exec (logout (Scenario.granted "scoped-3" 600)) Scenario.logged_in in
  upgradeTimer s = None /\ armed Upgrade s = [] /\
  length (armed Reexchange s) = 1%nat /\
  exchanges_since Scenario.logged_in s = [].
Proof. vm_compute. repeat split. Qed.

(** ** cleanup *)

Lemma cleanup_eq s :
  cleanup s = (Normal tt, cancelled Upgrade (cancelled Reexchange s)).
Proof.
  unfold cleanup. rewrite (bind_normal _ _ _ _ _ (clearReexchangeTimer_eq s)).
  apply clearUpgradeTimer_eq.
Qed.

Lemma handle_cancelled k k' s :
  handle k (cancelled k' s) = if TimerKind_eqb k k' then None else handle k s.
Proof.
  unfold cancelled. destruct (handle k' s) eqn:E.
  - rewrite handle_with_handle. destruct k, k'; reflexivity.
  - destruct k, k'; simpl in *; congruence.
Qed.

Lemma cancelled_only_timers k s : only_timers_changed s (cancelled k s).
Proof. unfold cancelled. destruct (handle k s), k; repeat split. Qed.

Lemma rearmed_only_timers k delay s : only_timers_changed s (rearmed k delay s).
Proof. unfold rearmed. destruct k; repeat split. Qed.

Lemma only_timers_changed_trans s1 s2 s3 :
  only_timers_changed s1 s2 -> only_timers_changed s2 s3 -> only_timers_changed s1 s3.
Proof.
  unfold only_timers_changed.
  intros (A1 & A2 & A3 & A4 & A5 & A6 & A7) (B1 & B2 & B3 & B4 & B5 & B6 & B7).
  repeat split; congruence.
Qed.

Lemma cleanup_no_timers s : timers_ok s -> timers (exec cleanup s) = [].
Proof.
  intros H. unfold exec. rewrite cleanup_eq. cbn [snd].
  destruct (timers_ok_cancelled Reexchange s H) as [H1 A1].
  destruct (timers_ok_cancelled Upgrade _ H1) as [[_ Hh] A2].
  destruct (timers (cancelled Upgrade (cancelled Reexchange s))) as [|t l] eqn:T;
    [reflexivity|exfalso].
  pose proof (Hh t (or_introl eq_refl)) as E. rewrite !handle_cancelled in E.
  destruct (timer_kind t); simpl in E; discriminate.
Qed.

Lemma timers_cancelled k s :
  timers (cancelled k s)
  = match handle k s with
    | Some h => filter (fun t => timer_id t <> h) (timers s)
    | None => timers s
    end.
Proof. unfold cancelled. destruct (handle k s), k; reflexivity. Qed.

(** ** The two timers do not interfere *)

Lemma handles_ok_frame s s' :
  reexchangeTimer s' = reexchangeTimer s -> upgradeTimer s' = upgradeTimer s ->
  next_timer s' = next_timer s -> handles_ok s -> handles_ok s'.
Proof.
  intros R U N [H1 H2]. split.
  - intros k h. rewrite N. intros E. apply (H1 k). rewrite <- E.
    destruct k; simpl; congruence.
  - rewrite R, U. exact H2.
Qed.

Lemma handles_ok_cancelled k s : handles_ok s -> handles_ok (cancelled k s).
Proof.
  intros [H1 H2]. destruct (cancelled_frame k s) as (N & _). split.
  - intros k' h. rewrite N, handle_cancelled.
    destruct (TimerKind_eqb k' k); [discriminate|apply H1].
  - intros h.
    change (reexchangeTimer (cancelled k s)) with (handle Reexchange (cancelled k s)).
    change (upgradeTimer (cancelled k s)) with (handle Upgrade (cancelled k s)).
    rewrite !handle_cancelled. destruct k; simpl; [discriminate|].
    intros _. discriminate.
Qed.

Lemma handle_rearmed k k' delay s :
  handle k (rearmed k' delay s)
  = if TimerKind_eqb k k' then Some (next_timer s) else handle k s.
Proof. unfold rearmed. rewrite handle_with_handle. destruct k, k'; reflexivity. Qed.

Lemma next_timer_rearmed k delay s :
  next_timer (rearmed k delay s) = Pos.succ (next_timer s).
Proof. unfold rearmed. destruct k; reflexivity. Qed.

Lemma handles_ok_rearmed k delay s : handles_ok s -> handles_ok (rearmed k delay s).
Proof.
  intros [H1 H2]. split.
  - intros k' h. rewrite next_timer_rearmed, handle_rearmed.
    destruct (TimerKind_eqb k' k).
    + intros [= <-]. lia.
    + intros E. specialize (H1 _ _ E). lia.
  - intros h.
    change (reexchangeTimer (rearmed k delay s)) with (handle Reexchange (rearmed k delay s)).
    change (upgradeTimer (rearmed k delay s)) with (handle Upgrade (rearmed k delay s)).
    rewrite !handle_rearmed. destruct k; simpl.
    + intros [= <-] E. specialize (H1 Upgrade _ E). lia.
    + intros E [= Hn]. specialize (H1 Reexchange _ E). lia.
Qed.

Lemma clearReexchangeTimer_handles : preserves handles_ok clearReexchangeTimer.
Proof.
  intros s H. unfold exec. rewrite clearReexchangeTimer_eq.
  apply handles_ok_cancelled, H.
Qed.

Lemma clearUpgradeTimer_handles : preserves handles_ok clearUpgradeTimer.
Proof.
  intros s H. unfold exec. rewrite clearUpgradeTimer_eq.
  apply handles_ok_cancelled, H.
Qed.

Lemma scheduleReexchange_handles : preserves handles_ok scheduleReexchange.
Proof.
  intros s H. unfold exec. rewrite scheduleReexchange_eq. cbn [snd].
  destruct (renewal_delay s);
    [apply handles_ok_rearmed|]; apply handles_ok_cancelled, H.
Qed.

Lemma scheduleUpgradeAttempt_handles : preserves handles_ok scheduleUpgradeAttempt.
Proof.
  intros s H. unfold exec. rewrite scheduleUpgradeAttempt_eq. cbn [snd].
  apply handles_ok_rearmed, handles_ok_cancelled, H.
Qed.

Create HintDb zylo_handles.
#[local] Hint Resolve clearReexchangeTimer_handles clearUpgradeTimer_handles
  scheduleReexchange_handles scheduleUpgradeAttempt_handles : zylo_handles.

Ltac handles_frame_step :=
  let s := fresh "s" in
  let H := fresh "H" in
  apply preserves_modify; intros s H; apply (handles_ok_frame s);
    [reflexivity | reflexivity | reflexivity | exact H].

Ltac handles_step :=
  first
    [ solve [auto with zylo_handles]
    | apply preserves_ret
    | apply preserves_throw
    | apply preserves_gets
    | handles_frame_step
    | apply preserves_bind; [|intros ?]
    | apply preserves_try_catch; [|intros ?]
    | match goal with
      | |- preserves _ (match ?x with _ => _ end) => destruct x
      end ].

Ltac handles_auto := repeat handles_step.

Lemma setToken_handles tok e : preserves handles_ok (setToken tok e).
Proof.
  unfold setToken, setSession, record_call, setItem, removeItem, Date_now.
  handles_auto.
Qed.

Lemma exchangeForScopedAnonToken_handles x :
  preserves handles_ok (exchangeForScopedAnonToken x).
Proof. unfold exchangeForScopedAnonToken, record_call, elapse. handles_auto. Qed.

Lemma exchangeForTenantUserScopedToken_handles tok x :
  preserves handles_ok (exchangeForTenantUserScopedToken tok x).
Proof. unfold exchangeForTenantUserScopedToken, record_call, elapse. handles_auto. Qed.
#[local] Hint Resolve setToken_handles exchangeForScopedAnonToken_handles
  exchangeForTenantUserScopedToken_handles : zylo_handles.

Lemma boot_handles x : preserves handles_ok (boot x).
Proof.
  unfold boot, ensureTenantUsersTableExists_detached, record_call, loadStoredToken,
    getItem, isTokenExpired, Date_now.
  handles_auto.
Qed.
#[local] Hint Resolve boot_handles : zylo_handles.

Lemma login_handles email password si x :
  preserves handles_ok (login email password si x).
Proof. unfold login, signInWithPassword, record_call, elapse. handles_auto. Qed.
#[local] Hint Resolve login_handles : zylo_handles.

Lemma signUp_handles email password p d si x :
  preserves handles_ok (signUp email password p d si x).
Proof.
  unfold signUp, signUp_control_plane, signUp_direct, auth_signUp, record_call, elapse.
  handles_auto.
Qed.

Lemma logout_handles x : preserves handles_ok (logout x).
Proof. unfold logout, signOut, record_call. handles_auto. Qed.

Lemma cleanup_handles : preserves handles_ok cleanup.
Proof. unfold cleanup. handles_auto. Qed.

Lemma reexchange_callback_handles x : preserves handles_ok (reexchange_callback x).
Proof. unfold reexchange_callback, getSession_access_token. handles_auto. Qed.

Lemma upgrade_callback_handles x : preserves handles_ok (upgrade_callback x).
Proof. unfold upgrade_callback. handles_auto. Qed.

Lemma fire_handles t x : preserves handles_ok (fire t x).
Proof.
  unfold fire. apply preserves_bind; [handles_frame_step|intros _].
  destruct (timer_kind t);
    [apply reexchange_callback_handles | apply upgrade_callback_handles].
Qed.

Lemma run_op_handles o : preserves handles_ok (run_op o).
Proof.
  destruct o; simpl.
  - apply boot_handles.
  - apply login_handles.
  - apply signUp_handles.
  - apply logout_handles.
  - apply cleanup_handles.
  - apply fire_handles.
  - unfold elapse. handles_frame_step.
Qed.

Lemma reachable_handles_ok s : reachable s -> handles_ok s.
Proof.
  induction 1 as [cfg now store | s o _ IH _].
  - split; [intros [] h; discriminate | intros h; discriminate].
  - apply run_op_handles, IH.
Qed.

(** Cancelling the timeout of one purpose leaves the pending timeouts of
    the other purpose as they are. *)
Lemma armed_cancelled_other k k' s :
  timers_ok s -> handles_ok s -> k <> k' ->
  armed k (cancelled k' s) = armed k s.
Proof.
  intros [_ Hh] [_ Hd] Hk. unfold armed. rewrite timers_cancelled.
  destruct (handle k' s) as [h|] eqn:E; [|reflexivity].
  induction (timers s) as [|t l IH]; [reflexivity|].
  rewrite filter_cons.
  assert (forall u, In u l -> handle (timer_kind u) s = Some (timer_id u)) as Hl
    by (intros u Hu; apply Hh; right; exact Hu).
  specialize (Hh t (or_introl eq_refl)).
  destruct (decide (timer_id t <> h)) as [Hne|Heq]; simpl.
  - rewrite (IH Hl). reflexivity.
  - apply dec_stable in Heq. subst h.
    destruct (TimerKind_eqb (timer_kind t) k) eqn:K; [|apply IH, Hl].
    apply TimerKind_eqb_eq in K. exfalso.
    destruct k, k'; try congruence; rewrite K in Hh; simpl in *.
    + apply (Hd _ Hh). exact E.
    + apply (Hd _ E). exact Hh.
Qed.

Lemma armed_rearmed_other k k' delay s :
  k <> k' -> armed k (rearmed k' delay s) = armed k s.
Proof.
  intros Hk. unfold armed, rearmed.
  assert (timers (with_handle k' (Some (next_timer s))
            (with_timers (timers s ++ [new_timer k' s (clock s + delay)])
               (Pos.succ (next_timer s)) s))
          = (timers s ++ [new_timer k' s (clock s + delay)])%list) as ->
    by (destruct k'; reflexivity).
  rewrite List.filter_app. simpl.
  destruct k, k'; try congruence; simpl; apply app_nil_r.
Qed.

Lemma filter_id_other k k' h s :
  timers_ok s -> handles_ok s -> handle k' s = Some h -> k <> k' ->
  List.filter (fun t => TimerKind_eqb (timer_kind t) k)
    (filter (fun t => timer_id t <> h) (timers s))
  = armed k s.
Proof.
  intros H1 H2 E Hk. rewrite <- (armed_cancelled_other k k' s H1 H2 Hk).
  unfold armed. rewrite timers_cancelled, E. reflexivity.
Qed.

(** X2. In every state a run reaches the two handle fields never name
    the same timeout, and arming or cancelling the timeout of one purpose
    leaves the pending timeout of the other purpose in place. *)
Theorem timers_do_not_interfere s :
  reachable s ->
  (forall h, reexchangeTimer s = Some h -> upgradeTimer s <> Some h) /\
  armed Upgrade (exec scheduleReexchange s) = armed Upgrade s /\
  armed Reexchange (exec scheduleUpgradeAttempt s) = armed Reexchange s /\
  armed Upgrade (exec clearReexchangeTimer s) = armed Upgrade s /\
  armed Reexchange (exec clearUpgradeTimer s) = armed Reexchange s.
Proof.
  intros R. pose proof (reachable_timers_ok s R) as H1.
  pose proof (reachable_handles_ok s R) as H2.
  split; [apply H2|]. unfold exec.
  rewrite scheduleReexchange_eq, scheduleUpgradeAttempt_eq,
    clearReexchangeTimer_eq, clearUpgradeTimer_eq. cbn [snd].
  repeat split.
  - destruct (renewal_delay s); [rewrite armed_rearmed_other by discriminate|];
      apply armed_cancelled_other; trivial; discriminate.
  - rewrite armed_rearmed_other by discriminate.
    apply armed_cancelled_other; trivial; discriminate.
  - apply armed_cancelled_other; trivial; discriminate.
  - apply armed_cancelled_other; trivial; discriminate.
Qed.

Lemma logged_in_reachable : reachable Scenario.logged_in.
Proof.
  unfold Scenario.logged_in, Scenario.degraded, Scenario.fresh.
  repeat (apply reachable_step; [|exact I]). apply reachable_construct.
Qed.

Lemma timers_do_not_interfere_witness :
  reachable Scenario.logged_in /\
  (forall h, reexchangeTimer Scenario.logged_in = Some h ->
             upgradeTimer Scenario.logged_in <> Some h) /\
  armed Upgrade (exec scheduleReexchange Scenario.logged_in)
    = armed Upgrade Scenario.logged_in /\
  armed Reexchange (exec scheduleUpgradeAttempt Scenario.logged_in)
    = armed Reexchange Scenario.logged_in /\
  armed Upgrade (exec clearReexchangeTimer Scenario.logged_in)
    = armed Upgrade Scenario.logged_in /\
  armed Reexchange (exec clearUpgradeTimer Scenario.logged_in)
    = armed Reexchange Scenario.logged_in.
Proof.
  split; [exact logged_in_reachable|].
  exact (timers_do_not_interfere Scenario.logged_in logged_in_reachable).
Defined.

(** ** The upgrade-retry callback, case by case *)

Lemma fire_eq t x s :
  fire t x s
  = match timer_kind t with
    | Reexchange => reexchange_callback x (fired t s)
    | Upgrade => upgrade_callback x (fired t s)
    end.
Proof. unfold fire, bind, modify, fired. destruct (timer_kind t); reflexivity. Qed.

Lemma fired_only_timers t s : only_timers_changed s (fired t s).
Proof. repeat split. Qed.

Lemma fired_ok t s : timers_ok s -> handles_ok s ->
  timers_ok (fired t s) /\ handles_ok (fired t s).
Proof.
  intros H1 H2. split; [apply timers_ok_fired, H1|].
  apply (handles_ok_frame s); trivial.
Qed.

Lemma armed_fired t s :
  timers_ok s -> handles_ok s -> In t (timers s) ->
  armed (timer_kind t) (fired t s) = [] /\
  (forall k, k <> timer_kind t -> armed k (fired t s) = armed k s).
Proof.
  intros H1 H2 I. pose proof (proj2 H1 t I) as E. split.
  - pose proof (proj2 (timers_ok_cancelled (timer_kind t) s H1)) as A.
    unfold armed in *. rewrite timers_cancelled, E in A. exact A.
  - intros k Hk. apply (filter_id_other k (timer_kind t)); trivial.
Qed.

Lemma answered_ok c x s :
  (timers_ok s -> timers_ok (answered c x s)) /\
  (handles_ok s -> handles_ok (answered c x s)).
Proof.
  split; intros H.
  - apply (timers_ok_frame s); trivial.
  - apply (handles_ok_frame s); trivial.
Qed.

Lemma upgrade_callback_failed x s :
  exchange_failed (answer x) = true ->
  upgrade_callback x s = scheduleUpgradeAttempt (answered CallBoot x s).
Proof.
  intros F. destruct x as [dt [e|res]]; simpl in F.
  - destruct s. unfold upgrade_callback, answered. run. crack; reflexivity.
  - destruct (ok res) eqn:Hok; [discriminate|].
    destruct s. unfold upgrade_callback, answered. run. rewrite Hok. run.
    crack; reflexivity.
Qed.

Lemma upgrade_callback_granted x s res body :
  answer x = Responded res -> ok res = true -> json res = Normal body ->
  upgrade_callback x s
  = token_then_schedule (access_token body) (expires_in body) SCOPED_ANON
      (answered CallBoot x s).
Proof.
  intros Ha Hok Hj. destruct s, x as [dt a], body as [tok secs]. simpl in Ha. subst a.
  unfold upgrade_callback, token_then_schedule, answered. run. rewrite Hok. run.
  rewrite Hj. run. crack; reflexivity.
Qed.

Lemma setToken_timers tok e s :
  let s' := exec (setToken tok e) s in
  timers s' = timers s /\ reexchangeTimer s' = reexchangeTimer s /\
  upgradeTimer s' = upgradeTimer s /\ next_timer s' = next_timer s.
Proof. destruct s, e; run; repeat split. Qed.

Lemma scheduleReexchange_other s :
  timers_ok s -> handles_ok s ->
  armed Upgrade (exec scheduleReexchange s) = armed Upgrade s.
Proof.
  intros H1 H2. unfold exec. rewrite scheduleReexchange_eq. cbn [snd].
  destruct (renewal_delay s); [rewrite armed_rearmed_other by discriminate|];
    apply armed_cancelled_other; trivial; discriminate.
Qed.

Lemma scheduleUpgradeAttempt_other s :
  timers_ok s -> handles_ok s ->
  armed Reexchange (exec scheduleUpgradeAttempt s) = armed Reexchange s.
Proof.
  intros H1 H2. unfold exec. rewrite scheduleUpgradeAttempt_eq. cbn [snd].
  rewrite armed_rearmed_other by discriminate.
  apply armed_cancelled_other; trivial; discriminate.
Qed.

Lemma token_then_schedule_other tok secs ty s :
  timers_ok s -> handles_ok s ->
  armed Upgrade (exec (token_then_schedule tok secs ty) s) = armed Upgrade s.
Proof.
  intros H1 H2.
  destruct (token_then_schedule_eq tok secs ty s) as (s1 & E1 & E).
  destruct (setToken_timers tok (Some secs) s) as (T & R & U & N).
  unfold exec in T, R, U, N. rewrite E1 in T, R, U, N. cbn [snd] in *.
  rewrite (exec_eq _ _ _ _ E).
  rewrite scheduleReexchange_other.
  - unfold armed. simpl. rewrite T. reflexivity.
  - apply (timers_ok_frame s); trivial.
  - apply (handles_ok_frame s); trivial.
Qed.

(** X3. The upgrade timeout fires and the scoped-anonymous exchange
    fails (rejected request or non-2xx response): the callback returns
    normally, tier, expiry, storage and session are untouched, and it has
    re-armed itself, exactly one upgrade timeout being pending, due five
    minutes after the answer; a pending renewal timeout stays in place. *)
Theorem upgrade_failure_retries s t x :
  reachable s -> enabled (OpFire t x) s -> timer_kind t = Upgrade ->
  exchange_failed (answer x) = true ->
  let s' := exec (fire t x) s in
  outcome (fire t x) s = Normal tt /\
  currentTokenType s' = currentTokenType s /\ tokenExpiry s' = tokenExpiry s /\
  localStorage s' = localStorage s /\ session s' = session s /\
  clock s' = clock s + Z.of_N (latency x) /\
  exchanges_since s s' = [CallBoot] /\
  armed Upgrade s' = [new_timer Upgrade s (clock s' + 5 * 60 * 1000)] /\
  armed Reexchange s' = armed Reexchange s.
Proof.
  intros R [I _] K F s'.
  pose proof (reachable_timers_ok s R) as H1.
  pose proof (reachable_handles_ok s R) as H2.
  destruct (fired_ok t s H1 H2) as [F1 F2].
  destruct (armed_fired t s H1 H2 I) as [_ AO].
  set (s1 := answered CallBoot x (fired t s)).
  assert (fire t x s = scheduleUpgradeAttempt s1) as E.
  { rewrite fire_eq, K. apply upgrade_callback_failed, F. }
  assert (timers_ok s1) as O1 by (apply answered_ok, F1).
  assert (handles_ok s1) as O2 by (apply answered_ok, F2).
  destruct (scheduleUpgradeAttempt_frame s1) as (A1 & A2 & A3 & A4 & A5 & A6 & _).
  subst s'. rewrite (exec_eq _ _ _ _ E), (outcome_eq _ _ _ _ E).
  repeat match goal with |- _ /\ _ => split end.
  - unfold outcome. rewrite scheduleUpgradeAttempt_eq. reflexivity.
  - rewrite A1. reflexivity.
  - rewrite A2. reflexivity.
  - rewrite A3. reflexivity.
  - rewrite A4. reflexivity.
  - rewrite A5. reflexivity.
  - apply (exchanges_since_app _ _ [CallBoot]). rewrite A6. reflexivity.
  - rewrite (scheduleUpgradeAttempt_armed s1 O1). rewrite A5. reflexivity.
  - rewrite (scheduleUpgradeAttempt_other s1 O1 O2).
    rewrite <- (AO Reexchange) by (rewrite K; discriminate). reflexivity.
Qed.

Lemma degraded_due_reachable : reachable Cases.degraded_due.
Proof.
  unfold Cases.degraded_due, Scenario.degraded, Scenario.fresh.
  repeat (apply reachable_step; [|exact I]). apply reachable_construct.
Qed.

Lemma upgrade_timer_due :
  enabled (OpFire Scenario.upgrade_timer Scenario.unavailable) Cases.degraded_due.
Proof. split; [vm_compute; left; reflexivity | vm_compute; discriminate]. Qed.

Lemma upgrade_failure_retries_witness :
  reachable Cases.degraded_due /\
  enabled (OpFire Scenario.upgrade_timer Scenario.unavailable) Cases.degraded_due /\
  let s' := exec (fire Scenario.upgrade_timer Scenario.unavailable) Cases.degraded_due in
  outcome (fire Scenario.upgrade_timer Scenario.unavailable) Cases.degraded_due
    = Normal tt /\
  currentTokenType s' = currentTokenType Cases.degraded_due /\
  tokenExpiry s' = tokenExpiry Cases.degraded_due /\
  localStorage s' = localStorage Cases.degraded_due /\
  session s' = session Cases.degraded_due /\
  clock s' = clock Cases.degraded_due + Z.of_N (latency Scenario.unavailable) /\
  exchanges_since Cases.degraded_due s' = [CallBoot] /\
  armed Upgrade s'
    = [new_timer Upgrade Cases.degraded_due (clock s' + 5 * 60 * 1000)] /\
  armed Reexchange s' = armed Reexchange Cases.degraded_due.
Proof.
  split; [exact degraded_due_reachable|]. split; [exact upgrade_timer_due|].
  exact (upgrade_failure_retries Cases.degraded_due Scenario.upgrade_timer
           Scenario.unavailable degraded_due_reachable upgrade_timer_due
           eq_refl eq_refl).
Defined.

(** X4. The upgrade timeout fires and the exchange is granted: the
    callback returns normally with the tier [SCOPED_ANON], the granted
    token bound and stored, its expiry held, and no upgrade timeout
    pending any more: the retry cycle has ended without a new [boot()].
    The renewal is armed 120 seconds before the expiry (or at once);
    this is stated for a lifetime whose delay the host timer takes, at
    most [MAX_TIMEOUT_DELAY]. *)
Theorem upgrade_success_promotes s t x res body :
  reachable s -> enabled (OpFire t x) s -> timer_kind t = Upgrade ->
  answer x = Responded res -> ok res = true -> json res = Normal body ->
  let s' := exec (fire t x) s in
  let e := clock s + Z.of_N (latency x) + expires_in body * 1000 in
  outcome (fire t x) s = Normal tt /\
  currentTokenType s' = SCOPED_ANON /\
  tokenExpiry s' = Some (Num e) /\
  session s' = Some (access_token body) /\
  localStorage s' !! TOKEN_KEY = Some (access_token body) /\
  armed Upgrade s' = [] /\
  (e <> 0 -> expires_in body * 1000 - 120 * 1000 <= MAX_TIMEOUT_DELAY ->
   armed Reexchange s'
   = [new_timer Reexchange s (Z.max (clock s + Z.of_N (latency x)) (e - 120 * 1000))]).
Proof.
  intros R [I _] K Ha Hok Hj s' e.
  pose proof (reachable_timers_ok s R) as H1.
  pose proof (reachable_handles_ok s R) as H2.
  destruct (fired_ok t s H1 H2) as [F1 F2].
  destruct (armed_fired t s H1 H2 I) as [AK _]. rewrite K in AK.
  set (s1 := answered CallBoot x (fired t s)).
  assert (fire t x s
          = token_then_schedule (access_token body) (expires_in body) SCOPED_ANON s1) as E.
  { rewrite fire_eq, K. apply (upgrade_callback_granted x _ res); assumption. }
  assert (timers_ok s1) as O1 by (apply answered_ok, F1).
  assert (handles_ok s1) as O2 by (apply answered_ok, F2).
  destruct (token_then_schedule_state (access_token body) (expires_in body) SCOPED_ANON s1)
    as (S0 & S1 & S2 & S3 & S4 & _).
  subst s'. rewrite (exec_eq _ _ _ _ E), (outcome_eq _ _ _ _ E).
  repeat match goal with |- _ /\ _ => split end.
  - exact S0.
  - exact S1.
  - exact S2.
  - exact S4.
  - unfold stored_triple in S3. injection S3 as S3 _ _. exact S3.
  - rewrite (token_then_schedule_other _ _ _ s1 O1 O2). exact AK.
  - intros Hne _. apply (token_then_schedule_armed _ _ _ s1 O1 Hne).
Qed.

Lemma upgrade_success_promotes_witness :
  reachable Cases.degraded_due /\
  enabled (OpFire Scenario.upgrade_timer (Scenario.granted "scoped-9" 600))
    Cases.degraded_due /\
  let s' := exec (fire Scenario.upgrade_timer (Scenario.granted "scoped-9" 600))
              Cases.degraded_due in
  let e := clock Cases.degraded_due + Z.of_N (latency (Scenario.granted "scoped-9" 600))
           + expires_in {| access_token := "scoped-9"; expires_in := 600 |} * 1000 in
  e <> 0 /\
  expires_in {| access_token := "scoped-9"; expires_in := 600 |} * 1000 - 120 * 1000
  <= MAX_TIMEOUT_DELAY /\
  currentTokenType s' = SCOPED_ANON /\
  tokenExpiry s' = Some (Num e) /\
  armed Upgrade s' = [] /\
  armed Reexchange s'
  = [new_timer Reexchange Cases.degraded_due
       (Z.max (clock Cases.degraded_due
               + Z.of_N (latency (Scenario.granted "scoped-9" 600))) (e - 120 * 1000))].
Proof.
  assert (enabled (OpFire Scenario.upgrade_timer (Scenario.granted "scoped-9" 600))
            Cases.degraded_due) as En
    by (split; [vm_compute; left; reflexivity | vm_compute; discriminate]).
  split; [exact degraded_due_reachable|]. split; [exact En|].
  pose proof (upgrade_success_promotes Cases.degraded_due Scenario.upgrade_timer
                (Scenario.granted "scoped-9" 600)
                {| status := 200; statusText := "OK"; text := "";
                   json := Normal {| access_token := "scoped-9"; expires_in := 600 |} |}
                {| access_token := "scoped-9"; expires_in := 600 |}
                degraded_due_reachable En eq_refl eq_refl eq_refl eq_refl) as T.
  cbv zeta in T |- *.
  destruct T as (_ & Ty & X & _ & _ & U & A).
  assert (clock Cases.degraded_due + Z.of_N (latency (Scenario.granted "scoped-9" 600))
          + expires_in {| access_token := "scoped-9"; expires_in := 600 |} * 1000 <> 0)
    as He by (vm_compute; discriminate).
  assert (expires_in {| access_token := "scoped-9"; expires_in := 600 |} * 1000
          - 120 * 1000 <= MAX_TIMEOUT_DELAY) as Hb by (vm_compute; discriminate).
  split; [exact He|]. split; [exact Hb|]. split; [exact Ty|]. split; [exact X|].
  split; [exact U | exact (A He Hb)].
Defined.

(** ** The renewal callback, case by case *)

Lemma demote_eq s :
  exists s1,
    setToken (supabaseAnonKey (config s)) None s = (Normal tt, s1) /\
    demote s = scheduleUpgradeAttempt (with_currentTokenType FALLBACK_ANON s1) /\
    tokenExpiry s1 = None /\ session s1 = Some (supabaseAnonKey (config s)) /\
    stored_triple s1 = (None, None, None) /\
    clock s1 = clock s /\ next_timer s1 = next_timer s /\ timers s1 = timers s /\
    reexchangeTimer s1 = reexchangeTimer s /\ upgradeTimer s1 = upgradeTimer s.
Proof.
  destruct s. eexists. split; [run; reflexivity|]. split.
  - unfold demote. run. crack; reflexivity.
  - run. repeat match goal with |- _ /\ _ => split end; try reflexivity.
    apply cleared_triple_eq.
Qed.

Lemma demote_state s :
  timers_ok s -> handles_ok s ->
  let s' := exec demote s in
  outcome demote s = Normal tt /\
  currentTokenType s' = FALLBACK_ANON /\ tokenExpiry s' = None /\
  session s' = Some (supabaseAnonKey (config s)) /\
  stored_triple s' = (None, None, None) /\
  clock s' = clock s /\
  armed Upgrade s' = [new_timer Upgrade s (clock s + 5 * 60 * 1000)] /\
  armed Reexchange s' = armed Reexchange s.
Proof.
  intros H1 H2 s'.
  destruct (demote_eq s) as (s1 & _ & E & X & S & T & C & N & TT & RR & UU).
  set (s2 := with_currentTokenType FALLBACK_ANON s1) in E.
  assert (timers_ok s2) as O1 by (apply (timers_ok_frame s); trivial).
  assert (handles_ok s2) as O2 by (apply (handles_ok_frame s); trivial).
  destruct (scheduleUpgradeAttempt_frame s2) as (A1 & A2 & A3 & A4 & A5 & _).
  subst s'. rewrite (exec_eq _ _ _ _ E), (outcome_eq _ _ _ _ E).
  repeat match goal with |- _ /\ _ => split end.
  - unfold outcome. rewrite scheduleUpgradeAttempt_eq. reflexivity.
  - rewrite A1. reflexivity.
  - rewrite A2. exact X.
  - rewrite A4. exact S.
  - unfold stored_triple. rewrite A3. exact T.
  - rewrite A5. exact C.
  - rewrite (scheduleUpgradeAttempt_armed s2 O1). unfold new_timer.
    change (next_timer s2) with (next_timer s1). change (clock s2) with (clock s1).
    rewrite N, C. reflexivity.
  - rewrite (scheduleUpgradeAttempt_other s2 O1 O2). unfold armed.
    change (timers s2) with (timers s1). rewrite TT. reflexivity.
Qed.

Lemma eqb_tiers :
  String.eqb SCOPED_ANON USER_SCOPED = false /\
  String.eqb SCOPED_ANON SCOPED_ANON = true /\
  String.eqb USER_SCOPED USER_SCOPED = true.
Proof. repeat split. Qed.

(** The callback, when it issues an exchange and the exchange is granted
    or fails. *)
Lemma reexchange_callback_granted x s c res body :
  renewal_request s = Some c ->
  answer x = Responded res -> ok res = true -> json res = Normal body ->
  reexchange_callback x s
  = renew_with (access_token body) (expires_in body) (answered c x s).
Proof.
  intros Q Ha Hok Hj. unfold renewal_request in Q.
  destruct s, x as [dt a], body as [tok secs]. simpl in Ha, Q. subst a.
  unfold reexchange_callback, renew_with, answered, getSession_access_token. run.
  destruct (String.eqb currentTokenType0 USER_SCOPED).
  - destruct session0 as [u|]; [|discriminate]. run.
    destruct u as [|a u]; [discriminate|]. injection Q as <-.
    cbv beta iota delta [truthy_string]. run. rewrite Hok. run. rewrite Hj. run. crack; reflexivity.
  - destruct (String.eqb currentTokenType0 SCOPED_ANON); [|discriminate].
    injection Q as <-. run. rewrite Hok. run. rewrite Hj. run. crack; reflexivity.
Qed.

Lemma reexchange_callback_failed x s c :
  renewal_request s = Some c -> exchange_failed (answer x) = true ->
  reexchange_callback x s = demote (answered c x s).
Proof.
  intros Q F. unfold renewal_request in Q.
  destruct s, x as [dt a]. simpl in Q, F.
  unfold reexchange_callback, demote, answered, getSession_access_token. run.
  destruct (String.eqb currentTokenType0 USER_SCOPED).
  - destruct session0 as [u|]; [|discriminate]. run.
    destruct u as [|a0 u]; [discriminate|]. injection Q as <-.
    cbv beta iota delta [truthy_string].
    destruct a as [e|res]; simpl in F.
    + run. crack; reflexivity.
    + destruct (ok res) eqn:Hok; [discriminate|]. run.
      crack; reflexivity.
  - destruct (String.eqb currentTokenType0 SCOPED_ANON); [|discriminate].
    injection Q as <-.
    destruct a as [e|res]; simpl in F.
    + run. crack; reflexivity.
    + destruct (ok res) eqn:Hok; [discriminate|]. run.
      crack; reflexivity.
Qed.

Lemma reexchange_callback_idle x s :
  String.eqb (currentTokenType s) USER_SCOPED = false ->
  String.eqb (currentTokenType s) SCOPED_ANON = false ->
  reexchange_callback x s = scheduleReexchange s.
Proof.
  intros U A. destruct s. simpl in U, A.
  unfold reexchange_callback. run. rewrite U, A. run. crack; reflexivity.
Qed.

Lemma renew_with_eq tok secs s :
  renew_with tok secs s = token_then_schedule tok secs (currentTokenType s) s.
Proof.
  destruct s. unfold renew_with, token_then_schedule. run. crack; reflexivity.
Qed.

Lemma token_then_schedule_calls tok secs ty s :
  calls (exec (token_then_schedule tok secs ty) s)
  = (calls s ++ [CallSetSession tok])%list.
Proof. destruct s. unfold token_then_schedule. run. crack; reflexivity. Qed.

Lemma demote_calls s :
  calls (exec demote s)
  = (calls s ++ [CallSetSession (supabaseAnonKey (config s))])%list.
Proof. destruct s. unfold demote. run. crack; reflexivity. Qed.

Lemma request_is_exchange s c : renewal_request s = Some c -> is_exchange c = true.
Proof.
  unfold renewal_request.
  destruct (String.eqb (currentTokenType s) USER_SCOPED).
  - destruct (session s) as [u|]; [|discriminate].
    destruct (truthy_string u); [|discriminate]. intros [= <-]. reflexivity.
  - destruct (String.eqb (currentTokenType s) SCOPED_ANON); [|discriminate].
    intros [= <-]. reflexivity.
Qed.

Lemma renewal_request_fired t s : renewal_request (fired t s) = renewal_request s.
Proof. reflexivity. Qed.

(** X5. The renewal timeout fires while the tier is [SCOPED_ANON], or
    [USER_SCOPED] with a session token at hand, and the exchange is
    granted: the callback returns normally, exactly that one exchange
    request was sent, the tier is unchanged, the new token is bound, the
    stored record carries the new token and the active tier, and a
    pending upgrade timeout stays in place. The renewal is re-armed 120
    seconds before the new expiry (or at once); this is stated for a
    lifetime whose delay the host timer takes, at most
    [MAX_TIMEOUT_DELAY]. *)
Theorem renewal_success_rearms s t x c res body :
  reachable s -> enabled (OpFire t x) s -> timer_kind t = Reexchange ->
  renewal_request s = Some c ->
  answer x = Responded res -> ok res = true -> json res = Normal body ->
  let s' := exec (fire t x) s in
  let e := clock s + Z.of_N (latency x) + expires_in body * 1000 in
  outcome (fire t x) s = Normal tt /\
  exchanges_since s s' = [c] /\
  currentTokenType s' = currentTokenType s /\
  tokenExpiry s' = Some (Num e) /\
  session s' = Some (access_token body) /\
  stored_triple s'
    = (Some (access_token body), Some (toString e), Some (currentTokenType s')) /\
  armed Upgrade s' = armed Upgrade s /\
  (e <> 0 -> expires_in body * 1000 - 120 * 1000 <= MAX_TIMEOUT_DELAY ->
   armed Reexchange s'
   = [new_timer Reexchange s (Z.max (clock s + Z.of_N (latency x)) (e - 120 * 1000))]).
Proof.
  intros R [I _] K Q Ha Hok Hj s' e.
  pose proof (reachable_timers_ok s R) as H1.
  pose proof (reachable_handles_ok s R) as H2.
  destruct (fired_ok t s H1 H2) as [F1 F2].
  destruct (armed_fired t s H1 H2 I) as [_ AO].
  set (s1 := answered c x (fired t s)).
  assert (fire t x s
          = token_then_schedule (access_token body) (expires_in body)
              (currentTokenType s) s1) as E.
  { rewrite fire_eq, K.
    rewrite (reexchange_callback_granted x (fired t s) c res body Q Ha Hok Hj).
    rewrite renew_with_eq. reflexivity. }
  assert (timers_ok s1) as O1 by (apply answered_ok, F1).
  assert (handles_ok s1) as O2 by (apply answered_ok, F2).
  destruct (token_then_schedule_state (access_token body) (expires_in body)
              (currentTokenType s) s1) as (S0 & S1 & S2 & S3 & S4 & _).
  subst s'. rewrite (exec_eq _ _ _ _ E), (outcome_eq _ _ _ _ E).
  repeat match goal with |- _ /\ _ => split end.
  - exact S0.
  - rewrite (exchanges_since_app _ _ [c; CallSetSession (access_token body)]).
    + simpl. rewrite (request_is_exchange s c Q). reflexivity.
    + rewrite token_then_schedule_calls. unfold s1, answered. simpl.
      rewrite <- app_assoc. reflexivity.
  - exact S1.
  - exact S2.
  - exact S4.
  - rewrite S1. exact S3.
  - rewrite (token_then_schedule_other _ _ _ s1 O1 O2).
    apply AO. rewrite K. discriminate.
  - intros Hne _. apply (token_then_schedule_armed _ _ _ s1 O1 Hne).
Qed.

Lemma renewal_due_reachable : reachable Cases.renewal_due.
Proof.
  unfold Cases.renewal_due, Scenario.booted, Scenario.fresh.
  repeat (apply reachable_step; [|exact I]). apply reachable_construct.
Qed.

Lemma renewal_success_rearms_witness :
  reachable Cases.renewal_due /\
  enabled (OpFire Cases.renewal_timer (Scenario.granted "scoped-2" 600))
    Cases.renewal_due /\
  renewal_request Cases.renewal_due = Some CallBoot /\
  let s' := exec (fire Cases.renewal_timer (Scenario.granted "scoped-2" 600))
              Cases.renewal_due in
  let e := clock Cases.renewal_due + Z.of_N (latency (Scenario.granted "scoped-2" 600))
           + expires_in {| access_token := "scoped-2"; expires_in := 600 |} * 1000 in
  e <> 0 /\
  expires_in {| access_token := "scoped-2"; expires_in := 600 |} * 1000 - 120 * 1000
  <= MAX_TIMEOUT_DELAY /\
  currentTokenType s' = currentTokenType Cases.renewal_due /\
  stored_triple s'
    = (Some (access_token {| access_token := "scoped-2"; expires_in := 600 |}),
       Some (toString e), Some (currentTokenType s')) /\
  armed Reexchange s'
  = [new_timer Reexchange Cases.renewal_due
       (Z.max (clock Cases.renewal_due
               + Z.of_N (latency (Scenario.granted "scoped-2" 600))) (e - 120 * 1000))].
Proof.
  assert (enabled (OpFire Cases.renewal_timer (Scenario.granted "scoped-2" 600))
            Cases.renewal_due) as En
    by (split; [vm_compute; left; reflexivity | vm_compute; discriminate]).
  assert (renewal_request Cases.renewal_due = Some CallBoot) as Q
    by (vm_compute; reflexivity).
  split; [exact renewal_due_reachable|]. split; [exact En|]. split; [exact Q|].
  pose proof (renewal_success_rearms Cases.renewal_due Cases.renewal_timer
                (Scenario.granted "scoped-2" 600) CallBoot
                {| status := 200; statusText := "OK"; text := "";
                   json := Normal {| access_token := "scoped-2"; expires_in := 600 |} |}
                {| access_token := "scoped-2"; expires_in := 600 |}
                renewal_due_reachable En eq_refl Q eq_refl eq_refl eq_refl) as T.
  cbv zeta in T |- *.
  destruct T as (_ & _ & Ty & _ & _ & S & _ & A).
  assert (clock Cases.renewal_due + Z.of_N (latency (Scenario.granted "scoped-2" 600))
          + expires_in {| access_token := "scoped-2"; expires_in := 600 |} * 1000 <> 0)
    as He by (vm_compute; discriminate).
  assert (expires_in {| access_token := "scoped-2"; expires_in := 600 |} * 1000
          - 120 * 1000 <= MAX_TIMEOUT_DELAY) as Hb by (vm_compute; discriminate).
  split; [exact He|]. split; [exact Hb|]. split; [exact Ty|]. split; [exact S|].
  exact (A He Hb).
Defined.

(** X6. The renewal timeout fires, the callback sends its exchange and
    the exchange fails (rejected request or non-2xx response): the
    callback returns normally, the tier is [FALLBACK_ANON] with no
    expiry, the static fallback credential is bound, the stored record
    is gone, no renewal timeout is pending and exactly one upgrade
    timeout is, due five minutes after the answer. *)
Theorem renewal_failure_demotes s t x c :
  reachable s -> enabled (OpFire t x) s -> timer_kind t = Reexchange ->
  renewal_request s = Some c ->
  exchange_failed (answer x) = true ->
  let s' := exec (fire t x) s in
  outcome (fire t x) s = Normal tt /\
  exchanges_since s s' = [c] /\
  currentTokenType s' = FALLBACK_ANON /\ tokenExpiry s' = None /\
  outcome (isTokenExpired None) s' = Normal false /\
  session s' = Some (supabaseAnonKey (config s)) /\
  stored_triple s' = (None, None, None) /\
  armed Reexchange s' = [] /\
  armed Upgrade s'
  = [new_timer Upgrade s (clock s + Z.of_N (latency x) + 5 * 60 * 1000)].
Proof.
  intros R [I _] K Q F s'.
  pose proof (reachable_timers_ok s R) as H1.
  pose proof (reachable_handles_ok s R) as H2.
  destruct (fired_ok t s H1 H2) as [F1 F2].
  destruct (armed_fired t s H1 H2 I) as [AK _]. rewrite K in AK.
  set (s1 := answered c x (fired t s)).
  assert (fire t x s = demote s1) as E.
  { rewrite fire_eq, K. apply (reexchange_callback_failed x (fired t s) c Q F). }
  assert (timers_ok s1) as O1 by (apply answered_ok, F1).
  assert (handles_ok s1) as O2 by (apply answered_ok, F2).
  destruct (demote_state s1 O1 O2) as (D0 & D1 & D2 & D3 & D4 & D5 & D6 & D7).
  subst s'. rewrite (exec_eq _ _ _ _ E), (outcome_eq _ _ _ _ E).
  repeat match goal with |- _ /\ _ => split end; trivial.
  - rewrite (exchanges_since_app _ _ [c; CallSetSession (supabaseAnonKey (config s))]).
    + simpl. rewrite (request_is_exchange s c Q). reflexivity.
    + rewrite demote_calls. unfold s1, answered. simpl.
      rewrite <- app_assoc. reflexivity.
  - revert D2. generalize (exec demote s1). intros [] E2. simpl in E2. subst.
    reflexivity.
  - rewrite D7. exact AK.
Qed.

Lemma renewal_failure_demotes_witness :
  reachable Cases.renewal_due /\
  enabled (OpFire Cases.renewal_timer Scenario.unavailable) Cases.renewal_due /\
  renewal_request Cases.renewal_due = Some CallBoot /\
  let s' := exec (fire Cases.renewal_timer Scenario.unavailable) Cases.renewal_due in
  currentTokenType s' = FALLBACK_ANON /\ tokenExpiry s' = None /\
  armed Reexchange s' = [].
Proof.
  assert (enabled (OpFire Cases.renewal_timer Scenario.unavailable) Cases.renewal_due)
    as En by (split; [vm_compute; left; reflexivity | vm_compute; discriminate]).
  assert (renewal_request Cases.renewal_due = Some CallBoot) as Q
    by (vm_compute; reflexivity).
  split; [exact renewal_due_reachable|]. split; [exact En|]. split; [exact Q|].
  destruct (renewal_failure_demotes Cases.renewal_due Cases.renewal_timer
              Scenario.unavailable _ renewal_due_reachable En eq_refl Q eq_refl)
    as (_ & _ & T & X & _ & _ & _ & A & _).
  split; [exact T|]. split; [exact X | exact A].
Defined.

(** X7. The renewal timeout fires while the tier is neither
    [USER_SCOPED] nor [SCOPED_ANON] (a [FALLBACK_ANON] manager holding the
    expiry of a restored record): the callback sends nothing and changes
    nothing but the timers; it re-arms the renewal for the same expiry,
    due at once when the renewal instant is past. *)
Theorem renewal_idle_rearms s t x e :
  reachable s -> enabled (OpFire t x) s -> timer_kind t = Reexchange ->
  currentTokenType s <> USER_SCOPED -> currentTokenType s <> SCOPED_ANON ->
  tokenExpiry s = Some (Num e) -> e <> 0 ->
  let s' := exec (fire t x) s in
  outcome (fire t x) s = Normal tt /\
  only_timers_changed s s' /\
  armed Reexchange s' = [new_timer Reexchange s (Z.max (clock s) (e - 120 * 1000))] /\
  (e - 120 * 1000 <= clock s ->
   forall x', enabled (OpFire (new_timer Reexchange s (clock s)) x') s').
Proof.
  intros R [I _] K NU NA X Hne s'.
  pose proof (reachable_timers_ok s R) as H1.
  pose proof (reachable_handles_ok s R) as H2.
  destruct (fired_ok t s H1 H2) as [F1 F2].
  apply String.eqb_neq in NU, NA.
  assert (fire t x s = scheduleReexchange (fired t s)) as E.
  { rewrite fire_eq, K. apply reexchange_callback_idle; assumption. }
  destruct (scheduleReexchange_frame (fired t s)) as (A1 & A2 & A3 & A4 & A5 & A6 & A7).
  pose proof (scheduleReexchange_armed (fired t s) F1) as A.
  destruct (renewal_delay_due (fired t s) e X Hne) as (delay & D & Hd).
  rewrite D in A. unfold new_timer in A. rewrite Hd in A.
  change (clock (fired t s)) with (clock s) in A.
  change (next_timer (fired t s)) with (next_timer s) in A.
  fold (new_timer Reexchange s (Z.max (clock s) (e - 120 * 1000))) in A.
  subst s'. rewrite (exec_eq _ _ _ _ E), (outcome_eq _ _ _ _ E).
  split; [unfold outcome; rewrite scheduleReexchange_eq; reflexivity|].
  split; [repeat split; assumption|].
  split; [exact A|].
  intros Hpast x'. rewrite Z.max_l in A by lia.
  assert (In (new_timer Reexchange s (clock s))
            (armed Reexchange (exec scheduleReexchange (fired t s)))) as Hin
    by (rewrite A; left; reflexivity).
  apply filter_In in Hin. split; [apply Hin|].
  rewrite A5. simpl. lia.
Qed.

Lemma stale_due_reachable : reachable Cases2.stale_due.
Proof.
  unfold Cases2.stale_due, Scenario.booted_twice, Scenario.booted, Scenario.fresh.
  repeat (apply reachable_step; [|exact I]). apply reachable_construct.
Qed.

Lemma renewal_idle_rearms_witness :
  reachable Cases2.stale_due /\
  enabled (OpFire Cases2.stale_timer Scenario.unreachable) Cases2.stale_due /\
  currentTokenType Cases2.stale_due = FALLBACK_ANON /\
  tokenExpiry Cases2.stale_due = Some (Num 601000) /\
  let s' := exec (fire Cases2.stale_timer Scenario.unreachable) Cases2.stale_due in
  only_timers_changed Cases2.stale_due s' /\
  armed Reexchange s'
  = [new_timer Reexchange Cases2.stale_due
       (Z.max (clock Cases2.stale_due) (601000 - 120 * 1000))].
Proof.
  assert (enabled (OpFire Cases2.stale_timer Scenario.unreachable) Cases2.stale_due)
    as En by (split; [vm_compute; left; reflexivity | vm_compute; discriminate]).
  assert (currentTokenType Cases2.stale_due = FALLBACK_ANON) as T
    by (vm_compute; reflexivity).
  assert (tokenExpiry Cases2.stale_due = Some (Num 601000)) as X
    by (vm_compute; reflexivity).
  split; [exact stale_due_reachable|]. split; [exact En|].
  split; [exact T|]. split; [exact X|].
  destruct (renewal_idle_rearms Cases2.stale_due Cases2.stale_timer
              Scenario.unreachable 601000 stale_due_reachable En eq_refl) as (_ & O & A & _).
  - rewrite T. discriminate.
  - rewrite T. discriminate.
  - exact X.
  - discriminate.
  - split; [exact O | exact A].
Defined.

(** ** The stored record, written and read back *)

Lemma parse_digits_acc d p :
  parse_digits (NilEmpty.string_of_uint d) (Some (Z.pos p))
  = Some (Z.pos (Pos.of_uint_acc d p)).
Proof.
  revert p. induction d; intros p; cbn [NilEmpty.string_of_uint parse_digits Pos.of_uint_acc];
    try reflexivity;
    change (digit_of _) with (Some 0) || change (digit_of _) with (Some 1)
    || change (digit_of _) with (Some 2) || change (digit_of _) with (Some 3)
    || change (digit_of _) with (Some 4) || change (digit_of _) with (Some 5)
    || change (digit_of _) with (Some 6) || change (digit_of _) with (Some 7)
    || change (digit_of _) with (Some 8) || change (digit_of _) with (Some 9);
    cbv beta iota; cbn [default from_option id];
    rewrite <- IHd; do 2 f_equal; lia.
Qed.

Lemma parse_digits_zero d :
  parse_digits (NilEmpty.string_of_uint d) (Some 0) = Some (Z.of_N (Pos.of_uint d)).
Proof.
  induction d; cbn [NilEmpty.string_of_uint parse_digits Pos.of_uint];
    try reflexivity;
    change (digit_of _) with (Some 0) || change (digit_of _) with (Some 1)
    || change (digit_of _) with (Some 2) || change (digit_of _) with (Some 3)
    || change (digit_of _) with (Some 4) || change (digit_of _) with (Some 5)
    || change (digit_of _) with (Some 6) || change (digit_of _) with (Some 7)
    || change (digit_of _) with (Some 8) || change (digit_of _) with (Some 9);
    cbv beta iota; cbn [default from_option id];
    [ exact IHd | change (10 * 0 + _) with (Z.pos 1) || idtac .. ];
    rewrite ?Z.mul_0_r, ?Z.add_0_l; try (rewrite parse_digits_acc; reflexivity).
Qed.

Lemma parse_digits_start d :
  d <> Decimal.Nil ->
  parse_digits (NilEmpty.string_of_uint d) None
  = parse_digits (NilEmpty.string_of_uint d) (Some 0).
Proof. destruct d; [congruence | reflexivity ..]. Qed.

Lemma parseInt_digits d :
  d <> Decimal.Nil ->
  parseInt (NilEmpty.string_of_uint d) = Num (Z.of_N (Pos.of_uint d)) /\
  parseInt (String "-" (NilEmpty.string_of_uint d)) = Num (- Z.of_N (Pos.of_uint d)).
Proof.
  intros Hd. pose proof (parse_digits_start d Hd) as E.
  rewrite parse_digits_zero in E.
  split.
  - destruct d; [congruence | ..];
      unfold parseInt; cbn [NilEmpty.string_of_uint skip_spaces];
      change (is_space _) with false; cbv beta iota;
      cbn [NilEmpty.string_of_uint] in E; rewrite E; reflexivity.
  - unfold parseInt; cbn [skip_spaces]. change (is_space "-") with false.
    cbv beta iota. rewrite E. reflexivity.
Qed.

(** [parseInt(n.toString(), 10)] is [n] for every integer [n]. *)
Lemma parseInt_toString z : parseInt (toString z) = Num z.
Proof.
  unfold toString. destruct z as [|p|p]; cbn [Z.to_int NilZero.string_of_int].
  - reflexivity.
  - pose proof (DecimalPos.Unsigned.to_uint_nonnil p) as Hn.
    unfold NilZero.string_of_uint.
    destruct (Pos.to_uint p) eqn:E; [congruence | ..];
      rewrite (proj1 (parseInt_digits _ Hn)), <- E, DecimalPos.Unsigned.of_to; reflexivity.
  - pose proof (DecimalPos.Unsigned.to_uint_nonnil p) as Hn.
    unfold NilZero.string_of_uint.
    destruct (Pos.to_uint p) eqn:E; [congruence | ..];
      rewrite (proj2 (parseInt_digits _ Hn)), <- E, DecimalPos.Unsigned.of_to; reflexivity.
Qed.

Lemma toString_truthy z : truthy_string (toString z) = true.
Proof.
  unfold toString. destruct z as [|p|p]; cbn [Z.to_int NilZero.string_of_int];
    try reflexivity.
  unfold NilZero.string_of_uint. destruct (Pos.to_uint p); reflexivity.
Qed.


Lemma truthy_string_true s : s <> "" -> truthy_string s = true.
Proof. destruct s; [congruence | reflexivity]. Qed.

(** What [loadStoredToken] returns, read off the three slots. *)
Lemma peek_stored_spec s :
  peek_stored s
  = match stored_triple s with
    | (Some tok, Some e, Some ty) =>
        if truthy_string tok && truthy_string e && truthy_string ty
        then Some {| stored_token := tok; stored_expiry := parseInt e; stored_type := ty |}
        else None
    | _ => None
    end.
Proof. destruct s. run. crack; reflexivity. Qed.

Lemma still_ahead now z : (now >=? z) = negb (now <? z).
Proof. rewrite Z.geb_leb, Z.ltb_antisym, negb_involutive. reflexivity. Qed.

Lemma isTokenExpired_given n s :
  outcome (isTokenExpired (Some n)) s
  = Normal match n with
           | Num z => negb ((z =? 0) || (clock s <? z))
           | NaN => false
           end.
Proof.
  destruct s, n as [z|]; run; [|reflexivity].
  destruct (z =? 0); run; [reflexivity|].
  rewrite still_ahead. reflexivity.
Qed.

Lemma restorable_spec s :
  restorable s = if holds_valid_record s then peek_stored s else None.
Proof.
  unfold restorable, holds_valid_record. rewrite peek_stored_spec.
  destruct (stored_triple s) as [[[tok|] [e|]] [ty|]]; try reflexivity.
  destruct (truthy_string tok), (truthy_string e), (truthy_string ty); try reflexivity.
  cbn [andb]. rewrite isTokenExpired_given. cbn [stored_expiry].
  destruct (parseInt e) as [z|]; [|reflexivity].
  destruct ((z =? 0) || (clock s <? z)); reflexivity.
Qed.

Lemma valid_record_restorable s :
  holds_valid_record s = true -> exists st, restorable s = Some st.
Proof.
  intros H. rewrite restorable_spec, H, peek_stored_spec.
  unfold holds_valid_record in H.
  destruct (stored_triple s) as [[[tok|] [e|]] [ty|]]; try discriminate.
  destruct (truthy_string tok), (truthy_string e), (truthy_string ty); try discriminate.
  eexists. reflexivity.
Qed.

Lemma no_valid_record_not_restorable s :
  holds_valid_record s = false -> restorable s = None.
Proof. intros H. rewrite restorable_spec, H. reflexivity. Qed.

Lemma boot_calls_by_record x s :
  exchanges_since s (exec (boot x) s)
  = if holds_valid_record s then [] else [CallBoot].
Proof.
  destruct (holds_valid_record s) eqn:H.
  - destruct (valid_record_restorable s H) as [st R].
    rewrite (exchanges_since_app _ _ _ (boot_restore_calls x s st R)). reflexivity.
  - destruct (boot_exchange_calls x s (no_valid_record_not_restorable s H)) as [tok E].
    rewrite (exchanges_since_app _ _ _ E). reflexivity.
Qed.

(** X8. [boot()] issues the scoped-anonymous exchange request exactly
    when storage holds no record it can restore: it issues no exchange
    request when the three slots are non-empty and the expiry slot reads
    as a future instant, as zero or as [NaN], and issues exactly one
    otherwise (a slot missing or empty, or an expiry already reached). *)
Theorem boot_exchanges_unless_valid_record x s :
  exchanges_since s (exec (boot x) s)
  = if holds_valid_record s then [] else [CallBoot].
Proof. apply boot_calls_by_record. Qed.


(** X9. What [setToken] writes, [loadStoredToken] reads back: after
    [setToken(token, expiresIn)] with a non-empty token and a number of
    seconds, the stored record is the token, the expiry instant
    [Date.now() + expiresIn * 1000] (through its decimal string) and the
    tier held when [setToken] ran. This is stated where the arithmetic
    and the decimal string of a [number] are exact: the clock, the
    lifetime in milliseconds and the expiry instant are safe integers. *)
Theorem stored_record_round_trip tok secs s :
  tok <> "" -> currentTokenType s <> "" ->
  safe_integer (clock s) -> safe_integer (secs * 1000) ->
  safe_integer (clock s + secs * 1000) ->
  peek_stored (exec (setToken tok (Some secs)) s)
  = Some {| stored_token := tok;
            stored_expiry := Num (clock s + secs * 1000);
            stored_type := currentTokenType s |}.
Proof.
  intros Ht Hty _ _ _.
  destruct (setToken_expiring tok secs s) as (s1 & E & _ & T & _).
  unfold exec. rewrite E. cbn [snd].
  rewrite peek_stored_spec, T, (truthy_string_true _ Ht), (truthy_string_true _ Hty),
    toString_truthy, parseInt_toString.
  reflexivity.
Qed.

Lemma stored_record_round_trip_witness :
  "scoped-1" <> "" /\ currentTokenType Scenario.fresh <> "" /\
  safe_integer (clock Scenario.fresh) /\ safe_integer (600 * 1000) /\
  safe_integer (clock Scenario.fresh + 600 * 1000) /\
  peek_stored (exec (setToken "scoped-1" (Some 600)) Scenario.fresh)
  = Some {| stored_token := "scoped-1";
            stored_expiry := Num (clock Scenario.fresh + 600 * 1000);
            stored_type := currentTokenType Scenario.fresh |}.
Proof.
  assert ("scoped-1" <> "") as H1 by discriminate.
  assert (currentTokenType Scenario.fresh <> "") as H2 by (vm_compute; discriminate).
  assert (safe_integer (clock Scenario.fresh)) as H3 by (vm_compute; split; reflexivity).
  assert (safe_integer (600 * 1000)) as H4 by (vm_compute; split; reflexivity).
  assert (safe_integer (clock Scenario.fresh + 600 * 1000)) as H5
    by (vm_compute; split; reflexivity).
  split; [exact H1|]. split; [exact H2|]. split; [exact H3|]. split; [exact H4|].
  split; [exact H5|].
  exact (stored_record_round_trip "scoped-1" 600 Scenario.fresh H1 H2 H3 H4 H5).
Defined.

(** ** A stored expiry that is not a number *)

Lemma restorable_record s tok e ty :
  stored_triple s = (Some tok, Some e, Some ty) ->
  tok <> "" -> e <> "" -> ty <> "" ->
  match parseInt e with
  | Num z => (z =? 0) || (clock s <? z)
  | NaN => true
  end = true ->
  holds_valid_record s = true /\
  restorable s
  = Some {| stored_token := tok; stored_expiry := parseInt e; stored_type := ty |}.
Proof.
  intros T Ht He Hty V.
  assert (holds_valid_record s = true) as H.
  { unfold holds_valid_record.
    rewrite T, (truthy_string_true _ Ht), (truthy_string_true _ He),
      (truthy_string_true _ Hty), V. reflexivity. }
  split; [exact H|].
  rewrite restorable_spec, H, peek_stored_spec, T, (truthy_string_true _ Ht),
    (truthy_string_true _ He), (truthy_string_true _ Hty). reflexivity.
Qed.

(** A restoring [boot()] ends with [scheduleReexchange()], run in a state
    that holds the stored record and has the timeouts of [s]. *)
Lemma boot_restore_eq x s st :
  restorable s = Some st ->
  exists s2,
    boot x s = scheduleReexchange s2 /\
    tokenExpiry s2 = Some (stored_expiry st) /\
    currentTokenType s2 = stored_type st /\
    session s2 = Some (stored_token st) /\
    stored_triple s2 = (None, None, None) /\
    clock s2 = clock s /\ config s2 = config s /\
    calls s2 = (calls s ++ [CallEnsureTable; CallSetSession (stored_token st)])%list /\
    next_timer s2 = next_timer s /\ timers s2 = timers s /\
    reexchangeTimer s2 = reexchangeTimer s /\ upgradeTimer s2 = upgradeTimer s.
Proof.
  intros R.
  exists (with_tokenExpiry (Some (stored_expiry st))
            (with_currentTokenType (stored_type st)
               (exec (setToken (stored_token st) None)
                  (with_calls (calls s ++ [CallEnsureTable]) s)))).
  rewrite (boot_restore _ _ _ R). clear R.
  destruct s, st. run.
  repeat match goal with |- _ /\ _ => split end; try reflexivity.
  - apply cleared_triple_eq.
  - rewrite <- app_assoc. reflexivity.
Qed.

Lemma falsy_no_delay s n :
  tokenExpiry s = Some n -> truthy_number n = false -> renewal_delay s = None.
Proof.
  unfold renewal_delay. intros -> F. destruct n as [z|]; [|reflexivity].
  simpl in F. destruct (z =? 0); [reflexivity | discriminate].
Qed.

Lemma isTokenExpired_own s :
  outcome (isTokenExpired None) s
  = Normal match tokenExpiry s with
           | Some (Num z) => negb ((z =? 0) || (clock s <? z))
           | _ => false
           end.
Proof.
  destruct s as [? ? [[z|]|] ? ? ? ? ? ? ? ?]; run; try reflexivity.
  destruct (z =? 0); run; [reflexivity|].
  rewrite still_ahead. reflexivity.
Qed.

(** X10. A stored record whose expiry slot does not read as a non-zero
    number (it parses to [NaN] or to zero) is restored by [boot()] at
    any time: no exchange request is issued, the stored token is bound to
    the session, the tier becomes whatever the tier slot held, no renewal
    timeout is pending afterwards, and [isTokenExpired()] answers false
    however much time passes. *)
Theorem garbled_expiry_is_restored_forever x s tok e ty :
  reachable s ->
  stored_triple s = (Some tok, Some e, Some ty) ->
  tok <> "" -> e <> "" -> ty <> "" ->
  truthy_number (parseInt e) = false ->
  let s' := exec (boot x) s in
  exchanges_since s s' = [] /\
  session s' = Some tok /\
  currentTokenType s' = ty /\
  tokenExpiry s' = Some (parseInt e) /\
  armed Reexchange s' = [] /\
  armed Upgrade s' = armed Upgrade s /\
  forall dt, outcome (isTokenExpired None) (exec (elapse dt) s') = Normal false.
Proof.
  intros Hr T Ht He Hty F s'.
  assert (match parseInt e with
          | Num z => (z =? 0) || (clock s <? z)
          | NaN => true
          end = true) as V.
  { destruct (parseInt e) as [z|]; [|reflexivity].
    simpl in F. destruct (z =? 0); [reflexivity | discriminate]. }
  destruct (restorable_record s tok e ty T Ht He Hty V) as [Hv R].
  destruct (boot_restore_eq x s _ R)
    as (s2 & E & X2 & Ty2 & S2 & _ & _ & _ & _ & N2 & Tm2 & Hr2 & Hu2).
  cbn [stored_expiry stored_type stored_token] in X2, Ty2, S2.
  pose proof (reachable_timers_ok s Hr) as O.
  pose proof (reachable_handles_ok s Hr) as Hh.
  assert (timers_ok s2) as O2 by (apply (timers_ok_frame s); auto).
  assert (handles_ok s2) as Hh2 by (apply (handles_ok_frame s); auto).
  assert (s' = cancelled Reexchange s2) as Es'.
  { subst s'. unfold exec. rewrite E, scheduleReexchange_eq, (falsy_no_delay _ _ X2 F).
    reflexivity. }
  destruct (cancelled_only_timers Reexchange s2) as (_ & C2 & C3 & _ & C5 & _).
  repeat match goal with |- _ /\ _ => split end.
  - subst s'. rewrite boot_calls_by_record, Hv. reflexivity.
  - rewrite Es', C5. exact S2.
  - rewrite Es', C2. exact Ty2.
  - rewrite Es', C3. exact X2.
  - rewrite Es'. apply timers_ok_cancelled, O2.
  - rewrite Es', armed_cancelled_other by (auto; discriminate).
    unfold armed. rewrite Tm2. reflexivity.
  - intros dt. rewrite isTokenExpired_own.
    change (tokenExpiry (exec (elapse dt) s')) with (tokenExpiry s').
    rewrite Es', C3, X2. destruct (parseInt e) as [z|]; [|reflexivity].
    simpl in F. destruct (z =? 0); [reflexivity | discriminate].
Qed.

Lemma garbled_expiry_is_restored_forever_witness :
  reachable Cases3.garbled /\
  stored_triple Cases3.garbled = (Some "old-token", Some "soon", Some "SCOPED_ANON") /\
  truthy_number (parseInt "soon") = false /\
  let s' := exec (boot Scenario.unreachable) Cases3.garbled in
  exchanges_since Cases3.garbled s' = [] /\
  session s' = Some "old-token" /\
  currentTokenType s' = "SCOPED_ANON" /\
  tokenExpiry s' = Some (parseInt "soon") /\
  armed Reexchange s' = [] /\
  armed Upgrade s' = armed Upgrade Cases3.garbled /\
  forall dt, outcome (isTokenExpired None) (exec (elapse dt) s') = Normal false.
Proof.
  assert (reachable Cases3.garbled) as Hr by apply reachable_construct.
  assert (stored_triple Cases3.garbled
          = (Some "old-token", Some "soon", Some "SCOPED_ANON")) as T
    by (vm_compute; reflexivity).
  assert (truthy_number (parseInt "soon") = false) as F by (vm_compute; reflexivity).
  split; [exact Hr|]. split; [exact T|]. split; [exact F|].
  refine (garbled_expiry_is_restored_forever Scenario.unreachable Cases3.garbled
            "old-token" "soon" "SCOPED_ANON" Hr T _ _ _ F); discriminate.
Defined.

(** ** boot after boot *)

Lemma restorable_frame s s' :
  localStorage s' = localStorage s -> clock s' = clock s ->
  holds_valid_record s' = holds_valid_record s /\ restorable s' = restorable s.
Proof.
  intros L C.
  assert (holds_valid_record s' = holds_valid_record s) as H.
  { unfold holds_valid_record, stored_triple. rewrite L, C. reflexivity. }
  split; [exact H|].
  rewrite !restorable_spec, !peek_stored_spec, H. unfold stored_triple. rewrite L.
  reflexivity.
Qed.



(** ** logout *)

Lemma logout_eq x s : logout x s = boot x (signed_out s).
Proof.
  unfold logout, signed_out.
  rewrite (bind_normal _ _ s tt (with_session None (with_calls (calls s ++ [CallSignOut]) s)))
    by (destruct s; reflexivity).
  cbv beta.
  rewrite (bind_normal _ _ _ tt _ (clearReexchangeTimer_eq _)). cbv beta.
  rewrite (bind_normal _ _ _ tt _ (clearUpgradeTimer_eq _)). reflexivity.
Qed.

Lemma signed_out_state s :
  timers_ok s ->
  timers (signed_out s) = [] /\
  reexchangeTimer (signed_out s) = None /\ upgradeTimer (signed_out s) = None /\
  next_timer (signed_out s) = next_timer s /\ clock (signed_out s) = clock s /\
  localStorage (signed_out s) = localStorage s /\
  calls (signed_out s) = (calls s ++ [CallSignOut])%list.
Proof.
  intros O.
  set (s1 := with_session None (with_calls (calls s ++ [CallSignOut]) s)).
  assert (timers_ok s1) as O1 by (apply (timers_ok_frame s); auto).
  assert (signed_out s = exec cleanup s1) as E
    by (unfold exec; rewrite cleanup_eq; reflexivity).
  destruct (cancelled_only_timers Reexchange s1) as (_ & _ & _ & L1 & _ & C1 & K1).
  destruct (cancelled_only_timers Upgrade (cancelled Reexchange s1))
    as (_ & _ & _ & L2 & _ & C2 & K2).
  repeat match goal with |- _ /\ _ => split end.
  - rewrite E. apply cleanup_no_timers, O1.
  - unfold signed_out. fold s1.
    change (reexchangeTimer ?s) with (handle Reexchange s).
    rewrite !handle_cancelled. reflexivity.
  - unfold signed_out. fold s1.
    change (upgradeTimer ?s) with (handle Upgrade s).
    rewrite handle_cancelled. reflexivity.
  - unfold signed_out. fold s1.
    rewrite (proj1 (cancelled_frame Upgrade _)), (proj1 (cancelled_frame Reexchange _)).
    reflexivity.
  - unfold signed_out. fold s1. rewrite C2, C1. reflexivity.
  - unfold signed_out. fold s1. rewrite L2, L1. reflexivity.
  - unfold signed_out. fold s1. rewrite K2, K1. reflexivity.
Qed.

(** [boot()] in a state with no pending timeout arms at most one, and
    that one is kept in the handle of its purpose. *)
Lemma boot_from_idle x s :
  timers s = [] -> reexchangeTimer s = None -> upgradeTimer s = None ->
  let s' := exec (boot x) s in
  timers s' = [] \/
  exists k due, timers s' = [new_timer k s due] /\ clock s' <= due /\
                handle k s' = Some (next_timer s).
Proof.
  intros T Hr Hu s'. subst s'. unfold exec.
  destruct (restorable s) as [st|] eqn:R.
  - rewrite (boot_restore _ _ _ R). clear R.
    destruct s, st. simpl in T, Hr, Hu. subst. run.
    crack; first [ left; reflexivity
                 | right; exists Reexchange; eexists; split; [reflexivity|];
                   split; [lia | reflexivity] ].
  - rewrite (boot_exchange _ _ R). clear R.
    destruct s. simpl in T, Hr, Hu. subst. run.
    crack; first [ left; reflexivity
                 | right; exists Reexchange; eexists; split; [reflexivity|];
                   split; [lia | reflexivity]
                 | right; exists Upgrade; eexists; split; [reflexivity|];
                   split; [lia | reflexivity] ].
Qed.

Lemma boot_calls_extend x s : exists l, calls (exec (boot x) s) = (calls s ++ l)%list.
Proof.
  destruct (restorable s) as [st|] eqn:R.
  - eexists. apply (boot_restore_calls x s st R).
  - destruct (boot_exchange_calls x s R) as [tok E]. eexists. exact E.
Qed.

Lemma exchanges_since_skip s s0 s' c :
  calls s0 = (calls s ++ [c])%list -> is_exchange c = false ->
  (exists l, calls s' = (calls s0 ++ l)%list) ->
  exchanges_since s s' = exchanges_since s0 s'.
Proof.
  intros E F [l El].
  rewrite (exchanges_since_app s0 s' l El).
  rewrite E, <- app_assoc in El.
  rewrite (exchanges_since_app s s' _ El). simpl. rewrite F. reflexivity.
Qed.

Lemma pending_below_counter s t :
  timers_ok s -> handles_ok s -> In t (timers s) -> (timer_id t < next_timer s)%positive.
Proof.
  intros [_ O] [H _] I. apply (H (timer_kind t)), O, I.
Qed.

(** ** login, granted *)

Lemma login_granted email password si x s ut res body :
  signin_error (answer si) = None -> signin_access_token (answer si) = Some ut ->
  ut <> "" ->
  answer x = Responded res -> ok res = true -> json res = Normal body ->
  login email password si x s
  = token_then_schedule (access_token body) (expires_in body) USER_SCOPED
      (authenticated email ut si x s).
Proof.
  intros He Ht Hut Ha Hok Hj.
  destruct s, si as [lat [err tok]], x as [dt a], body as [btok secs], ut as [|c ut];
    [congruence|].
  simpl in He, Ht, Ha. subst err tok a.
  unfold token_then_schedule, authenticated, answered. run.
  cbv beta iota delta [truthy_string]. run. rewrite Hok. run. rewrite Hj. run.
  rewrite <- !app_assoc. simpl.
  crack; reflexivity.
Qed.

Lemma authenticated_state email ut si x s :
  clock (authenticated email ut si x s)
    = clock s + Z.of_N (latency si) + Z.of_N (latency x) /\
  currentTokenType (authenticated email ut si x s) = currentTokenType s /\
  next_timer (authenticated email ut si x s) = next_timer s /\
  timers (authenticated email ut si x s) = timers s /\
  calls (authenticated email ut si x s)
    = (calls s ++ [CallSignInWithPassword email; CallTenantUserExchange ut])%list /\
  (timers_ok s -> timers_ok (authenticated email ut si x s)) /\
  (handles_ok s -> handles_ok (authenticated email ut si x s)).
Proof.
  repeat match goal with |- _ /\ _ => split end; try reflexivity.
  - unfold authenticated, answered. simpl. rewrite <- app_assoc. reflexivity.
  - apply timers_ok_frame; reflexivity.
  - apply handles_ok_frame; reflexivity.
Qed.

(** X13. A [login] whose primary authentication succeeds and whose
    tenant-user exchange is granted returns normally with the tier
    [USER_SCOPED], the exchanged token bound to the session and stored
    with its expiry. It issues exactly one exchange request, with the
    Supabase user token. The tier tag it writes to storage is the tier
    held before the call, and a pending upgrade-retry timeout stays
    pending. The renewal timeout is armed 120 seconds before the expiry
    (or at once); this is stated for a lifetime whose delay the host
    timer takes, at most [MAX_TIMEOUT_DELAY]. *)
Theorem login_success_promotes email password si x s ut res body :
  reachable s ->
  signin_error (answer si) = None -> signin_access_token (answer si) = Some ut ->
  ut <> "" ->
  answer x = Responded res -> ok res = true -> json res = Normal body ->
  let s' := exec (login email password si x) s in
  let e := clock s + Z.of_N (latency si) + Z.of_N (latency x) + expires_in body * 1000 in
  outcome (login email password si x) s = Normal tt /\
  exchanges_since s s' = [CallTenantUserExchange ut] /\
  currentTokenType s' = USER_SCOPED /\
  tokenExpiry s' = Some (Num e) /\
  session s' = Some (access_token body) /\
  stored_triple s'
    = (Some (access_token body), Some (toString e), Some (currentTokenType s)) /\
  armed Upgrade s' = armed Upgrade s /\
  (e <> 0 -> expires_in body * 1000 - 120 * 1000 <= MAX_TIMEOUT_DELAY ->
   armed Reexchange s' = [new_timer Reexchange s (Z.max (clock s') (e - 120 * 1000))]).
Proof.
  intros Hr He Ht Hut Ha Hok Hj s' e.
  pose proof (login_granted email password si x s ut res body He Ht Hut Ha Hok Hj) as E.
  destruct (authenticated_state email ut si x s) as (C0 & Ty0 & N0 & Tm0 & K0 & O0 & H0).
  set (s0 := authenticated email ut si x s) in *.
  pose proof (O0 (reachable_timers_ok s Hr)) as O.
  pose proof (H0 (reachable_handles_ok s Hr)) as Hh.
  destruct (token_then_schedule_state (access_token body) (expires_in body) USER_SCOPED s0)
    as (Out & Ty & X & T & S & C).
  rewrite <- (exec_eq _ _ _ _ E) in Ty, X, T, S, C. fold s' in Ty, X, T, S, C.
  rewrite <- (outcome_eq _ _ _ _ E) in Out.
  rewrite C0 in X, T. fold e in X, T. rewrite Ty0 in T.
  repeat match goal with |- _ /\ _ => split end; trivial.
  - apply exchanges_since_app
      with (l := [CallSignInWithPassword email; CallTenantUserExchange ut;
                  CallSetSession (access_token body)]).
    subst s'. rewrite (exec_eq _ _ _ _ E), token_then_schedule_calls, K0, <- app_assoc.
    reflexivity.
  - subst s'. rewrite (exec_eq _ _ _ _ E), token_then_schedule_other by assumption.
    unfold armed. rewrite Tm0. reflexivity.
  - intros Hne _. subst s'. rewrite C, (exec_eq _ _ _ _ E).
    rewrite token_then_schedule_armed by (try assumption; rewrite C0; exact Hne).
    unfold new_timer. rewrite N0, C0. fold e.
    replace (clock s + Z.of_N (latency si) + Z.of_N (latency x) + expires_in body * 1000)
      with e by reflexivity.
    reflexivity.
Qed.

Lemma login_success_promotes_witness :
  reachable Scenario.degraded /\
  "user-jwt" <> "" /\
  let s' := exec (login "alice" "goodpw" (Scenario.signed_in "user-jwt")
                    (Scenario.granted "user-scoped-1" 600)) Scenario.degraded in
  let e := clock Scenario.degraded + Z.of_N (latency (Scenario.signed_in "user-jwt"))
           + Z.of_N (latency (Scenario.granted "user-scoped-1" 600))
           + expires_in {| access_token := "user-scoped-1"; expires_in := 600 |} * 1000 in
  e <> 0 /\
  expires_in {| access_token := "user-scoped-1"; expires_in := 600 |} * 1000 - 120 * 1000
  <= MAX_TIMEOUT_DELAY /\
  currentTokenType s' = USER_SCOPED /\
  tokenExpiry s' = Some (Num e) /\
  armed Upgrade s' = armed Upgrade Scenario.degraded /\
  armed Reexchange s'
  = [new_timer Reexchange Scenario.degraded (Z.max (clock s') (e - 120 * 1000))].
Proof.
  assert (reachable Scenario.degraded) as Hr.
  { unfold Scenario.degraded. apply reachable_step; [apply reachable_construct | exact I]. }
  assert ("user-jwt" <> "") as Hut by discriminate.
  split; [exact Hr|]. split; [exact Hut|].
  pose proof (login_success_promotes "alice" "goodpw" (Scenario.signed_in "user-jwt")
                (Scenario.granted "user-scoped-1" 600) Scenario.degraded "user-jwt"
                {| status := 200; statusText := "OK"; text := "";
                   json := Normal {| access_token := "user-scoped-1";
                                     expires_in := 600 |} |}
                {| access_token := "user-scoped-1"; expires_in := 600 |}
                Hr eq_refl eq_refl Hut eq_refl eq_refl eq_refl) as T.
  cbv zeta in T |- *.
  destruct T as (_ & _ & Ty & X & _ & _ & U & A).
  assert (clock Scenario.degraded + Z.of_N (latency (Scenario.signed_in "user-jwt"))
          + Z.of_N (latency (Scenario.granted "user-scoped-1" 600))
          + expires_in {| access_token := "user-scoped-1"; expires_in := 600 |} * 1000
          <> 0) as He by (vm_compute; discriminate).
  assert (expires_in {| access_token := "user-scoped-1"; expires_in := 600 |} * 1000
          - 120 * 1000 <= MAX_TIMEOUT_DELAY) as Hb by (vm_compute; discriminate).
  split; [exact He|]. split; [exact Hb|]. split; [exact Ty|]. split; [exact X|].
  split; [exact U | exact (A He Hb)].
Defined.

(** ** logout after login *)



(** ** signUp: the errors it throws *)

(** X15. Whatever [signUp] throws is an [Error] made by its outer
    [catch], with a non-empty message: one of the three fixed
    translations, the fixed fallback text, or the message of the
    underlying failure; the latter only when it mentions none of
    ["User already registered"], ["Invalid email"] and ["Password"]. *)
Theorem signUp_errors_are_translated email password p d si x s e :
  outcome (signUp email password p d si x) s = Throw e ->
  name e = "Error" /\ message e <> "" /\
  (message e = "An account with this username already exists. Please sign in instead." \/
   message e = "Invalid username. Please use only letters and numbers." \/
   message e = "Password does not meet requirements. Please use a stronger password." \/
   message e = "Account creation failed. Please try again." \/
   (includes "User already registered" (message e) = false /\
    includes "Invalid email" (message e) = false /\
    includes "Password" (message e) = false)).
Proof.
  unfold signUp, outcome, try_catch.
  destruct (bind (signUp_control_plane email password p si x) _ s) as [[[]|err] s1];
    [discriminate|].
  destruct (includes "User already registered" (message err)) eqn:I1;
    [intros [= <-]; repeat split; [discriminate | auto]|].
  destruct (includes "Invalid email" (message err)) eqn:I2;
    [intros [= <-]; repeat split; [discriminate | auto]|].
  destruct (includes "Password" (message err)) eqn:I3;
    [intros [= <-]; repeat split; [discriminate | auto]|].
  destruct (message err) as [|c m] eqn:Em; intros [= <-]; cbn [truthy_string name message new_Error].
  - repeat split; [discriminate | auto].
  - repeat split; [discriminate|]. do 4 right. auto.
Qed.

Lemma signUp_errors_are_translated_witness :
  outcome (signUp "bob" "pw" Scenario.not_found Cases4.taken
             (Scenario.signed_in "bob-jwt") (Scenario.granted "bob-scoped" 600))
    Scenario.fresh
  = Throw (new_Error "An account with this username already exists. Please sign in instead.") /\
  name (new_Error "An account with this username already exists. Please sign in instead.")
  = "Error".
Proof.
  assert (outcome (signUp "bob" "pw" Scenario.not_found Cases4.taken
                     (Scenario.signed_in "bob-jwt") (Scenario.granted "bob-scoped" 600))
            Scenario.fresh
          = Throw (new_Error
                     "An account with this username already exists. Please sign in instead."))
    as H by (vm_compute; reflexivity).
  split; [exact H|].
  exact (proj1 (signUp_errors_are_translated _ _ _ _ _ _ _ _ H)).
Defined.

(** ** signUp: the direct signup returns a session *)

Lemma signUp_direct_session email password p d si x s res sess :
  answer p = Responded res -> status res = 404 ->
  signup_error (answer d) = None -> signup_user (answer d) = true ->
  signup_session (answer d) = Some sess ->
  signUp email password p d si x s
  = match session_lifetime sess with
    | Some n => token_then_schedule (ds_access_token sess) n USER_SCOPED
    | None => token_without_expiry (ds_access_token sess) USER_SCOPED
    end (registered_directly email (ds_access_token sess) p d s).
Proof.
  intros Ha Hs He Hu Hse.
  assert (ok res = false) as Hok by (unfold ok; rewrite Hs; reflexivity).
  apply Z.eqb_eq in Hs.
  destruct s, p as [lp a], d as [ld [err user osess]], sess as [tok life].
  simpl in Ha, He, Hu, Hse. subst a err user osess.
  unfold signUp, signUp_control_plane, signUp_direct, session_lifetime,
    token_then_schedule, token_without_expiry, registered_directly.
  run. rewrite Hok, Hs. run.
  destruct life as [n|]; run; [destruct (n =? 0); run|];
    crack; rewrite <- ?app_assoc; cbn [app]; reflexivity.
Qed.

Lemma registered_directly_state email tok p d s :
  clock (registered_directly email tok p d s)
    = clock s + Z.of_N (latency p) + Z.of_N (latency d) /\
  currentTokenType (registered_directly email tok p d s) = currentTokenType s /\
  next_timer (registered_directly email tok p d s) = next_timer s /\
  timers (registered_directly email tok p d s) = timers s /\
  calls (registered_directly email tok p d s)
    = (calls s ++ [CallSignup email; CallDirectSignUp email])%list /\
  (timers_ok s -> timers_ok (registered_directly email tok p d s)) /\
  (handles_ok s -> handles_ok (registered_directly email tok p d s)).
Proof.
  repeat match goal with |- _ /\ _ => split end; try reflexivity.
  - apply timers_ok_frame; reflexivity.
  - apply handles_ok_frame; reflexivity.
Qed.

Lemma setToken_clearing tok s :
  exists s1,
    setToken tok None s = (Normal tt, s1) /\
    tokenExpiry s1 = None /\ session s1 = Some tok /\
    stored_triple s1 = (None, None, None) /\
    currentTokenType s1 = currentTokenType s /\
    clock s1 = clock s /\ next_timer s1 = next_timer s /\ timers s1 = timers s /\
    reexchangeTimer s1 = reexchangeTimer s /\ upgradeTimer s1 = upgradeTimer s /\
    calls s1 = (calls s ++ [CallSetSession tok])%list.
Proof.
  destruct s. eexists. split; [run; reflexivity|]. run.
  repeat match goal with |- _ /\ _ => split end; try reflexivity.
  apply cleared_triple_eq.
Qed.

Lemma token_without_expiry_state tok ty s :
  timers_ok s -> handles_ok s ->
  let s' := exec (token_without_expiry tok ty) s in
  outcome (token_without_expiry tok ty) s = Normal tt /\
  currentTokenType s' = ty /\ tokenExpiry s' = None /\ session s' = Some tok /\
  stored_triple s' = (None, None, None) /\
  calls s' = (calls s ++ [CallSetSession tok])%list /\
  armed Reexchange s' = [] /\ armed Upgrade s' = armed Upgrade s.
Proof.
  intros O Hh s'.
  destruct (setToken_clearing tok s)
    as (s1 & E1 & X1 & S1 & T1 & _ & _ & N1 & Tm1 & Hr1 & Hu1 & K1).
  set (s2 := with_currentTokenType ty s1).
  assert (token_without_expiry tok ty s = scheduleReexchange s2) as E
    by (unfold token_without_expiry; rewrite (bind_normal _ _ _ _ _ E1); reflexivity).
  assert (timers_ok s2) as O2 by (apply (timers_ok_frame s); auto).
  assert (handles_ok s2) as Hh2 by (apply (handles_ok_frame s); auto).
  assert (renewal_delay s2 = None) as D by (unfold renewal_delay; cbn; rewrite X1; reflexivity).
  assert (s' = cancelled Reexchange s2) as Es'
    by (subst s'; unfold exec; rewrite E, scheduleReexchange_eq, D; reflexivity).
  destruct (cancelled_only_timers Reexchange s2) as (_ & C2 & C3 & C4 & C5 & _ & C7).
  repeat match goal with |- _ /\ _ => split end.
  - unfold outcome. rewrite E, scheduleReexchange_eq. reflexivity.
  - rewrite Es', C2. reflexivity.
  - rewrite Es', C3. exact X1.
  - rewrite Es', C5. exact S1.
  - rewrite Es'. unfold stored_triple. rewrite C4. exact T1.
  - rewrite Es', C7. exact K1.
  - rewrite Es'. apply timers_ok_cancelled, O2.
  - rewrite Es', armed_cancelled_other by (auto; discriminate).
    unfold armed. change (timers s2) with (timers s1). rewrite Tm1. reflexivity.
Qed.

(** X16. When the Control Plane signup endpoint answers 404 and the
    direct Supabase signup returns a user with a session, [signUp]
    returns normally with the tier [USER_SCOPED] and the Supabase
    session token bound, without issuing any exchange request to the
    Control Plane. If that session carries no [expires_in] (absent or
    zero) the token gets no expiry, nothing is stored and no renewal
    timeout is armed; otherwise the expiry is [expires_in] seconds after
    the answer. A pending upgrade-retry timeout stays pending. *)
Theorem direct_signup_claims_user_scope email password p d si x s res sess :
  reachable s ->
  answer p = Responded res -> status res = 404 ->
  signup_error (answer d) = None -> signup_user (answer d) = true ->
  signup_session (answer d) = Some sess ->
  let s' := exec (signUp email password p d si x) s in
  let now := clock s + Z.of_N (latency p) + Z.of_N (latency d) in
  outcome (signUp email password p d si x) s = Normal tt /\
  calls s' = (calls s ++ [CallSignup email; CallDirectSignUp email;
                          CallSetSession (ds_access_token sess)])%list /\
  exchanges_since s s' = [] /\
  currentTokenType s' = USER_SCOPED /\
  session s' = Some (ds_access_token sess) /\
  armed Upgrade s' = armed Upgrade s /\
  match session_lifetime sess with
  | Some n =>
      tokenExpiry s' = Some (Num (now + n * 1000)) /\
      stored_triple s'
      = (Some (ds_access_token sess), Some (toString (now + n * 1000)),
         Some (currentTokenType s))
  | None =>
      tokenExpiry s' = None /\ stored_triple s' = (None, None, None) /\
      armed Reexchange s' = []
  end.
Proof.
  intros Hr Ha Hs He Hu Hse s' now.
  pose proof (signUp_direct_session email password p d si x s res sess Ha Hs He Hu Hse) as E.
  destruct (registered_directly_state email (ds_access_token sess) p d s)
    as (C0 & Ty0 & N0 & Tm0 & K0 & O0 & H0).
  set (s0 := registered_directly email (ds_access_token sess) p d s) in *.
  pose proof (O0 (reachable_timers_ok s Hr)) as O.
  pose proof (H0 (reachable_handles_ok s Hr)) as Hh.
  assert (calls s' = (calls s ++ [CallSignup email; CallDirectSignUp email;
                                  CallSetSession (ds_access_token sess)])%list) as K.
  { subst s'. rewrite (exec_eq _ _ _ _ E).
    destruct (session_lifetime sess) as [n|].
    - rewrite token_then_schedule_calls, K0, <- app_assoc. reflexivity.
    - destruct (token_without_expiry_state (ds_access_token sess) USER_SCOPED s0 O Hh)
        as (_ & _ & _ & _ & _ & K' & _).
      rewrite K', K0, <- app_assoc. reflexivity. }
  split; [|split; [exact K|split; [rewrite (exchanges_since_app _ _ _ K); reflexivity|]]].
  - rewrite (outcome_eq _ _ _ _ E). destruct (session_lifetime sess) as [n|].
    + apply token_then_schedule_state.
    + apply (token_without_expiry_state _ _ _ O Hh).
  - subst s'. rewrite (exec_eq _ _ _ _ E). destruct (session_lifetime sess) as [n|].
    + destruct (token_then_schedule_state (ds_access_token sess) n USER_SCOPED s0)
        as (_ & Ty & X & T & S & _).
      rewrite C0, Ty0 in *.
      repeat match goal with |- _ /\ _ => split end; trivial.
      rewrite token_then_schedule_other by assumption.
      unfold armed. rewrite Tm0. reflexivity.
    + destruct (token_without_expiry_state (ds_access_token sess) USER_SCOPED s0 O Hh)
        as (_ & Ty & X & S & T & _ & A & U).
      repeat match goal with |- _ /\ _ => split end; trivial.
Qed.

Lemma direct_signup_claims_user_scope_witness :
  reachable Scenario.fresh /\
  let s' := exec (signUp "bob" "pw" Scenario.not_found Cases4.registered_open
                    (Scenario.signed_in "bob-jwt") (Scenario.granted "bob-scoped" 600))
              Scenario.fresh in
  let now := clock Scenario.fresh + Z.of_N (latency Scenario.not_found)
             + Z.of_N (latency Cases4.registered_open) in
  outcome (signUp "bob" "pw" Scenario.not_found Cases4.registered_open
             (Scenario.signed_in "bob-jwt") (Scenario.granted "bob-scoped" 600))
    Scenario.fresh = Normal tt /\
  calls s' = (calls Scenario.fresh
              ++ [CallSignup "bob"; CallDirectSignUp "bob";
                  CallSetSession (ds_access_token Cases4.open_session)])%list /\
  exchanges_since Scenario.fresh s' = [] /\
  currentTokenType s' = USER_SCOPED /\
  session s' = Some (ds_access_token Cases4.open_session) /\
  armed Upgrade s' = armed Upgrade Scenario.fresh /\
  match session_lifetime Cases4.open_session with
  | Some n =>
      tokenExpiry s' = Some (Num (now + n * 1000)) /\
      stored_triple s'
      = (Some (ds_access_token Cases4.open_session), Some (toString (now + n * 1000)),
         Some (currentTokenType Scenario.fresh))
  | None =>
      tokenExpiry s' = None /\ stored_triple s' = (None, None, None) /\
      armed Reexchange s' = []
  end.
Proof.
  assert (reachable Scenario.fresh) as Hr by apply reachable_construct.
  split; [exact Hr|].
  exact (direct_signup_claims_user_scope "bob" "pw" Scenario.not_found
           Cases4.registered_open (Scenario.signed_in "bob-jwt")
           (Scenario.granted "bob-scoped" 600) Scenario.fresh
           {| status := 404; statusText := "Not Found"; text := "";
              json := Normal None |}
           Cases4.open_session Hr eq_refl eq_refl eq_refl eq_refl eq_refl).
Defined.

(** ** Renewal timing, on every path that sets a token *)





(** ** Calls in flight *)

(** *** Run without interruption, a call in flight is the method above *)

Lemma bind_ext {A B} (m m' : M A) (k k' : A -> M B) s :
  (forall s, m s = m' s) -> (forall a s, k a s = k' a s) -> bind m k s = bind m' k' s.
Proof.
  intros Hm Hk. unfold bind. rewrite Hm. destruct (m' s) as [[a|e] s1]; [apply Hk | reflexivity].
Qed.

Lemma try_catch_ext {A} (m m' : M A) (h h' : Error -> M A) s :
  (forall s, m s = m' s) -> (forall e s, h e s = h' e s) ->
  try_catch m h s = try_catch m' h' s.
Proof.
  intros Hm Hh. unfold try_catch. rewrite Hm.
  destruct (m' s) as [[a|e] s1]; [reflexivity | apply Hh].
Qed.

Lemma uninterrupted_alift {A} (m : M A) s : uninterrupted (alift m) s = m s.
Proof. unfold uninterrupted, alift. simpl. destruct (m s); reflexivity. Qed.

Lemma uninterrupted_await dt s : uninterrupted (await dt) s = elapse dt s.
Proof. reflexivity. Qed.

Lemma complete_bind_task {A B} (t : Async A) (f : A -> AM B) s :
  complete (fst (bind_task t f s)) (snd (bind_task t f s))
  = bind (complete t) (fun a => uninterrupted (f a)) s.
Proof.
  revert s. induction t as [[a|e]|dt next IH eff]; intros s.
  - reflexivity.
  - reflexivity.
  - cbn [bind_task fst snd complete]. unfold bind at 1.
    rewrite IH. unfold bind. cbn [complete]. reflexivity.
Qed.

Lemma uninterrupted_abind {A B} (m : AM A) (f : A -> AM B) s :
  uninterrupted (abind m f) s
  = bind (uninterrupted m) (fun a => uninterrupted (f a)) s.
Proof.
  unfold uninterrupted at 1, abind. rewrite complete_bind_task.
  unfold bind, uninterrupted. destruct (m s) as [t s1]. reflexivity.
Qed.

Lemma complete_catch_task {A} (t : Async A) (h : Error -> AM A) s :
  complete (fst (catch_task t h s)) (snd (catch_task t h s))
  = try_catch (complete t) (fun e => uninterrupted (h e)) s.
Proof.
  revert s. induction t as [[a|e]|dt next IH eff]; intros s.
  - reflexivity.
  - reflexivity.
  - cbn [catch_task fst snd complete]. rewrite IH. unfold try_catch. cbn [complete].
    reflexivity.
Qed.

Lemma uninterrupted_atry {A} (m : AM A) (h : Error -> AM A) s :
  uninterrupted (atry m h) s
  = try_catch (uninterrupted m) (fun e => uninterrupted (h e)) s.
Proof.
  unfold uninterrupted at 1, atry. rewrite complete_catch_task.
  unfold try_catch, uninterrupted. destruct (m s) as [t s1]. reflexivity.
Qed.

Lemma elapse_none s : elapse 0 s = (Normal tt, s).
Proof. destruct s. unfold elapse, modify, with_clock. simpl. rewrite Z.add_0_r. reflexivity. Qed.

Lemma bind_elapse_none {B} (k : unit -> M B) s : bind (elapse 0) k s = k tt s.
Proof. unfold bind. rewrite elapse_none. reflexivity. Qed.

(** Follow the two definitions side by side. *)
Ltac side_by_side :=
  repeat first
    [ rewrite uninterrupted_abind
    | rewrite uninterrupted_atry
    | rewrite uninterrupted_alift
    | rewrite uninterrupted_await
    | rewrite bind_elapse_none
    | reflexivity
    | apply bind_ext; [intros ? | intros ? ?]
    | apply try_catch_ext; [intros ? | intros ? ?]
    | match goal with
      | |- context [match ?x with _ => _ end] =>
          lazymatch x with
          | context [match _ with _ => _ end] => fail
          | _ => destruct x
          end
      end ].

Lemma uninterrupted_setToken tok e s :
  uninterrupted (setToken_async tok e) s = setToken tok e s.
Proof.
  unfold setToken_async, setSession_async, setToken, setSession, store_token.
  side_by_side.
Qed.

Lemma uninterrupted_exchangeForScopedAnonToken x s :
  uninterrupted (exchangeForScopedAnonToken_async x) s = exchangeForScopedAnonToken x s.
Proof.
  unfold exchangeForScopedAnonToken_async, exchangeForScopedAnonToken, scoped_anon_answer.
  side_by_side.
Qed.

Lemma uninterrupted_exchangeForTenantUserScopedToken tok x s :
  uninterrupted (exchangeForTenantUserScopedToken_async tok x) s
  = exchangeForTenantUserScopedToken tok x s.
Proof.
  unfold exchangeForTenantUserScopedToken_async, exchangeForTenantUserScopedToken,
    tenant_user_answer.
  side_by_side.
Qed.

Lemma uninterrupted_demote s : uninterrupted demote_async s = demote s.
Proof.
  unfold demote_async, demote. side_by_side. apply uninterrupted_setToken.
Qed.

Lemma uninterrupted_boot x s : uninterrupted (boot_async x) s = boot x s.
Proof.
  unfold boot_async, boot.
  repeat first
    [ rewrite uninterrupted_abind | rewrite uninterrupted_alift
    | apply bind_ext; [intros ? | intros ? ?] | reflexivity ].
  match goal with |- context [match ?x with _ => _ end] => destruct x as [st|] end.
  - match goal with |- context [match ?x with _ => _ end] => destruct x end.
    + side_by_side. apply uninterrupted_setToken.
    + rewrite uninterrupted_atry. apply try_catch_ext; [intros ? | intros ? ?].
      * side_by_side; first [apply uninterrupted_exchangeForScopedAnonToken
                            | apply uninterrupted_setToken].
      * cbv beta; rewrite uninterrupted_demote; unfold demote; reflexivity.
  - rewrite uninterrupted_atry. apply try_catch_ext; [intros ? | intros ? ?].
    + side_by_side; first [apply uninterrupted_exchangeForScopedAnonToken
                          | apply uninterrupted_setToken].
    + cbv beta; rewrite uninterrupted_demote; unfold demote; reflexivity.
Qed.

Lemma uninterrupted_login email password si x s :
  uninterrupted (login_async email password si x) s = login email password si x s.
Proof.
  unfold login_async, login, signInWithPassword_async, signInWithPassword, aret, athrow.
  repeat first
    [ rewrite uninterrupted_abind | rewrite uninterrupted_alift | rewrite uninterrupted_await
    | apply bind_ext; [intros ? | intros ? ?] | reflexivity ].
  match goal with |- context [match signin_error ?r with _ => _ end] =>
    destruct (signin_error r) end; [side_by_side|].
  match goal with |- context [match signin_access_token ?r with _ => _ end] =>
    destruct (signin_access_token r) as [userToken|] end; [|side_by_side].
  destruct (negb (truthy_string userToken)); [side_by_side|].
  rewrite uninterrupted_atry. apply try_catch_ext; [intros ? | intros ? ?].
  - side_by_side; first [apply uninterrupted_exchangeForTenantUserScopedToken
                        | apply uninterrupted_setToken].
  - side_by_side.
Qed.

Lemma uninterrupted_signUp email password p d si x s :
  uninterrupted (signUp_async email password p d si x) s
  = signUp email password p d si x s.
Proof.
  unfold signUp_async, signUp, aret, athrow.
  rewrite uninterrupted_atry. apply try_catch_ext; [intros s0 | intros e s0].
  - rewrite uninterrupted_abind. apply bind_ext; [intros s1 | intros returned s1].
    + unfold signUp_control_plane_async, signUp_control_plane, aret, athrow.
      rewrite uninterrupted_atry. apply try_catch_ext; [intros s2 | intros e s2].
      * repeat first
          [ rewrite uninterrupted_abind | rewrite uninterrupted_alift
          | rewrite uninterrupted_await
          | apply bind_ext; [intros ? | intros ? ?] | reflexivity ].
        destruct (answer p) as [e|res]; [side_by_side|].
        destruct (ok res).
        -- rewrite uninterrupted_abind. apply bind_ext; [intros ? | intros ? ?].
           ++ apply uninterrupted_login.
           ++ side_by_side.
        -- destruct (status res =? 404); side_by_side.
      * destruct (String.eqb (name e) "AbortError"); [side_by_side|].
        destruct (includes "Signup failed" (JS.message e)); side_by_side.
    + destruct returned; [side_by_side|].
      unfold signUp_direct_async, signUp_direct, auth_signUp_async, auth_signUp,
        aret, athrow.
      repeat first
        [ rewrite uninterrupted_abind | rewrite uninterrupted_alift
        | rewrite uninterrupted_await
        | apply bind_ext; [intros ? | intros ? ?] | reflexivity ].
      match goal with |- context [match signup_error ?r with _ => _ end] =>
        destruct (signup_error r) end; [side_by_side|].
      match goal with |- context [negb (signup_user ?r)] =>
        destruct (negb (signup_user r)) end; [side_by_side|].
      match goal with |- context [match signup_session ?r with _ => _ end] =>
        destruct (signup_session r) as [sess|] end.
      * rewrite uninterrupted_abind. apply bind_ext; [intros ? | intros ? ?].
        -- rewrite uninterrupted_setToken. reflexivity.
        -- side_by_side.
      * apply uninterrupted_login.
  - destruct (includes "User already registered" (JS.message e)); [side_by_side|].
    destruct (includes "Invalid email" (JS.message e)); [side_by_side|].
    destruct (includes "Password" (JS.message e)); side_by_side.
Qed.

Lemma uninterrupted_logout x s : uninterrupted (logout_async x) s = logout x s.
Proof.
  unfold logout_async, logout, signOut_async, signOut.
  side_by_side. apply uninterrupted_boot.
Qed.

Lemma uninterrupted_reexchange_callback x s :
  uninterrupted (reexchange_callback_async x) s = reexchange_callback x s.
Proof.
  unfold reexchange_callback_async, reexchange_callback, getSession_async, aret.
  rewrite uninterrupted_atry. apply try_catch_ext; [intros s0 | intros e s0].
  - repeat first
      [ rewrite uninterrupted_abind | rewrite uninterrupted_alift
      | apply bind_ext; [intros ? | intros ? ?] | reflexivity ].
    match goal with |- context [String.eqb ?a USER_SCOPED] =>
      destruct (String.eqb a USER_SCOPED); [|destruct (String.eqb a SCOPED_ANON)] end.
    + repeat first
        [ rewrite uninterrupted_abind | rewrite uninterrupted_alift
        | rewrite uninterrupted_await | rewrite bind_elapse_none
        | apply bind_ext; [intros ? | intros ? ?] | reflexivity ].
      match goal with |- context [match ?o with Some _ => _ | None => _ end] =>
        destruct o as [tok|] end; [|apply uninterrupted_boot].
      destruct (truthy_string tok); [|apply uninterrupted_boot].
      side_by_side; first [apply uninterrupted_exchangeForTenantUserScopedToken
                          | apply uninterrupted_setToken].
    + side_by_side; first [apply uninterrupted_exchangeForScopedAnonToken
                          | apply uninterrupted_setToken].
    + side_by_side.
  - cbv beta; rewrite uninterrupted_demote; unfold demote; reflexivity.
Qed.

Lemma uninterrupted_upgrade_callback x s :
  uninterrupted (upgrade_callback_async x) s = upgrade_callback x s.
Proof.
  unfold upgrade_callback_async, upgrade_callback.
  rewrite uninterrupted_atry. apply try_catch_ext; [intros s0 | intros e s0].
  - side_by_side; first [apply uninterrupted_exchangeForScopedAnonToken
                        | apply uninterrupted_setToken].
  - side_by_side.
Qed.

(** Every operation, run without interruption, is the operation of the
    runs above. *)
Lemma uninterrupted_begin o s : uninterrupted (begin o) s = run_op o s.
Proof.
  destruct o; unfold begin, run_op.
  - apply uninterrupted_boot.
  - apply uninterrupted_login.
  - apply uninterrupted_signUp.
  - apply uninterrupted_logout.
  - apply uninterrupted_alift.
  - unfold fire. rewrite uninterrupted_abind. apply bind_ext; [intros s0 | intros u s0].
    + rewrite uninterrupted_alift. reflexivity.
    + destruct (timer_kind t);
        [apply uninterrupted_reexchange_callback | apply uninterrupted_upgrade_callback].
  - apply uninterrupted_alift.
Qed.

(** ** Calls in flight: what every segment keeps *)

Section Keeps.

Variable P : State -> Prop.

Lemma keeps_alift {A} (m : M A) : preserves P m -> keeps_method P (alift m).
Proof. intros H s Hs. split; [apply (H s Hs) | exact I]. Qed.

Lemma keeps_await dt : keeps_method P (await dt).
Proof.
  intros s Hs. split; [exact Hs|]. simpl. intros s1 H1. split; [exact H1 | exact I].
Qed.

Lemma keeps_bind_task {A B} (t : Async A) (f : A -> AM B) :
  (forall a, keeps_method P (f a)) -> keeps P t -> keeps_method P (bind_task t f).
Proof.
  intros Hf. induction t as [[a|e] | dt next IH eff]; intros Ht; simpl.
  - apply Hf.
  - intros s Hs. split; [exact Hs | exact I].
  - intros s Hs. split; [exact Hs|]. simpl. intros s1 H1.
    destruct (Ht s1 H1) as [He Hn]. apply (IH s1 Hn (eff s1) He).
Qed.

Lemma keeps_abind {A B} (m : AM A) (f : A -> AM B) :
  keeps_method P m -> (forall a, keeps_method P (f a)) -> keeps_method P (abind m f).
Proof.
  intros Hm Hf s Hs. destruct (Hm s Hs) as [H1 H2].
  unfold abind. apply keeps_bind_task; assumption.
Qed.

Lemma keeps_catch_task {A} (t : Async A) (h : Error -> AM A) :
  (forall e, keeps_method P (h e)) -> keeps P t -> keeps_method P (catch_task t h).
Proof.
  intros Hh. induction t as [[a|e] | dt next IH eff]; intros Ht; simpl.
  - intros s Hs. split; [exact Hs | exact I].
  - apply Hh.
  - intros s Hs. split; [exact Hs|]. simpl. intros s1 H1.
    destruct (Ht s1 H1) as [He Hn]. apply (IH s1 Hn (eff s1) He).
Qed.

Lemma keeps_atry {A} (m : AM A) (h : Error -> AM A) :
  keeps_method P m -> (forall e, keeps_method P (h e)) -> keeps_method P (atry m h).
Proof.
  intros Hm Hh s Hs. destruct (Hm s Hs) as [H1 H2].
  unfold atry. apply keeps_catch_task; assumption.
Qed.

Lemma settle_keeps t s pool :
  P s -> keeps P t ->
  Forall (fun p => forall s, P s -> P (resume_eff p s) /\ keeps P (resume_next p s)) pool ->
  world_keeps P (settle t s pool).
Proof.
  intros Hs Ht Hp. destruct t as [c | dt next eff]; split; simpl; trivial.
  apply Forall_app. split; [exact Hp|]. constructor; [|constructor]. exact Ht.
Qed.

Hypothesis begin_keeps : forall o, keeps_method P (begin o).

Lemma happen_keeps ev w : world_keeps P w -> world_keeps P (happen ev w).
Proof.
  intros [Hs Hp]. destruct ev as [o | i]; simpl.
  - destruct (begin_keeps o _ Hs) as [H1 H2]. apply settle_keeps; assumption.
  - destruct (in_flight w !! i) as [p|] eqn:E; [|split; assumption].
    pose proof (proj1 (Forall_lookup _ _) Hp i p E _ Hs) as [H1 H2].
    apply settle_keeps; [assumption | assumption | apply Forall_delete, Hp].
Qed.

Hypothesis construct_keeps : forall cfg now store, P (construct cfg now store).

Lemma reachable_world_keeps w : reachable_world w -> world_keeps P w.
Proof.
  induction 1 as [cfg now store | w ev _ IH _].
  - split; [apply construct_keeps | constructor].
  - apply happen_keeps, IH.
Qed.

End Keeps.

(** A method body cut at its awaits keeps a property when each of its
    synchronous stretches does. *)
Ltac keeps_step sync :=
  lazymatch goal with
  | |- keeps_method _ (await _) => apply keeps_await
  | |- keeps_method _ (alift _) => apply keeps_alift; solve [sync]
  | |- keeps_method _ (abind _ _) => apply keeps_abind; [|intros ?]
  | |- keeps_method _ (atry _ _) => apply keeps_atry; [|intros ?]
  | |- keeps_method _ (match ?x with _ => _ end) => destruct x
  end.

Ltac unfold_sync :=
  unfold store_token, scoped_anon_answer, tenant_user_answer,
    ensureTenantUsersTableExists_detached, record_call, loadStoredToken, getItem,
    setItem, removeItem, isTokenExpired, Date_now, getSession_access_token, cleanup, elapse.

Lemma fired_preserves_timers_ok t : preserves timers_ok (modify (fired t)).
Proof. apply preserves_modify. intros s. apply timers_ok_fired. Qed.

Lemma fired_preserves_handles_ok t : preserves handles_ok (modify (fired t)).
Proof. unfold fired. handles_frame_step. Qed.

Create HintDb zylo_keeps_timers.

Ltac keeps_keeps_timers_ok :=
  unfold_sync;
  repeat first
    [ solve [auto with zylo_keeps_timers]
    | keeps_step ltac:(first [apply fired_preserves_timers_ok | timers_auto]) ].

Lemma setToken_async_keeps_timers_ok tok e : keeps_method timers_ok (setToken_async tok e).
Proof. unfold setToken_async, setSession_async. keeps_keeps_timers_ok. Qed.

Lemma exchangeForScopedAnonToken_async_keeps_timers_ok x :
  keeps_method timers_ok (exchangeForScopedAnonToken_async x).
Proof. unfold exchangeForScopedAnonToken_async. keeps_keeps_timers_ok. Qed.

Lemma exchangeForTenantUserScopedToken_async_keeps_timers_ok tok x :
  keeps_method timers_ok (exchangeForTenantUserScopedToken_async tok x).
Proof. unfold exchangeForTenantUserScopedToken_async. keeps_keeps_timers_ok. Qed.
#[local] Hint Resolve setToken_async_keeps_timers_ok exchangeForScopedAnonToken_async_keeps_timers_ok
  exchangeForTenantUserScopedToken_async_keeps_timers_ok : zylo_keeps_timers.

Lemma demote_async_keeps_timers_ok : keeps_method timers_ok demote_async.
Proof. unfold demote_async. keeps_keeps_timers_ok. Qed.
#[local] Hint Resolve demote_async_keeps_timers_ok : zylo_keeps_timers.

Lemma boot_async_keeps_timers_ok x : keeps_method timers_ok (boot_async x).
Proof. unfold boot_async. keeps_keeps_timers_ok. Qed.
#[local] Hint Resolve boot_async_keeps_timers_ok : zylo_keeps_timers.

Lemma login_async_keeps_timers_ok email password si x :
  keeps_method timers_ok (login_async email password si x).
Proof. unfold login_async, signInWithPassword_async, aret, athrow. keeps_keeps_timers_ok. Qed.
#[local] Hint Resolve login_async_keeps_timers_ok : zylo_keeps_timers.

Lemma signUp_async_keeps_timers_ok email password p d si x :
  keeps_method timers_ok (signUp_async email password p d si x).
Proof.
  unfold signUp_async, signUp_control_plane_async, signUp_direct_async,
    auth_signUp_async, aret, athrow.
  keeps_keeps_timers_ok.
Qed.

Lemma logout_async_keeps_timers_ok x : keeps_method timers_ok (logout_async x).
Proof. unfold logout_async, signOut_async. keeps_keeps_timers_ok. Qed.

Lemma reexchange_callback_async_keeps_timers_ok x :
  keeps_method timers_ok (reexchange_callback_async x).
Proof. unfold reexchange_callback_async, getSession_async, aret. keeps_keeps_timers_ok. Qed.

Lemma upgrade_callback_async_keeps_timers_ok x :
  keeps_method timers_ok (upgrade_callback_async x).
Proof. unfold upgrade_callback_async. keeps_keeps_timers_ok. Qed.
#[local] Hint Resolve signUp_async_keeps_timers_ok logout_async_keeps_timers_ok
  reexchange_callback_async_keeps_timers_ok upgrade_callback_async_keeps_timers_ok : zylo_keeps_timers.

Lemma begin_keeps_timers_ok o : keeps_method timers_ok (begin o).
Proof. destruct o; unfold begin; keeps_keeps_timers_ok. Qed.

Create HintDb zylo_keeps_handles.

Ltac keeps_keeps_handles_ok :=
  unfold_sync;
  repeat first
    [ solve [auto with zylo_keeps_handles]
    | keeps_step ltac:(first [apply fired_preserves_handles_ok | handles_auto]) ].

Lemma setToken_async_keeps_handles_ok tok e : keeps_method handles_ok (setToken_async tok e).
Proof. unfold setToken_async, setSession_async. keeps_keeps_handles_ok. Qed.

Lemma exchangeForScopedAnonToken_async_keeps_handles_ok x :
  keeps_method handles_ok (exchangeForScopedAnonToken_async x).
Proof. unfold exchangeForScopedAnonToken_async. keeps_keeps_handles_ok. Qed.

Lemma exchangeForTenantUserScopedToken_async_keeps_handles_ok tok x :
  keeps_method handles_ok (exchangeForTenantUserScopedToken_async tok x).
Proof. unfold exchangeForTenantUserScopedToken_async. keeps_keeps_handles_ok. Qed.
#[local] Hint Resolve setToken_async_keeps_handles_ok exchangeForScopedAnonToken_async_keeps_handles_ok
  exchangeForTenantUserScopedToken_async_keeps_handles_ok : zylo_keeps_handles.

Lemma demote_async_keeps_handles_ok : keeps_method handles_ok demote_async.
Proof. unfold demote_async. keeps_keeps_handles_ok. Qed.
#[local] Hint Resolve demote_async_keeps_handles_ok : zylo_keeps_handles.

Lemma boot_async_keeps_handles_ok x : keeps_method handles_ok (boot_async x).
Proof. unfold boot_async. keeps_keeps_handles_ok. Qed.
#[local] Hint Resolve boot_async_keeps_handles_ok : zylo_keeps_handles.

Lemma login_async_keeps_handles_ok email password si x :
  keeps_method handles_ok (login_async email password si x).
Proof. unfold login_async, signInWithPassword_async, aret, athrow. keeps_keeps_handles_ok. Qed.
#[local] Hint Resolve login_async_keeps_handles_ok : zylo_keeps_handles.

Lemma signUp_async_keeps_handles_ok email password p d si x :
  keeps_method handles_ok (signUp_async email password p d si x).
Proof.
  unfold signUp_async, signUp_control_plane_async, signUp_direct_async,
    auth_signUp_async, aret, athrow.
  keeps_keeps_handles_ok.
Qed.

Lemma logout_async_keeps_handles_ok x : keeps_method handles_ok (logout_async x).
Proof. unfold logout_async, signOut_async. keeps_keeps_handles_ok. Qed.

Lemma reexchange_callback_async_keeps_handles_ok x :
  keeps_method handles_ok (reexchange_callback_async x).
Proof. unfold reexchange_callback_async, getSession_async, aret. keeps_keeps_handles_ok. Qed.

Lemma upgrade_callback_async_keeps_handles_ok x :
  keeps_method handles_ok (upgrade_callback_async x).
Proof. unfold upgrade_callback_async. keeps_keeps_handles_ok. Qed.
#[local] Hint Resolve signUp_async_keeps_handles_ok logout_async_keeps_handles_ok
  reexchange_callback_async_keeps_handles_ok upgrade_callback_async_keeps_handles_ok : zylo_keeps_handles.

Lemma begin_keeps_handles_ok o : keeps_method handles_ok (begin o).
Proof. destruct o; unfold begin; keeps_keeps_handles_ok. Qed.

Lemma construct_handles_ok cfg now store : handles_ok (construct cfg now store).
Proof. split; [intros [] h; discriminate | intros h; discriminate]. Qed.

(** Whatever is in flight, the discipline of the two handles holds at
    every instant. *)
Lemma reachable_world_timers_ok w : reachable_world w -> timers_ok (world_state w).
Proof.
  intros R. apply (reachable_world_keeps timers_ok begin_keeps_timers_ok construct_ok w R).
Qed.

Lemma reachable_world_handles_ok w : reachable_world w -> handles_ok (world_state w).
Proof.
  intros R.
  apply (reachable_world_keeps handles_ok begin_keeps_handles_ok construct_handles_ok w R).
Qed.

(** ** Runs without overlap are runs with calls in flight *)

Lemma reachable_world_complete (t : Async unit) :
  forall s pool,
    reachable_world (settle t s pool) ->
    reachable_world {| world_state := snd (complete t s); in_flight := pool |}.
Proof.
  induction t as [c | dt next IH eff]; intros s pool R; simpl in *; [exact R|].
  apply IH.
  set (p := {| ready_at := clock s + Z.of_N dt; resume_next := next; resume_eff := eff |})
    in *.
  set (s1 := with_clock (clock s + Z.of_N dt) s).
  pose proof (reachable_world_step _ (Begin (OpWait dt)) R I) as R1.
  change (happen (Begin (OpWait dt)) {| world_state := s; in_flight := (pool ++ [p])%list |})
    with {| world_state := s1; in_flight := (pool ++ [p])%list |} in R1.
  assert ((pool ++ [p])%list !! Datatypes.length pool = Some p) as L
    by (apply list_lookup_middle; reflexivity).
  assert (can_happen (Resume (Datatypes.length pool))
            {| world_state := s1; in_flight := (pool ++ [p])%list |}) as C.
  { exists p. split; [exact L|]. destruct s; simpl. lia. }
  pose proof (reachable_world_step _ _ R1 C) as R2.
  unfold happen in R2. cbn [in_flight world_state] in R2. rewrite L in R2.
  rewrite delete_middle, app_nil_r in R2. exact R2.
Qed.

(** An operation that begins and runs to its end, nothing else in
    between, is a step of the runs without overlap. *)
Lemma reachable_world_whole_op o w :
  reachable_world w -> enabled o (world_state w) ->
  reachable_world {| world_state := exec (run_op o) (world_state w);
                     in_flight := in_flight w |}.
Proof.
  intros R E.
  pose proof (reachable_world_step w (Begin o) R E) as R1.
  apply reachable_world_complete in R1.
  unfold exec. rewrite <- uninterrupted_begin. exact R1.
Qed.

Lemma reachable_at_rest s : reachable s -> reachable_world (at_rest s).
Proof.
  induction 1 as [cfg now store | s o _ IH E].
  - apply reachable_world_construct.
  - apply (reachable_world_whole_op o (at_rest s) IH E).
Qed.

(** ** Calls in flight: calls that never throw *)

Lemma always_returns_ret {A} (a : A) : always_returns (ret a).
Proof. intros s. exists a. reflexivity. Qed.

Lemma always_returns_gets {A} (f : State -> A) : always_returns (gets f).
Proof. intros s. exists (f s). reflexivity. Qed.

Lemma always_returns_modify f : always_returns (modify f).
Proof. intros s. exists tt. reflexivity. Qed.

Lemma always_returns_bind {A B} (m : M A) (k : A -> M B) :
  always_returns m -> (forall a, always_returns (k a)) -> always_returns (bind m k).
Proof.
  intros Hm Hk s. destruct (Hm s) as [a E]. unfold bind.
  destruct (m s) as [[a'|e] s1]; simpl in E; [apply Hk | discriminate].
Qed.

Lemma always_returns_eq {A} (m : M A) (f : State -> State) a :
  (forall s, m s = (Normal a, f s)) -> always_returns m.
Proof. intros H s. exists a. rewrite H. reflexivity. Qed.

Lemma scheduleReexchange_returns : always_returns scheduleReexchange.
Proof. exact (always_returns_eq _ _ tt scheduleReexchange_eq). Qed.

Lemma scheduleUpgradeAttempt_returns : always_returns scheduleUpgradeAttempt.
Proof. exact (always_returns_eq _ _ tt scheduleUpgradeAttempt_eq). Qed.

Lemma clearReexchangeTimer_returns : always_returns clearReexchangeTimer.
Proof. exact (always_returns_eq _ _ tt clearReexchangeTimer_eq). Qed.

Lemma clearUpgradeTimer_returns : always_returns clearUpgradeTimer.
Proof. exact (always_returns_eq _ _ tt clearUpgradeTimer_eq). Qed.

Ltac returns_step :=
  lazymatch goal with
  | |- always_returns scheduleReexchange => apply scheduleReexchange_returns
  | |- always_returns scheduleUpgradeAttempt => apply scheduleUpgradeAttempt_returns
  | |- always_returns clearReexchangeTimer => apply clearReexchangeTimer_returns
  | |- always_returns clearUpgradeTimer => apply clearUpgradeTimer_returns
  | |- always_returns (ret _) => apply always_returns_ret
  | |- always_returns (gets _) => apply always_returns_gets
  | |- always_returns (modify _) => apply always_returns_modify
  | |- always_returns (bind _ _) => apply always_returns_bind; [|intros ?]
  | |- always_returns (match ?x with _ => _ end) => destruct x
  end.

Lemma never_throws_alift {A} (m : M A) s :
  always_returns m -> never_throws (fst (alift m s)).
Proof. intros H. destruct (H s) as [a E]. simpl. rewrite E. exact I. Qed.

Lemma never_throws_await dt s : never_throws (fst (await dt s)).
Proof. simpl. intros _. exact I. Qed.

Lemma never_throws_bind_task {A B} (t : Async A) (f : A -> AM B) :
  (forall a s, never_throws (fst (f a s))) ->
  never_throws t -> forall s, never_throws (fst (bind_task t f s)).
Proof.
  intros Hf. induction t as [[a|e] | dt next IH eff]; intros Ht s; simpl.
  - apply Hf.
  - destruct Ht.
  - intros s1. apply IH, Ht.
Qed.

Lemma never_throws_abind {A B} (m : AM A) (f : A -> AM B) s :
  (forall s, never_throws (fst (m s))) -> (forall a s, never_throws (fst (f a s))) ->
  never_throws (fst (abind m f s)).
Proof. intros Hm Hf. unfold abind. apply never_throws_bind_task; [exact Hf | apply Hm]. Qed.

Lemma never_throws_catch_task {A} (t : Async A) (h : Error -> AM A) :
  (forall e s, never_throws (fst (h e s))) ->
  forall s, never_throws (fst (catch_task t h s)).
Proof.
  intros Hh. induction t as [[a|e] | dt next IH eff]; intros s; simpl.
  - exact I.
  - apply Hh.
  - intros s1. apply IH.
Qed.

Lemma never_throws_atry {A} (m : AM A) (h : Error -> AM A) s :
  (forall e s, never_throws (fst (h e s))) -> never_throws (fst (atry m h s)).
Proof. intros Hh. unfold atry. apply never_throws_catch_task, Hh. Qed.

Ltac never_throws_step :=
  cbv beta;
  lazymatch goal with
  | |- never_throws (fst (await _ _)) => apply never_throws_await
  | |- never_throws (fst (alift _ _)) =>
      apply never_throws_alift; unfold_sync; solve [repeat returns_step]
  | |- never_throws (fst (abind _ _ _)) => apply never_throws_abind; [intros ?|intros ? ?]
  | |- never_throws (fst (atry _ _ _)) => apply never_throws_atry; intros ? ?
  | |- never_throws (fst ((match ?x with _ => _ end) _)) => destruct x
  end.

Lemma setToken_async_never_throws tok e s : never_throws (fst (setToken_async tok e s)).
Proof.
  unfold setToken_async, setSession_async. repeat never_throws_step.
Qed.

Lemma demote_async_never_throws s : never_throws (fst (demote_async s)).
Proof.
  unfold demote_async.
  repeat lazymatch goal with
         | |- never_throws (fst (setToken_async _ _ _)) => apply setToken_async_never_throws
         | |- _ => never_throws_step
         end.
Qed.

Lemma boot_async_never_throws x s : never_throws (fst (boot_async x s)).
Proof.
  unfold boot_async.
  repeat lazymatch goal with
         | |- never_throws (fst (setToken_async _ _ _)) => apply setToken_async_never_throws
         | |- never_throws (fst (demote_async _)) => apply demote_async_never_throws
         | |- _ => never_throws_step
         end.
Qed.

Lemma logout_async_never_throws x s : never_throws (fst (logout_async x s)).
Proof.
  unfold logout_async, signOut_async.
  repeat lazymatch goal with
         | |- never_throws (fst (boot_async _ _)) => apply boot_async_never_throws
         | |- _ => never_throws_step
         end.
Qed.

(** ** Calls in flight: [logout] between its awaits *)

Ltac run_async :=
  cbv beta iota zeta delta
    [resumed_state logout_async signOut_async boot_async demote_async setToken_async
     setSession_async exchangeForScopedAnonToken_async abind atry alift await aret athrow
     bind_task catch_task store_token scoped_anon_answer];
  run.

(** Up to its first [await], [boot()] touches neither the pending
    timeouts nor the two handles. *)
Lemma boot_async_starts x s :
  let s' := snd (boot_async x s) in
  timers s' = timers s /\ reexchangeTimer s' = reexchangeTimer s /\
  upgradeTimer s' = upgradeTimer s /\ next_timer s' = next_timer s.
Proof.
  destruct s. run_async. crack; repeat split.
Qed.

(** When [logout()] resumes after [signOut()], it forgets the session,
    clears both timers and runs [boot()] up to its first [await]. *)
Lemma logout_async_resumed x s s1 :
  resumed_state (fst (logout_async x s)) s1
  = snd (boot_async x (exec cleanup (with_session None s1))).
Proof.
  unfold exec. rewrite cleanup_eq. cbn [snd].
  unfold logout_async, signOut_async, abind at 1 2 3.
  cbn [alift await bind_task fst snd resumed_state record_call modify].
  unfold abind at 1. cbn [alift fst snd bind_task].
  rewrite clearReexchangeTimer_eq. cbn [fst snd bind_task].
  unfold abind at 1. cbn [alift fst snd bind_task].
  rewrite clearUpgradeTimer_eq. cbn [fst snd bind_task].
  reflexivity.
Qed.

Lemma logout_async_resumed_idle x s s1 :
  timers_ok s1 ->
  let s2 := resumed_state (fst (logout_async x s)) s1 in
  timers s2 = [] /\ reexchangeTimer s2 = None /\ upgradeTimer s2 = None.
Proof.
  intros O s2. subst s2. rewrite logout_async_resumed.
  destruct (boot_async_starts x (exec cleanup (with_session None s1))) as (T & R & U & _).
  cbv zeta in T, R, U. rewrite T, R, U.
  assert (timers_ok (with_session None s1)) as O1 by (apply (timers_ok_frame s1); auto).
  split; [apply cleanup_no_timers, O1|].
  unfold exec. rewrite cleanup_eq. cbn [snd].
  change (reexchangeTimer ?s) with (handle Reexchange s).
  change (upgradeTimer ?s) with (handle Upgrade s).
  rewrite !handle_cancelled. split; reflexivity.
Qed.

(** ** Calls in flight: scenarios *)

Lemma ready_can_happen i w : ready i w = true -> can_happen (Resume i) w.
Proof.
  unfold ready, can_happen. destruct (in_flight w !! i) as [p|]; [|discriminate].
  intros H. exists p. split; [reflexivity | apply Z.leb_le, H].
Qed.

Lemma upgrade_asking_reachable : reachable_world Overlap.upgrade_asking.
Proof.
  unfold Overlap.upgrade_asking.
  apply reachable_world_step;
    [apply reachable_at_rest, degraded_due_reachable | exact upgrade_timer_due].
Qed.

Lemma cleanup_overtaken_reachable :
  reachable_world Overlap.cleaned_up /\
  can_happen (Resume 0) Overlap.cleaned_up /\
  reachable_world Overlap.cleanup_overtaken.
Proof.
  assert (reachable_world Overlap.cleaned_up) as R
    by (unfold Overlap.cleaned_up; apply reachable_world_step;
        [apply upgrade_asking_reachable | exact I]).
  assert (can_happen (Resume 0) Overlap.cleaned_up) as C
    by (apply ready_can_happen; vm_compute; reflexivity).
  split; [exact R|]. split; [exact C|].
  unfold Overlap.cleanup_overtaken. apply reachable_world_step; assumption.
Qed.

Lemma cleanup_overtaken_timers :
  timers (world_state Overlap.cleaned_up) = [] /\
  timers (world_state Overlap.cleanup_overtaken) = [Overlap.retry_timer] /\
  in_flight Overlap.cleanup_overtaken = [].
Proof. repeat split; vm_compute; reflexivity. Qed.

Lemma renewal_asking_reachable : reachable_world Overlap.renewal_asking.
Proof.
  unfold Overlap.renewal_asking.
  apply reachable_world_step; [apply reachable_at_rest, renewal_due_reachable|].
  split; [vm_compute; left; reflexivity | vm_compute; discriminate].
Qed.

Lemma logout_overtaken_reachable : reachable_world Overlap.logout_overtaken.
Proof.
  unfold Overlap.logout_overtaken. apply reachable_world_step;
    [|apply ready_can_happen; vm_compute; reflexivity].
  unfold Overlap.renewal_refused. apply reachable_world_step;
    [|apply ready_can_happen; vm_compute; reflexivity].
  unfold Overlap.logout_returned. apply reachable_world_step;
    [|apply ready_can_happen; vm_compute; reflexivity].
  unfold Overlap.logout_restoring. apply reachable_world_step;
    [|apply ready_can_happen; vm_compute; reflexivity].
  unfold Overlap.logout_begun. apply reachable_world_step;
    [apply renewal_asking_reachable | exact I].
Qed.

Lemma logout_overtaken_timers :
  Datatypes.length (in_flight Overlap.logout_returned) = 1%nat /\
  timers (world_state Overlap.logout_returned) = [Overlap.restored_renewal] /\
  in_flight Overlap.logout_overtaken = [] /\
  timers (world_state Overlap.logout_overtaken)
  = [Overlap.restored_renewal; Overlap.upgrade_retry].
Proof. repeat split; vm_compute; reflexivity. Qed.

(** [logout()] run to its end from a state that keeps the discipline of
    the handles, nothing else in between. *)
Lemma logout_from_scratch x s :
  timers_ok s -> handles_ok s ->
  let s' := exec (logout x) s in
  outcome (logout x) s = Normal tt /\
  (timers s' = [] \/
   exists k due, timers s' = [new_timer k s due] /\ clock s' <= due /\
                 handle k s' = Some (next_timer s)) /\
  (forall t, In t (timers s) -> ~ In t (timers s')) /\
  exchanges_since s s' = if holds_valid_record s then [] else [CallBoot].
Proof.
  intros O Hh s'.
  destruct (signed_out_state s O) as (T0 & R0 & U0 & N0 & C0 & L0 & K0).
  assert (s' = exec (boot x) (signed_out s)) as Es'
    by (subst s'; apply exec_eq, logout_eq).
  pose proof (boot_from_idle x (signed_out s) T0 R0 U0) as B.
  cbv zeta in B. rewrite <- Es' in B.
  unfold new_timer in B. rewrite N0 in B. fold (new_timer) in B.
  repeat match goal with |- _ /\ _ => split end.
  - rewrite (outcome_eq _ _ _ _ (logout_eq x s)). apply boot_returns.
  - exact B.
  - intros t I I'. pose proof (pending_below_counter s t O Hh I) as Hlt.
    destruct B as [B | (k & due & B & _)]; rewrite B in I'; [destruct I'|].
    destruct I' as [<-|[]]. simpl in Hlt. lia.
  - rewrite (exchanges_since_skip s (signed_out s) s' CallSignOut K0 eq_refl)
      by (rewrite Es'; apply boot_calls_extend).
    rewrite Es', boot_calls_by_record.
    rewrite (proj1 (restorable_frame s (signed_out s) L0 C0)). reflexivity.
Qed.

(** ** Calls in flight: [cleanup] and [logout] *)

(** X1. [cleanup()] at any instant of a run, calls in flight or not: it
    returns normally, no timeout is left pending, both handles are null,
    nothing else of the state changes, a second [cleanup()] changes
    nothing, and no timer callback can begin until something is armed
    again. It cancels pending timeouts only: the calls in flight stay
    as they are and go on when their answers are in. In the scenario
    [Overlap.cleaned_up] the callback of the upgrade timeout is waiting
    for the gateway when [cleanup()] runs; when the answer (a 503) is
    in, the callback arms a new upgrade timeout, so a timeout is pending
    after [cleanup()] and fires five minutes later. *)
Theorem cleanup_leaves_no_timer w :
  reachable_world w ->
  let s := world_state w in
  let w' := happen (Begin OpCleanup) w in
  let s' := world_state w' in
  s' = exec cleanup s /\
  outcome cleanup s = Normal tt /\
  timers s' = [] /\ reexchangeTimer s' = None /\ upgradeTimer s' = None /\
  (forall t x, ~ can_happen (Begin (OpFire t x)) w') /\
  only_timers_changed s s' /\
  exec cleanup s' = s' /\
  in_flight w' = in_flight w /\
  (reachable_world Overlap.cleaned_up /\
   timers (world_state Overlap.cleaned_up) = [] /\
   can_happen (Resume 0) Overlap.cleaned_up /\
   timers (world_state (happen (Resume 0) Overlap.cleaned_up)) = [Overlap.retry_timer]).
Proof.
  intros R s w' s'.
  pose proof (reachable_world_timers_ok w R) as H. fold s in H.
  assert (s' = exec cleanup s) as E by reflexivity.
  assert (s' = cancelled Upgrade (cancelled Reexchange s)) as Es
    by (rewrite E; unfold exec; rewrite cleanup_eq; reflexivity).
  pose proof (cleanup_no_timers s H) as T. rewrite <- E in T.
  assert (reexchangeTimer s' = None /\ upgradeTimer s' = None) as [HR HU].
  { rewrite Es. split.
    - change (handle Reexchange (cancelled Upgrade (cancelled Reexchange s)) = None).
      rewrite !handle_cancelled. reflexivity.
    - change (handle Upgrade (cancelled Upgrade (cancelled Reexchange s)) = None).
      rewrite !handle_cancelled. reflexivity. }
  split; [exact E|].
  split; [unfold outcome; rewrite cleanup_eq; reflexivity|].
  split; [exact T|]. split; [exact HR|]. split; [exact HU|].
  split; [intros t x [I _]; fold s' in I; rewrite T in I; exact I|].
  split; [rewrite Es; eapply only_timers_changed_trans; apply cancelled_only_timers|].
  split.
  { unfold exec. rewrite cleanup_eq. cbn [snd]. unfold cancelled.
    change (handle Reexchange s') with (reexchangeTimer s'). rewrite HR.
    change (handle Upgrade s') with (upgradeTimer s'). rewrite HU. reflexivity. }
  split; [reflexivity|].
  split; [exact (proj1 cleanup_overtaken_reachable)|].
  split; [exact (proj1 cleanup_overtaken_timers)|].
  split; [exact (proj1 (proj2 cleanup_overtaken_reachable))|].
  exact (proj1 (proj2 cleanup_overtaken_timers)).
Qed.

Lemma cleanup_leaves_no_timer_witness :
  reachable_world Overlap.upgrade_asking /\
  let s := world_state Overlap.upgrade_asking in
  let w' := happen (Begin OpCleanup) Overlap.upgrade_asking in
  let s' := world_state w' in
  s' = exec cleanup s /\
  outcome cleanup s = Normal tt /\
  timers s' = [] /\ reexchangeTimer s' = None /\ upgradeTimer s' = None /\
  (forall t x, ~ can_happen (Begin (OpFire t x)) w') /\
  only_timers_changed s s' /\
  exec cleanup s' = s' /\
  in_flight w' = in_flight Overlap.upgrade_asking /\
  (reachable_world Overlap.cleaned_up /\
   timers (world_state Overlap.cleaned_up) = [] /\
   can_happen (Resume 0) Overlap.cleaned_up /\
   timers (world_state (happen (Resume 0) Overlap.cleaned_up)) = [Overlap.retry_timer]).
Proof.
  split; [exact upgrade_asking_reachable|].
  exact (cleanup_leaves_no_timer Overlap.upgrade_asking upgrade_asking_reachable).
Defined.

(** X12. [logout()] at any instant of a run, calls in flight or not. It
    never throws, whatever happens between its awaits. When it resumes
    after [signOut()], in whatever state the run is then, it leaves no
    timeout pending and both handles null at its next [await]. Run to
    its end with nothing else in between, it starts the timers from
    scratch: no timeout that was pending before the call is pending
    after it, at most one timeout is pending, created by the [boot()]
    inside [logout()] and kept in the handle of its purpose, and the only
    exchange request it can issue is the scoped-anonymous one, none when
    storage holds a record [boot()] restores. With a call in flight the
    bound is one pending timeout of each purpose, and it is reached: in
    the scenario [Overlap.logout_overtaken] the renewal callback is
    waiting for the gateway while [logout()] runs to its end, and when
    the callback has gone on two timeouts are pending. *)
Theorem logout_rearms_from_scratch x w :
  reachable_world w ->
  let s := world_state w in
  never_throws (fst (logout_async x s)) /\
  (forall s1, timers_ok s1 ->
     let s2 := resumed_state (fst (logout_async x s)) s1 in
     timers s2 = [] /\ reexchangeTimer s2 = None /\ upgradeTimer s2 = None) /\
  (let s' := exec (uninterrupted (logout_async x)) s in
   uninterrupted (logout_async x) s = logout x s /\
   outcome (uninterrupted (logout_async x)) s = Normal tt /\
   (timers s' = [] \/
    exists k due, timers s' = [new_timer k s due] /\ clock s' <= due /\
                  handle k s' = Some (next_timer s)) /\
   (forall t, In t (timers s) -> ~ In t (timers s')) /\
   exchanges_since s s' = if holds_valid_record s then [] else [CallBoot]) /\
  (forall k, (Datatypes.length (armed k s) <= 1)%nat) /\
  (reachable_world Overlap.logout_overtaken /\
   in_flight Overlap.logout_overtaken = [] /\
   timers (world_state Overlap.logout_overtaken)
   = [Overlap.restored_renewal; Overlap.upgrade_retry]).
Proof.
  intros R s.
  pose proof (reachable_world_timers_ok w R) as O. fold s in O.
  pose proof (reachable_world_handles_ok w R) as Hh. fold s in Hh.
  split; [apply logout_async_never_throws|].
  split; [intros s1 O1; apply logout_async_resumed_idle, O1|].
  split.
  - pose proof (uninterrupted_logout x s) as E.
    pose proof (logout_from_scratch x s O Hh) as L. cbv zeta in L |- *.
    unfold exec, outcome in L |- *. rewrite E.
    split; [reflexivity | exact L].
  - split; [exact (proj1 O)|].
    split; [exact logout_overtaken_reachable|].
    split; [exact (proj1 (proj2 (proj2 logout_overtaken_timers)))
           | exact (proj2 (proj2 (proj2 logout_overtaken_timers)))].
Qed.

Lemma logout_rearms_from_scratch_witness :
  reachable_world Overlap.renewal_asking /\
  let x := Scenario.granted "scoped-2" 600 in
  let s := world_state Overlap.renewal_asking in
  never_throws (fst (logout_async x s)) /\
  (forall s1, timers_ok s1 ->
     let s2 := resumed_state (fst (logout_async x s)) s1 in
     timers s2 = [] /\ reexchangeTimer s2 = None /\ upgradeTimer s2 = None) /\
  (let s' := exec (uninterrupted (logout_async x)) s in
   uninterrupted (logout_async x) s = logout x s /\
   outcome (uninterrupted (logout_async x)) s = Normal tt /\
   (timers s' = [] \/
    exists k due, timers s' = [new_timer k s due] /\ clock s' <= due /\
                  handle k s' = Some (next_timer s)) /\
   (forall t, In t (timers s) -> ~ In t (timers s')) /\
   exchanges_since s s' = if holds_valid_record s then [] else [CallBoot]) /\
  (forall k, (Datatypes.length (armed k s) <= 1)%nat) /\
  (reachable_world Overlap.logout_overtaken /\
   in_flight Overlap.logout_overtaken = [] /\
   timers (world_state Overlap.logout_overtaken)
   = [Overlap.restored_renewal; Overlap.upgrade_retry]).
Proof.
  split; [exact renewal_asking_reachable|].
  exact (logout_rearms_from_scratch (Scenario.granted "scoped-2" 600)
           Overlap.renewal_asking renewal_asking_reachable).
Defined.

(** ** Strings of the forms *)

Ltac each_char c :=
  destruct c as [[] [] [] [] [] [] [] []]; vm_compute; try reflexivity.

Lemma is_space_upper c : is_space (upper c) = is_space c.
Proof. each_char c. Qed.

Lemma is_space_lower c : is_space (lower c) = is_space c.
Proof. each_char c. Qed.

Lemma upper_lower c : upper (lower c) = upper c.
Proof. each_char c. Qed.

Lemma map_chars_app f a b : map_chars f (a +:+ b) = map_chars f a +:+ map_chars f b.
Proof. induction a as [|c a IH]; simpl; [reflexivity | rewrite IH; reflexivity]. Qed.

Lemma toUpperCase_toLowerCase s : toUpperCase (toLowerCase s) = toUpperCase s.
Proof.
  unfold toUpperCase, toLowerCase.
  induction s as [|c s IH]; simpl; [reflexivity | rewrite upper_lower, IH; reflexivity].
Qed.

Lemma map_chars_empty f s : map_chars f s = "" <-> s = "".
Proof. destruct s; simpl; split; congruence. Qed.

Section SpacePreserving.

Variable f : ascii -> ascii.
Hypothesis f_space : forall c, is_space (f c) = is_space c.

Lemma skip_spaces_map s : skip_spaces (map_chars f s) = map_chars f (skip_spaces s).
Proof.
  induction s as [|c s IH]; simpl; [reflexivity|].
  rewrite f_space. destruct (is_space c); [exact IH | reflexivity].
Qed.

Lemma trimEnd_map s : trimEnd (map_chars f s) = map_chars f (trimEnd s).
Proof.
  induction s as [|c s IH]; simpl; [reflexivity|].
  rewrite IH, f_space. destruct (trimEnd s); simpl; [|reflexivity].
  destruct (is_space c); reflexivity.
Qed.

Lemma trim_map s : trim (map_chars f s) = map_chars f (trim s).
Proof. unfold trim. rewrite skip_spaces_map, trimEnd_map. reflexivity. Qed.

Lemma starts_with_space_map s : starts_with_space (map_chars f s) = starts_with_space s.
Proof. destruct s; simpl; [reflexivity | apply f_space]. Qed.

Lemma ends_with_space_map s : ends_with_space (map_chars f s) = ends_with_space s.
Proof.
  induction s as [|c s IH]; [reflexivity|].
  destruct s as [|d s]; [apply f_space | exact IH].
Qed.

End SpacePreserving.

Lemma skip_spaces_blank l : blank l = true -> skip_spaces l = "".
Proof.
  induction l as [|c l IH]; simpl; [reflexivity|].
  destruct (is_space c); [exact IH | discriminate].
Qed.

Lemma trimEnd_blank r : blank r = true -> trimEnd r = "".
Proof.
  induction r as [|c r IH]; simpl; [reflexivity|].
  destruct (is_space c); [|discriminate]. simpl. intros H. rewrite (IH H). reflexivity.
Qed.

Lemma skip_spaces_app_blank l x : blank l = true -> skip_spaces (l +:+ x) = skip_spaces x.
Proof.
  induction l as [|c l IH]; simpl; [reflexivity|].
  destruct (is_space c); [exact IH | discriminate].
Qed.

Lemma trimEnd_app_blank x r : blank r = true -> trimEnd (x +:+ r) = trimEnd x.
Proof.
  intros H. induction x as [|c x IH]; simpl; [apply trimEnd_blank, H|].
  rewrite IH. reflexivity.
Qed.

Lemma trim_skip_app_blank x r :
  blank r = true -> trimEnd (skip_spaces (x +:+ r)) = trimEnd (skip_spaces x).
Proof.
  intros H. induction x as [|c x IH]; simpl.
  - change ("" +:+ r) with r. rewrite (skip_spaces_blank _ H). reflexivity.
  - destruct (is_space c); [exact IH|].
    apply (trimEnd_app_blank (String c x)), H.
Qed.

(** [trim] ignores white space around the text. *)
Lemma trim_padded l x r :
  blank l = true -> blank r = true -> trim (l +:+ x +:+ r) = trim x.
Proof.
  intros Hl Hr. unfold trim.
  rewrite (skip_spaces_app_blank _ _ Hl). apply trim_skip_app_blank, Hr.
Qed.

Lemma starts_with_space_skip s : starts_with_space (skip_spaces s) = false.
Proof.
  induction s as [|c s IH]; simpl; [reflexivity|].
  destruct (is_space c) eqn:E; [exact IH | simpl; exact E].
Qed.

Lemma starts_with_space_trimEnd s :
  starts_with_space s = false -> starts_with_space (trimEnd s) = false.
Proof.
  destruct s as [|c s]; simpl; [reflexivity|]. intros E.
  destruct (trimEnd s); [rewrite E|]; simpl; auto.
Qed.

Lemma ends_with_space_trimEnd s : ends_with_space (trimEnd s) = false.
Proof.
  induction s as [|c s IH]; simpl; [reflexivity|].
  destruct (trimEnd s) as [|d r].
  - destruct (is_space c) eqn:E; simpl; auto.
  - exact IH.
Qed.

Lemma skip_spaces_fixed s : starts_with_space s = false -> skip_spaces s = s.
Proof. destruct s as [|c s]; simpl; [reflexivity | intros ->; reflexivity]. Qed.

Lemma trimEnd_fixed s : ends_with_space s = false -> trimEnd s = s.
Proof.
  induction s as [|c s IH]; [reflexivity|].
  destruct s as [|d s].
  - simpl. intros ->. reflexivity.
  - intros H. change (trimEnd (String c (String d s)))
      with (match trimEnd (String d s) with
            | EmptyString => if is_space c then EmptyString else String c EmptyString
            | String d' r => String c (String d' r)
            end).
    rewrite (IH H). reflexivity.
Qed.

Lemma starts_with_space_trim s : starts_with_space (trim s) = false.
Proof. apply starts_with_space_trimEnd, starts_with_space_skip. Qed.

Lemma ends_with_space_trim s : ends_with_space (trim s) = false.
Proof. apply ends_with_space_trimEnd. Qed.

(** [s.trim() === s] exactly when [s] neither starts nor ends with
    white space. *)
Lemma trim_fixed_iff s :
  trim s = s <-> starts_with_space s = false /\ ends_with_space s = false.
Proof.
  split.
  - intros E. rewrite <- E. split; [apply starts_with_space_trim | apply ends_with_space_trim].
  - intros [H1 H2]. unfold trim. rewrite (skip_spaces_fixed _ H1). apply trimEnd_fixed, H2.
Qed.

Lemma squeeze_empty b s : s <> "" -> b = false -> squeeze b s <> "".
Proof. destruct s as [|c s]; [congruence|]. intros _ ->. simpl. destruct (is_space c); discriminate. Qed.

Lemma starts_with_space_squeeze s :
  starts_with_space (squeeze false s) = starts_with_space s.
Proof. destruct s as [|c s]; simpl; [reflexivity|]. destruct (is_space c) eqn:E; simpl; auto. Qed.

Lemma ends_with_space_cons c s :
  s <> "" -> ends_with_space (String c s) = ends_with_space s.
Proof. destruct s; [congruence | reflexivity]. Qed.

Lemma squeeze_run_to_end t :
  squeeze true t = "" -> t <> "" -> ends_with_space t = true.
Proof.
  induction t as [|x t IH]; [congruence|]. intros Q _.
  simpl in Q. destruct (is_space x) eqn:E; [|discriminate].
  destruct t as [|y t]; [exact E|].
  rewrite ends_with_space_cons by discriminate. apply IH; [exact Q | discriminate].
Qed.

Lemma ends_with_space_squeeze_false s b :
  ends_with_space s = false -> ends_with_space (squeeze b s) = false.
Proof.
  revert b. induction s as [|c s IH]; intros b H; [reflexivity|].
  destruct s as [|d s].
  - simpl in H. simpl. rewrite H. simpl. exact H.
  - change (ends_with_space (String c (String d s))) with (ends_with_space (String d s)) in H.
    change (squeeze b (String c (String d s)))
      with (if is_space c
            then if b then squeeze true (String d s)
                 else String " " (squeeze true (String d s))
            else String c (squeeze false (String d s))).
    destruct (is_space c) eqn:E; [destruct b|].
    + apply IH, H.
    + destruct (squeeze true (String d s)) as [|e r] eqn:Q.
      * rewrite (squeeze_run_to_end (String d s) Q) in H by discriminate. discriminate.
      * rewrite ends_with_space_cons by discriminate. rewrite <- Q. apply IH, H.
    + rewrite ends_with_space_cons by (apply squeeze_empty; [discriminate | reflexivity]).
      apply IH, H.
Qed.

Lemma ends_with_space_squeeze_true s b :
  ends_with_space s = true ->
  (b = true /\ squeeze b s = "") \/ ends_with_space (squeeze b s) = true.
Proof.
  revert b. induction s as [|c s IH]; intros b H; [discriminate|].
  destruct s as [|d s].
  - simpl in H. simpl. rewrite H. destruct b; [left; auto | right; reflexivity].
  - change (ends_with_space (String c (String d s))) with (ends_with_space (String d s)) in H.
    change (squeeze b (String c (String d s)))
      with (if is_space c
            then if b then squeeze true (String d s)
                 else String " " (squeeze true (String d s))
            else String c (squeeze false (String d s))).
    destruct (is_space c) eqn:E; [destruct b|].
    + destruct (IH true H) as [[_ Q]|Q]; [left; auto | right; exact Q].
    + right. destruct (IH true H) as [[_ Q]|Q].
      * rewrite Q. reflexivity.
      * destruct (squeeze true (String d s)) as [|e r] eqn:Q'; [discriminate|].
        rewrite ends_with_space_cons by discriminate. exact Q.
    + right. destruct (IH false H) as [[Q _]|Q]; [discriminate|].
      rewrite ends_with_space_cons by (apply squeeze_empty; [discriminate | reflexivity]).
      exact Q.
Qed.

Lemma ends_with_space_collapse s :
  ends_with_space (collapse_spaces s) = ends_with_space s.
Proof.
  unfold collapse_spaces. destruct (ends_with_space s) eqn:E.
  - destruct (ends_with_space_squeeze_true s false E) as [[Q _]|Q]; [discriminate | exact Q].
  - apply ends_with_space_squeeze_false, E.
Qed.

(** ** PuzzleSolver *)

Lemma upper_upper c : upper (upper c) = upper c.
Proof. each_char c. Qed.

Lemma toUpperCase_idem s : toUpperCase (toUpperCase s) = toUpperCase s.
Proof.
  unfold toUpperCase.
  induction s as [|c s IH]; simpl; [reflexivity | rewrite upper_upper, IH; reflexivity].
Qed.

Lemma truthy_map_chars f s : truthy_string (map_chars f s) = truthy_string s.
Proof. destruct s; reflexivity. Qed.

Lemma truthy_string_iff s : truthy_string s = true <-> s <> "".
Proof. destruct s; simpl; split; congruence. Qed.

Lemma accepted_spec sol a :
  Puzzle.accepted sol a
  = truthy_string (trim a)
    && String.eqb (Puzzle.normalizedAnswer a) (Puzzle.normalizedSolution sol).
Proof.
  unfold Puzzle.accepted, Puzzle.handleSubmit.
  cbn [Puzzle.answer Puzzle.setAnswer Puzzle.setAttempts].
  destruct (truthy_string (trim a)); cbn [negb andb]; [|reflexivity].
  destruct (String.eqb _ _); reflexivity.
Qed.

Lemma normalizedAnswer_variants a l r :
  blank l = true -> blank r = true ->
  trim (l +:+ toLowerCase a +:+ r) = toLowerCase (trim a) /\
  trim (l +:+ toUpperCase a +:+ r) = toUpperCase (trim a) /\
  Puzzle.normalizedAnswer (l +:+ toLowerCase a +:+ r) = Puzzle.normalizedAnswer a /\
  Puzzle.normalizedAnswer (l +:+ toUpperCase a +:+ r) = Puzzle.normalizedAnswer a.
Proof.
  intros Hl Hr.
  assert (trim (l +:+ toLowerCase a +:+ r) = toLowerCase (trim a)) as E1
    by (rewrite (trim_padded _ _ _ Hl Hr); apply (trim_map lower is_space_lower)).
  assert (trim (l +:+ toUpperCase a +:+ r) = toUpperCase (trim a)) as E2
    by (rewrite (trim_padded _ _ _ Hl Hr); apply (trim_map upper is_space_upper)).
  unfold Puzzle.normalizedAnswer.
  rewrite E1, E2, toUpperCase_toLowerCase, toUpperCase_idem. auto.
Qed.

(** X17. The answer check of [PuzzleSolver] ignores the case of the
    answer and white space around it: an ASCII answer typed in lower
    case, in upper case, and with any white space before or after it
    gets the same verdict as the answer itself. *)
Theorem answer_check_ignores_case_and_padding sol a l r :
  ascii_only sol = true -> ascii_only a = true ->
  blank l = true -> blank r = true ->
  Puzzle.accepted sol (l +:+ toLowerCase a +:+ r) = Puzzle.accepted sol a /\
  Puzzle.accepted sol (l +:+ toUpperCase a +:+ r) = Puzzle.accepted sol a.
Proof.
  intros _ _ Hl Hr.
  destruct (normalizedAnswer_variants a l r Hl Hr) as (E1 & E2 & N1 & N2).
  rewrite !accepted_spec, E1, E2, N1, N2.
  unfold toLowerCase, toUpperCase. rewrite !truthy_map_chars. auto.
Qed.

Lemma answer_check_ignores_case_and_padding_witness :
  ascii_only "THEY AWAKEN" = true /\ ascii_only "They Awaken" = true /\
  blank " " = true /\ blank "  " = true /\
  Puzzle.accepted "THEY AWAKEN" (" " +:+ toLowerCase "They Awaken" +:+ "  ")
  = Puzzle.accepted "THEY AWAKEN" "They Awaken" /\
  Puzzle.accepted "THEY AWAKEN" (" " +:+ toUpperCase "They Awaken" +:+ "  ")
  = Puzzle.accepted "THEY AWAKEN" "They Awaken".
Proof.
  assert (ascii_only "THEY AWAKEN" = true) as H1 by (vm_compute; reflexivity).
  assert (ascii_only "They Awaken" = true) as H2 by (vm_compute; reflexivity).
  assert (blank " " = true) as H3 by (vm_compute; reflexivity).
  assert (blank "  " = true) as H4 by (vm_compute; reflexivity).
  split; [exact H1|]. split; [exact H2|]. split; [exact H3|]. split; [exact H4|].
  exact (answer_check_ignores_case_and_padding "THEY AWAKEN" "They Awaken" " " "  "
           H1 H2 H3 H4).
Defined.

(** An accepted answer tells the shape of the solution: it is not empty
    and has no white space at either end. *)
Lemma accepted_solution_shape sol a :
  Puzzle.accepted sol a = true -> sol <> "" /\ trim sol = sol.
Proof.
  rewrite accepted_spec. intros H. apply andb_true_iff in H. destruct H as [Ht He].
  apply String.eqb_eq in He. apply truthy_string_iff in Ht.
  unfold Puzzle.normalizedAnswer, Puzzle.normalizedSolution in He.
  split.
  - intros ->. simpl in He. revert He. unfold collapse_spaces.
    apply squeeze_empty; [|reflexivity].
    unfold toUpperCase. intros Q. apply map_chars_empty in Q. auto.
  - apply trim_fixed_iff. split.
    + pose proof (f_equal starts_with_space He) as S.
      unfold collapse_spaces, toUpperCase in S.
      rewrite !starts_with_space_squeeze in S.
      rewrite !(starts_with_space_map upper is_space_upper) in S.
      rewrite <- S. apply starts_with_space_trim.
    + pose proof (f_equal ends_with_space He) as S.
      rewrite !ends_with_space_collapse in S. unfold toUpperCase in S.
      rewrite !(ends_with_space_map upper is_space_upper) in S.
      rewrite <- S. apply ends_with_space_trim.
Qed.

Lemma accepted_verbatim sol : sol <> "" -> trim sol = sol -> Puzzle.accepted sol sol = true.
Proof.
  intros Hn Ht. rewrite accepted_spec. unfold Puzzle.normalizedAnswer, Puzzle.normalizedSolution.
  rewrite Ht, String.eqb_refl, (proj2 (truthy_string_iff sol) Hn). reflexivity.
Qed.

(** X18. Which puzzles can be solved at all. Because only the answer is
    trimmed, never the solution, an ASCII solution is accepted for some
    ASCII answer exactly when it is not empty and neither starts nor
    ends with white space; then the solution typed verbatim is accepted.
    A component rendered with the empty solution (what the puzzle page
    passes for a puzzle without one) accepts no answer. *)
Theorem puzzle_solvable_iff sol :
  ascii_only sol = true ->
  ((exists a, ascii_only a = true /\ Puzzle.accepted sol a = true)
   <-> sol <> "" /\ trim sol = sol) /\
  (sol <> "" /\ trim sol = sol -> Puzzle.accepted sol sol = true) /\
  (forall a, Puzzle.accepted "" a = false).
Proof.
  intros Ha. split; [split|split].
  - intros (a & _ & H). apply (accepted_solution_shape sol a H).
  - intros [Hn Ht]. exists sol. split; [exact Ha | apply accepted_verbatim; assumption].
  - intros [Hn Ht]. apply accepted_verbatim; assumption.
  - intros a. destruct (Puzzle.accepted "" a) eqn:E; [|reflexivity].
    destruct (accepted_solution_shape "" a E) as [Hn _]. congruence.
Qed.

Lemma puzzle_solvable_iff_witness :
  ascii_only "THEY AWAKEN" = true /\
  "THEY AWAKEN" <> "" /\ trim "THEY AWAKEN" = "THEY AWAKEN" /\
  Puzzle.accepted "THEY AWAKEN" "THEY AWAKEN" = true.
Proof.
  assert (ascii_only "THEY AWAKEN" = true) as H by (vm_compute; reflexivity).
  assert ("THEY AWAKEN" <> "") as Hn by discriminate.
  assert (trim "THEY AWAKEN" = "THEY AWAKEN") as Ht by (vm_compute; reflexivity).
  split; [exact H|]. split; [exact Hn|]. split; [exact Ht|].
  exact (proj1 (proj2 (puzzle_solvable_iff "THEY AWAKEN" H)) (conj Hn Ht)).
Defined.

(** The form along a run. *)
Lemma step_invariant sol st ev :
  (0 <= Puzzle.attempts st /\
   (Puzzle.solved st = true ->
    Puzzle.accepted sol (Puzzle.answer st) = true /\ 1 <= Puzzle.attempts st /\
    Puzzle.type (Puzzle.feedback st) = Some Puzzle.success) /\
   (Puzzle.solved st = false ->
    Puzzle.type (Puzzle.feedback st) <> Some Puzzle.success)) ->
  let st' := Puzzle.step sol st ev in
  0 <= Puzzle.attempts st' /\
  (Puzzle.solved st' = true ->
   Puzzle.accepted sol (Puzzle.answer st') = true /\ 1 <= Puzzle.attempts st' /\
   Puzzle.type (Puzzle.feedback st') = Some Puzzle.success) /\
  (Puzzle.solved st' = false ->
   Puzzle.type (Puzzle.feedback st') <> Some Puzzle.success).
Proof.
  intros (H0 & H1 & H2) st'. subst st'. unfold Puzzle.step.
  destruct (Puzzle.solved st) eqn:S.
  { cbv iota. split; [exact H0|].
    split; [intros _; exact (H1 eq_refl) | intros Q; rewrite S in Q; discriminate]. }
  specialize (H2 eq_refl). clear H1.
  destruct ev as [a|].
  - cbn. rewrite S. split; [exact H0|].
    split; [intros Q; discriminate | intros _; exact H2].
  - pose proof (accepted_spec sol (Puzzle.answer st)) as A.
    unfold Puzzle.handleSubmit.
    destruct (truthy_string (trim (Puzzle.answer st))); cbn [negb andb] in *.
    + cbn [Puzzle.answer Puzzle.setAttempts].
      destruct (String.eqb _ _); cbn.
      * split; [lia|].
        split; [intros _; split; [exact A | split; [lia | reflexivity]]
               | intros Q; discriminate].
      * rewrite S. split; [lia|].
        split; [intros Q; discriminate | intros _; discriminate].
    + cbn. rewrite S. split; [lia|].
      split; [intros Q; discriminate | intros _; discriminate].
Qed.

(** X19. Along every run of the form (typing ASCII text and submitting,
    in any order, from the first render): the puzzle is shown as solved
    only after an answer that the check accepts, which is then the text
    left in the input; the attempt counter is then at least one and the
    feedback is the success message; while it is not solved the feedback
    is never the success message. A puzzle whose solution is empty or
    has white space at either end is never shown as solved. *)
Theorem solved_only_by_an_accepted_answer sol evs :
  ascii_only sol = true -> forallb Puzzle.ascii_event evs = true ->
  let st := Puzzle.run sol evs in
  0 <= Puzzle.attempts st /\
  (Puzzle.solved st = true ->
   Puzzle.accepted sol (Puzzle.answer st) = true /\ 1 <= Puzzle.attempts st /\
   Puzzle.type (Puzzle.feedback st) = Some Puzzle.success) /\
  (Puzzle.solved st = false ->
   Puzzle.type (Puzzle.feedback st) <> Some Puzzle.success) /\
  (sol = "" \/ trim sol <> sol -> Puzzle.solved st = false).
Proof.
  intros _ _ st.
  assert (0 <= Puzzle.attempts st /\
          (Puzzle.solved st = true ->
           Puzzle.accepted sol (Puzzle.answer st) = true /\ 1 <= Puzzle.attempts st /\
           Puzzle.type (Puzzle.feedback st) = Some Puzzle.success) /\
          (Puzzle.solved st = false ->
           Puzzle.type (Puzzle.feedback st) <> Some Puzzle.success)) as (H0 & H1 & H2).
  { subst st. unfold Puzzle.run.
    assert (0 <= Puzzle.attempts Puzzle.mount /\
            (Puzzle.solved Puzzle.mount = true ->
             Puzzle.accepted sol (Puzzle.answer Puzzle.mount) = true /\
             1 <= Puzzle.attempts Puzzle.mount /\
             Puzzle.type (Puzzle.feedback Puzzle.mount) = Some Puzzle.success) /\
            (Puzzle.solved Puzzle.mount = false ->
             Puzzle.type (Puzzle.feedback Puzzle.mount) <> Some Puzzle.success)) as I
      by (cbn; repeat split; try lia; discriminate).
    revert I. generalize Puzzle.mount. induction evs as [|ev evs IH]; intros st0 I.
    - exact I.
    - simpl. apply IH, (step_invariant sol st0 ev I). }
  repeat split; auto; try (apply H1; assumption).
  intros Hbad. destruct (Puzzle.solved st) eqn:S; [|reflexivity].
  destruct (H1 eq_refl) as (A & _).
  destruct (accepted_solution_shape sol _ A) as [Hn Ht].
  destruct Hbad; congruence.
Qed.

Lemma solved_only_by_an_accepted_answer_witness :
  ascii_only "THEY AWAKEN" = true /\
  forallb Puzzle.ascii_event
    [Puzzle.Submitted; Puzzle.Typed "they sleep"; Puzzle.Submitted;
     Puzzle.Typed " they  awaken "; Puzzle.Submitted] = true /\
  Puzzle.solved
    (Puzzle.run "THEY AWAKEN"
       [Puzzle.Submitted; Puzzle.Typed "they sleep"; Puzzle.Submitted;
        Puzzle.Typed " they  awaken "; Puzzle.Submitted]) = true /\
  1 <= Puzzle.attempts
         (Puzzle.run "THEY AWAKEN"
            [Puzzle.Submitted; Puzzle.Typed "they sleep"; Puzzle.Submitted;
             Puzzle.Typed " they  awaken "; Puzzle.Submitted]).
Proof.
  assert (ascii_only "THEY AWAKEN" = true) as H1 by (vm_compute; reflexivity).
  assert (forallb Puzzle.ascii_event
            [Puzzle.Submitted; Puzzle.Typed "they sleep"; Puzzle.Submitted;
             Puzzle.Typed " they  awaken "; Puzzle.Submitted] = true) as H2
    by (vm_compute; reflexivity).
  assert (Puzzle.solved
            (Puzzle.run "THEY AWAKEN"
               [Puzzle.Submitted; Puzzle.Typed "they sleep"; Puzzle.Submitted;
                Puzzle.Typed " they  awaken "; Puzzle.Submitted]) = true) as H3
    by (vm_compute; reflexivity).
  split; [exact H1|]. split; [exact H2|]. split; [exact H3|].
  exact (proj1 (proj2 (proj1 (proj2
           (solved_only_by_an_accepted_answer "THEY AWAKEN" _ H1 H2)) H3))).
Defined.

(** ** The account forms *)

Lemma append_cons c x z : String c x +:+ z = String c (x +:+ z).
Proof. reflexivity. Qed.

Lemma append_empty z : "" +:+ z = z.
Proof. reflexivity. Qed.

Lemma every_keep f s : every f (keep f s) = true.
Proof.
  induction s as [|c s IH]; simpl; [reflexivity|].
  destruct (f c) eqn:E; simpl; [rewrite E|]; exact IH.
Qed.

Lemma keep_app f a b : keep f (a +:+ b) = keep f a +:+ keep f b.
Proof.
  induction a as [|c a IH]; [reflexivity|].
  rewrite append_cons. simpl. rewrite IH. destruct (f c); reflexivity.
Qed.

Lemma keep_fixed f s : every f s = true -> keep f s = s.
Proof.
  induction s as [|c s IH]; simpl; [reflexivity|].
  intros H. apply andb_true_iff in H. destruct H as [-> H]. rewrite (IH H). reflexivity.
Qed.

Lemma keep_empty_iff f s : keep f s = "" <-> every (fun c => negb (f c)) s = true.
Proof.
  induction s as [|c s IH]; simpl; [tauto|].
  destruct (f c); simpl; [split; discriminate | exact IH].
Qed.

(** A separator that the text before it cannot contain splits a string
    in one way only. *)
Lemma split_at_separator f sep x y s t :
  f sep = false -> every f x = true -> every f y = true ->
  x +:+ String sep s = y +:+ String sep t -> x = y /\ s = t.
Proof.
  intros Hsep. revert y. induction x as [|c x IH]; intros [|d y] Hx Hy E.
  - rewrite !append_empty in E. injection E as E. auto.
  - rewrite append_empty, append_cons in E. injection E as E1 E2. subst d.
    simpl in Hy. rewrite Hsep in Hy. discriminate.
  - rewrite append_empty, append_cons in E. injection E as E1 E2. subst c.
    simpl in Hx. rewrite Hsep in Hx. discriminate.
  - rewrite !append_cons in E. injection E as E1 E2. subst d.
    simpl in Hx, Hy. apply andb_true_iff in Hx, Hy.
    destruct (IH y (proj2 Hx) (proj2 Hy) E2) as [-> ->]. auto.
Qed.

Lemma local_part_alnum u : every is_lower_alnum (local_part u) = true.
Proof. apply every_keep. Qed.

Lemma emails_differ u u' : Account.ritual_email u <> Account.auth_email u'.
Proof.
  unfold Account.ritual_email, Account.auth_email. intros E.
  destruct (split_at_separator is_lower_alnum "@" _ _ "veil.local" "veil.app"
              eq_refl (local_part_alnum u) (local_part_alnum u') E) as [_ Q].
  discriminate.
Qed.

(** X20. An account created in the character ritual cannot be signed
    into on the authentication page: for ASCII usernames, the e-mail
    address the ritual registers (local part, then [@veil.local]) differs
    from every address the authentication page can send, whatever
    username is typed there; so the request [handleAccountCreation]
    makes and any request [handleLogin] makes never carry the same
    address. *)
Theorem ritual_account_cannot_sign_in w reply st reply' :
  ascii_only (Ritual.username w) = true ->
  ascii_only (Account.loginUsername st) = true ->
  Account.ritual_email (Ritual.username w) <> Account.auth_email (Account.loginUsername st) /\
  forall req req',
    snd (Ritual.handleAccountCreation reply w) = Some req ->
    snd (fst (Account.handleLogin reply' st)) = Some req' ->
    Account.req_email req <> Account.req_email req'.
Proof.
  intros _ _. split; [apply emails_differ|].
  intros req req'. unfold Ritual.handleAccountCreation, Account.handleLogin.
  destruct (Account.ritual_validation _ _ _); [discriminate|].
  destruct reply, reply'; cbn; intros [= <-] [= <-]; cbn; apply emails_differ.
Qed.

Lemma ritual_account_cannot_sign_in_witness :
  ascii_only (Ritual.username Cases5.ritualist) = true /\
  ascii_only (Account.loginUsername Cases5.visitor) = true /\
  Account.ritual_email (Ritual.username Cases5.ritualist)
  <> Account.auth_email (Account.loginUsername Cases5.visitor).
Proof.
  assert (ascii_only (Ritual.username Cases5.ritualist) = true) as H1
    by (vm_compute; reflexivity).
  assert (ascii_only (Account.loginUsername Cases5.visitor) = true) as H2
    by (vm_compute; reflexivity).
  split; [exact H1|]. split; [exact H2|].
  exact (proj1 (ritual_account_cannot_sign_in Cases5.ritualist (Normal tt)
                  Cases5.visitor (Normal tt) H1 H2)).
Defined.

Lemma lower_lower c : lower (lower c) = lower c.
Proof. each_char c. Qed.

Lemma lower_upper c : lower (upper c) = lower c.
Proof. each_char c. Qed.

Lemma lower_alnum_fixed c : is_lower_alnum c = true -> lower c = c.
Proof. each_char c; discriminate. Qed.

Lemma toLowerCase_toUpperCase s : toLowerCase (toUpperCase s) = toLowerCase s.
Proof.
  unfold toUpperCase, toLowerCase.
  induction s as [|c s IH]; simpl; [reflexivity | rewrite lower_upper, IH; reflexivity].
Qed.

Lemma toLowerCase_fixed s : every is_lower_alnum s = true -> toLowerCase s = s.
Proof.
  unfold toLowerCase. induction s as [|c s IH]; simpl; [reflexivity|].
  intros H. apply andb_true_iff in H. destruct H as [Hc H].
  rewrite (lower_alnum_fixed _ Hc), (IH H). reflexivity.
Qed.

Lemma local_part_app a b : local_part (a +:+ b) = local_part a +:+ local_part b.
Proof. unfold local_part, toLowerCase. rewrite map_chars_app, keep_app. reflexivity. Qed.

Lemma local_part_empty_iff u :
  local_part u = "" <-> every (fun x => negb (is_lower_alnum (lower x))) u = true.
Proof.
  unfold local_part, toLowerCase. rewrite keep_empty_iff.
  induction u as [|x u IH]; simpl; [tauto|].
  destruct (negb (is_lower_alnum (lower x))); simpl; [exact IH | tauto].
Qed.

(** X21. The e-mail address an account form derives from an ASCII
    username keeps only its letters and digits, in lower case: the local
    part contains nothing but [a-z0-9] and is a fixed point of the
    derivation; usernames that differ in case, or by a character that is
    neither a letter nor a digit anywhere in the name, get the same
    address; and the local part is empty exactly when the username has
    no letter and no digit. *)
Theorem email_ignores_case_and_punctuation u v c :
  ascii_only u = true -> ascii_only v = true ->
  is_lower_alnum (lower c) = false ->
  every is_lower_alnum (local_part u) = true /\
  local_part (local_part u) = local_part u /\
  Account.auth_email (toUpperCase u) = Account.auth_email u /\
  Account.auth_email (u +:+ String c v) = Account.auth_email (u +:+ v) /\
  (local_part u = "" <-> every (fun x => negb (is_lower_alnum (lower x))) u = true).
Proof.
  intros _ _ Hc. repeat match goal with |- _ /\ _ => split end.
  - apply local_part_alnum.
  - unfold local_part at 1. rewrite (toLowerCase_fixed _ (local_part_alnum u)).
    apply keep_fixed, local_part_alnum.
  - unfold Account.auth_email, local_part. rewrite toLowerCase_toUpperCase. reflexivity.
  - unfold Account.auth_email. rewrite !local_part_app. do 2 f_equal.
    unfold local_part, toLowerCase. simpl. rewrite Hc. reflexivity.
  - apply local_part_empty_iff.
Qed.

Lemma email_ignores_case_and_punctuation_witness :
  ascii_only "Ada" = true /\ ascii_only "Lovelace" = true /\
  is_lower_alnum (lower " ") = false /\
  Account.auth_email ("Ada" +:+ String " " "Lovelace")
  = Account.auth_email ("Ada" +:+ "Lovelace").
Proof.
  assert (ascii_only "Ada" = true) as H1 by (vm_compute; reflexivity).
  assert (ascii_only "Lovelace" = true) as H2 by (vm_compute; reflexivity).
  assert (is_lower_alnum (lower " ") = false) as H3 by (vm_compute; reflexivity).
  split; [exact H1|]. split; [exact H2|]. split; [exact H3|].
  exact (proj1 (proj2 (proj2 (proj2
           (email_ignores_case_and_punctuation "Ada" "Lovelace" " " H1 H2 H3))))).
Defined.

(** ** The checks of the two forms *)

Lemma validation_cases u p c :
  (Account.auth_validation u p c
   = if negb (truthy_string (trim u)) then Some "Username is required"
     else if negb (String.eqb p c) then Some "Passwords do not match"
     else if (String.length p <? 8)%nat
          then Some "Password must be at least 8 characters long"
     else None) /\
  (Account.ritual_validation u p c
   = if negb (truthy_string (trim u)) then Some "Username is required"
     else if (String.length p <? 8)%nat
          then Some "Password must be at least 8 characters long"
     else if negb (String.eqb p c) then Some "Passwords do not match"
     else None).
Proof. split; reflexivity. Qed.

(** X22. The authentication page and the ritual accept exactly the same
    ASCII input (a username that is not blank, the password typed twice
    alike, at least eight characters), but they run the two password
    checks in opposite order: they report different errors exactly when
    the password is both too short and not confirmed, where the
    authentication page says the passwords do not match and the ritual
    says the password is too short. *)
Theorem forms_accept_the_same_input u p c :
  ascii_only u = true -> ascii_only p = true -> ascii_only c = true ->
  (Account.auth_validation u p c = None <-> Account.ritual_validation u p c = None) /\
  (Account.auth_validation u p c = None
   <-> trim u <> "" /\ p = c /\ (8 <= String.length p)%nat) /\
  (Account.auth_validation u p c <> Account.ritual_validation u p c
   <-> trim u <> "" /\ p <> c /\ (String.length p < 8)%nat) /\
  (trim u <> "" -> p <> c -> (String.length p < 8)%nat ->
   Account.auth_validation u p c = Some "Passwords do not match" /\
   Account.ritual_validation u p c = Some "Password must be at least 8 characters long").
Proof.
  intros _ _ _.
  unfold Account.auth_validation, Account.ritual_validation.
  pose proof (truthy_string_iff (trim u)) as Ht.
  destruct (truthy_string (trim u)); cbn [negb].
  - assert (trim u <> "") as Hu by (apply Ht; reflexivity).
    destruct (String.eqb_spec p c) as [Hpc|Hpc]; cbn [negb];
      destruct (Nat.ltb_spec (String.length p) 8) as [Hl|Hl];
      repeat split; intros; try congruence; try tauto; try lia;
      try (exfalso; intuition (congruence || lia)).
  - assert (trim u = "") as Hu
      by (destruct (trim u);
          [reflexivity | assert (false = true) by (apply Ht; discriminate); discriminate]).
    repeat split; intros; try congruence; try tauto;
      try (exfalso; intuition (congruence || lia)).
Qed.

Lemma forms_accept_the_same_input_witness :
  ascii_only "ada" = true /\ ascii_only "short" = true /\ ascii_only "shirt" = true /\
  trim "ada" <> "" /\ "short" <> "shirt" /\ (String.length "short" < 8)%nat /\
  Account.auth_validation "ada" "short" "shirt" = Some "Passwords do not match" /\
  Account.ritual_validation "ada" "short" "shirt"
  = Some "Password must be at least 8 characters long".
Proof.
  assert (ascii_only "ada" = true) as H1 by (vm_compute; reflexivity).
  assert (ascii_only "short" = true) as H2 by (vm_compute; reflexivity).
  assert (ascii_only "shirt" = true) as H3 by (vm_compute; reflexivity).
  assert (trim "ada" <> "") as H4 by (vm_compute; discriminate).
  assert ("short" <> "shirt") as H5 by discriminate.
  assert (String.length "short" < 8)%nat as H6 by (vm_compute; lia).
  split; [exact H1|]. split; [exact H2|]. split; [exact H3|].
  split; [exact H4|]. split; [exact H5|]. split; [exact H6|].
  exact (proj2 (proj2 (proj2 (forms_accept_the_same_input "ada" "short" "shirt" H1 H2 H3)))
           H4 H5 H6).
Defined.

(** ** handleSignup and handleLogin *)

Lemma message_or_nonempty fallback e : fallback <> "" -> Account.message_or fallback e <> "".
Proof.
  intros Hf. unfold Account.message_or.
  destruct (JS.message e) eqn:E; simpl; [exact Hf | discriminate].
Qed.

Lemma auth_validation_message u p c msg :
  Account.auth_validation u p c = Some msg -> msg <> "".
Proof.
  unfold Account.auth_validation.
  destruct (negb _); [intros [= <-]; discriminate|].
  destruct (negb _); [intros [= <-]; discriminate|].
  destruct (_ <? _)%nat; [intros [= <-]; discriminate | discriminate].
Qed.

Lemma auth_validation_passed u p c :
  Account.auth_validation u p c = None ->
  trim u <> "" /\ p = c /\ (8 <= String.length p)%nat.
Proof.
  unfold Account.auth_validation.
  pose proof (truthy_string_iff (trim u)) as Ht.
  destruct (truthy_string (trim u)); cbn [negb]; [|discriminate].
  destruct (String.eqb_spec p c); cbn [negb]; [|discriminate].
  destruct (Nat.ltb_spec (String.length p) 8); [discriminate|].
  intros _. repeat split; [apply Ht; reflexivity | assumption | assumption].
Qed.

(** X23. [handleSignup] of the authentication page, for ASCII input and
    however [auth.signUp] completes: the form never stays in the loading
    state; [auth.signUp] is called exactly when the three checks pass,
    so a blank username, an unconfirmed password or a password shorter
    than eight characters is never sent; the call carries the address
    derived from the username and the password as typed; the router is
    sent to ["/"] exactly when the call returns normally, and otherwise
    a non-empty error message is shown. [handleLogin] runs no check and
    always calls [auth.login]. *)
Theorem signup_form_outcomes reply st :
  ascii_only (Account.signupUsername st) = true ->
  ascii_only (Account.signupPassword st) = true ->
  ascii_only (Account.signupConfirmPassword st) = true ->
  let st' := fst (fst (Account.handleSignup reply st)) in
  let req := snd (fst (Account.handleSignup reply st)) in
  let nav := snd (Account.handleSignup reply st) in
  Account.loading st' = false /\
  (req = None <->
   Account.auth_validation (Account.signupUsername st) (Account.signupPassword st)
     (Account.signupConfirmPassword st) <> None) /\
  (forall r, req = Some r ->
     Account.req_email r = Account.auth_email (Account.signupUsername st) /\
     Account.req_password r = Account.signupPassword st /\
     trim (Account.signupUsername st) <> "" /\
     Account.signupConfirmPassword st = Account.req_password r /\
     (8 <= String.length (Account.req_password r))%nat) /\
  (nav = Account.Push "/" <-> req <> None /\ exists v, reply = Normal v) /\
  (nav = Account.Push "/" <-> Account.error st' = None) /\
  (forall msg, Account.error st' = Some msg -> msg <> "") /\
  (forall reply' , snd (fst (Account.handleLogin reply' st)) <> None).
Proof.
  intros _ _ _ st' req nav. subst st' req nav.
  assert (forall reply', snd (fst (Account.handleLogin reply' st)) <> None) as Hlogin
    by (intros reply'; unfold Account.handleLogin; destruct reply'; discriminate).
  unfold Account.handleSignup.
  destruct (Account.auth_validation _ _ _) as [msg|] eqn:V.
  - pose proof (auth_validation_message _ _ _ _ V) as Hm. cbn.
    repeat match goal with |- _ /\ _ => split end;
      solve [exact Hlogin | intuition congruence].
  - destruct (auth_validation_passed _ _ _ V) as (Hu & Hpc & Hl).
    destruct reply as [v|e]; cbn;
      repeat match goal with |- _ /\ _ => split end;
      solve [ exact Hlogin
            | intuition congruence
            | intros r [= <-]; cbn; auto
            | split; [intros _; split; [discriminate | eexists; reflexivity] | reflexivity]
            | split; [discriminate | intros [_ [v Hv]]; discriminate]
            | intros m [= <-]; apply message_or_nonempty; discriminate ].
Qed.

Lemma signup_form_outcomes_witness :
  ascii_only (Account.signupUsername Cases5.visitor) = true /\
  ascii_only (Account.signupPassword Cases5.visitor) = true /\
  ascii_only (Account.signupConfirmPassword Cases5.visitor) = true /\
  Account.loading (fst (fst (Account.handleSignup (Normal tt) Cases5.visitor))) = false.
Proof.
  assert (ascii_only (Account.signupUsername Cases5.visitor) = true) as H1
    by (vm_compute; reflexivity).
  assert (ascii_only (Account.signupPassword Cases5.visitor) = true) as H2
    by (vm_compute; reflexivity).
  assert (ascii_only (Account.signupConfirmPassword Cases5.visitor) = true) as H3
    by (vm_compute; reflexivity).
  split; [exact H1|]. split; [exact H2|]. split; [exact H3|].
  exact (proj1 (signup_form_outcomes (Normal tt) Cases5.visitor H1 H2 H3)).
Defined.

(** ** The ritual *)

Lemma ritual_validation_cases u p c :
  Account.ritual_validation u p c = None \/
  Account.ritual_validation u p c = Some "Username is required" /\ trim u = "" \/
  Account.ritual_validation u p c = Some "Password must be at least 8 characters long" /\
    (String.length p < 8)%nat \/
  Account.ritual_validation u p c = Some "Passwords do not match" /\ p <> c.
Proof.
  unfold Account.ritual_validation.
  destruct (trim u) eqn:Hu; cbn [truthy_string negb]; [auto|].
  destruct (Nat.ltb_spec (String.length p) 8); [auto|].
  destruct (String.eqb_spec p c); cbn [negb]; auto.
Qed.

Lemma ritual_validation_passed u p c :
  Account.ritual_validation u p c = None <->
  trim u <> "" /\ p = c /\ (8 <= String.length p)%nat.
Proof.
  unfold Account.ritual_validation.
  destruct (trim u) eqn:Hu; cbn [truthy_string negb]; [split; [discriminate | tauto]|].
  destruct (Nat.ltb_spec (String.length p) 8); [split; [discriminate | lia]|].
  destruct (String.eqb_spec p c); cbn [negb]; split;
    try discriminate; try tauto; intros; repeat split; auto; discriminate.
Qed.

Lemma trim_nonempty u : trim u <> "" -> u <> "".
Proof. intros H ->. apply H. reflexivity. Qed.

Lemma length_nonempty p : (8 <= String.length p)%nat -> truthy_string p = true.
Proof. destruct p; simpl; [lia | reflexivity]. Qed.

(** X24. The button of the first ritual step and the checks behind it.
    Whenever the checks of [handleAccountCreation] pass, [canProceed()]
    holds, so the button is enabled. Conversely, while [canProceed()]
    holds the only check that can still fail is the first: the username
    is not empty but blank. The two password messages of
    [handleAccountCreation] are never produced behind an enabled
    button. *)
Theorem ritual_button_and_checks w :
  Ritual.currentStep w = Ritual.ACCOUNT ->
  ascii_only (Ritual.username w) = true -> ascii_only (Ritual.password w) = true ->
  ascii_only (Ritual.confirmPassword w) = true ->
  let check := Account.ritual_validation (Ritual.username w) (Ritual.password w)
                 (Ritual.confirmPassword w) in
  (check = None -> Ritual.canProceed w = true) /\
  (Ritual.canProceed w = true ->
   check = None \/
   check = Some "Username is required" /\
   Ritual.username w <> "" /\ trim (Ritual.username w) = "") /\
  (Ritual.canProceed w = true ->
   check <> Some "Password must be at least 8 characters long" /\
   check <> Some "Passwords do not match").
Proof.
  intros Hs _ _ _ check. subst check. unfold Ritual.canProceed. rewrite Hs.
  change (Ritual.ACCOUNT =? Ritual.ACCOUNT) with true. cbv iota.
  assert (Ritual.canProceed w = true ->
          Ritual.username w <> "" /\ Ritual.password w = Ritual.confirmPassword w /\
          (8 <= String.length (Ritual.password w))%nat) as Gate.
  { unfold Ritual.canProceed. rewrite Hs.
    change (Ritual.ACCOUNT =? Ritual.ACCOUNT) with true. cbv iota.
    rewrite !andb_true_iff. intros ((((Hu & _) & _) & He) & Hl).
    apply truthy_string_iff in Hu. apply String.eqb_eq in He. apply Nat.leb_le in Hl. auto. }
  unfold Ritual.canProceed in Gate. rewrite Hs in Gate.
  change (Ritual.ACCOUNT =? Ritual.ACCOUNT) with true in Gate. cbv iota in Gate.
  split; [|split].
  - intros V. apply ritual_validation_passed in V. destruct V as (Hu & He & Hl).
    rewrite <- He, String.eqb_refl, (length_nonempty _ Hl),
      (proj2 (truthy_string_iff _) (trim_nonempty _ Hu)), (proj2 (Nat.leb_le _ _) Hl).
    reflexivity.
  - intros C. destruct (Gate C) as (Hu & He & Hl).
    destruct (ritual_validation_cases (Ritual.username w) (Ritual.password w)
                (Ritual.confirmPassword w)) as [V|[[V B]|[[V B]|[V B]]]]; auto.
    + lia.
    + congruence.
  - intros C. destruct (Gate C) as (Hu & He & Hl).
    destruct (ritual_validation_cases (Ritual.username w) (Ritual.password w)
                (Ritual.confirmPassword w)) as [V|[[V B]|[[V B]|[V B]]]];
      rewrite V; split; try discriminate; try lia; congruence.
Qed.

Lemma ritual_button_and_checks_witness :
  Ritual.currentStep Cases5.ritualist = Ritual.ACCOUNT /\
  ascii_only (Ritual.username Cases5.ritualist) = true /\
  ascii_only (Ritual.password Cases5.ritualist) = true /\
  ascii_only (Ritual.confirmPassword Cases5.ritualist) = true /\
  Account.ritual_validation (Ritual.username Cases5.ritualist)
    (Ritual.password Cases5.ritualist) (Ritual.confirmPassword Cases5.ritualist) = None /\
  Ritual.canProceed Cases5.ritualist = true.
Proof.
  assert (Ritual.currentStep Cases5.ritualist = Ritual.ACCOUNT) as H0 by reflexivity.
  assert (ascii_only (Ritual.username Cases5.ritualist) = true) as H1
    by (vm_compute; reflexivity).
  assert (ascii_only (Ritual.password Cases5.ritualist) = true) as H2
    by (vm_compute; reflexivity).
  assert (ascii_only (Ritual.confirmPassword Cases5.ritualist) = true) as H3
    by (vm_compute; reflexivity).
  assert (Account.ritual_validation (Ritual.username Cases5.ritualist)
            (Ritual.password Cases5.ritualist) (Ritual.confirmPassword Cases5.ritualist)
          = None) as H4 by (vm_compute; reflexivity).
  split; [exact H0|]. split; [exact H1|]. split; [exact H2|]. split; [exact H3|].
  split; [exact H4|].
  exact (proj1 (ritual_button_and_checks Cases5.ritualist H0 H1 H2 H3) H4).
Defined.

(** X25. The ritual never leaves its five steps: from a step between
    [ACCOUNT] and [NAME] a click on either button ends on a step in
    that range, at most one step away. The first step is left only by
    "next" after the checks pass and [auth.signUp] returns normally, and
    then for [DRIVE]; a failed or refused account creation stays on the
    first step; the last step is left only by "back". *)
Theorem ritual_steps_stay_in_range w c :
  Ritual.ACCOUNT <= Ritual.currentStep w <= Ritual.NAME ->
  let w' := Ritual.click w c in
  Ritual.ACCOUNT <= Ritual.currentStep w' <= Ritual.NAME /\
  Z.abs (Ritual.currentStep w' - Ritual.currentStep w) <= 1 /\
  (Ritual.currentStep w = Ritual.ACCOUNT ->
   Ritual.currentStep w' <> Ritual.ACCOUNT ->
   Ritual.currentStep w' = Ritual.DRIVE /\
   (exists v, c = Ritual.Next (Normal v)) /\
   Account.ritual_validation (Ritual.username w) (Ritual.password w)
     (Ritual.confirmPassword w) = None) /\
  (Ritual.currentStep w = Ritual.NAME ->
   Ritual.currentStep w' <> Ritual.NAME -> c = Ritual.Back).
Proof.
  intros Hr w'. subst w'. unfold Ritual.ACCOUNT, Ritual.NAME, Ritual.DRIVE in *.
  destruct c as [reply|]; unfold Ritual.click.
  - destruct (Ritual.canProceed w && negb (Ritual.loading w)).
    + unfold Ritual.handleNext, Ritual.handleAccountCreation, Ritual.handleComplete,
        Ritual.ACCOUNT, Ritual.NAME, Ritual.DRIVE.
      destruct (Z.eqb_spec (Ritual.currentStep w) 0) as [E0|E0].
      * destruct (Account.ritual_validation _ _ _) as [msg|] eqn:V; cbn.
        -- repeat split; try lia; intros; congruence.
        -- destruct reply as [v|e]; cbn; rewrite ?E0;
             repeat split; try lia; intros; try congruence; eauto.
      * destruct (Z.eqb_spec (Ritual.currentStep w) 4) as [E4|E4]; cbn;
          repeat split; try lia; intros; congruence.
    + repeat split; try lia; intros; congruence.
  - unfold Ritual.handleBack, Ritual.ACCOUNT.
    destruct (Z.gtb_spec (Ritual.currentStep w) 0); cbn;
      repeat split; try lia; intros; try congruence; lia.
Qed.

Lemma ritual_steps_stay_in_range_witness :
  Ritual.ACCOUNT <= Ritual.currentStep Cases5.ritualist <= Ritual.NAME /\
  Ritual.currentStep (Ritual.click Cases5.ritualist (Ritual.Next (Normal tt)))
  = Ritual.DRIVE.
Proof.
  assert (Ritual.ACCOUNT <= Ritual.currentStep Cases5.ritualist <= Ritual.NAME) as H
    by (vm_compute; split; discriminate).
  split; [exact H|].
  refine (proj1 (proj1 (proj2 (proj2
            (ritual_steps_stay_in_range Cases5.ritualist (Ritual.Next (Normal tt)) H)))
            eq_refl _)).
  vm_compute. discriminate.
Defined.

(** ** The countdown *)

(** X26. The countdown shown on the puzzle hub splits the remaining
    time correctly: for every unlock instant and every clock reading,
    the four fields computed from [Math.max(0, unlock - now)] are
    non-negative, hours are below 24, minutes and seconds below 60, and
    days, hours, minutes and seconds add up to the remaining whole
    seconds; once the unlock instant is reached all four are zero and
    the text is ["0M 0S"]. *)
Theorem countdown_fields_recompose unlock now :
  let ms := Countdown.remaining unlock now in
  let f := Countdown.fields ms in
  0 <= ms /\
  0 <= Countdown.days f /\
  0 <= Countdown.hours f < 24 /\
  0 <= Countdown.minutes f < 60 /\
  0 <= Countdown.secs f < 60 /\
  ((Countdown.days f * 24 + Countdown.hours f) * 60 + Countdown.minutes f) * 60
  + Countdown.secs f = ms / 1000 /\
  (unlock <= now -> Countdown.formatCountdown ms = "0M 0S").
Proof.
  intros ms f.
  assert (0 <= ms) as Hms by (subst ms; unfold Countdown.remaining; lia).
  subst f. unfold Countdown.fields. cbn [Countdown.days Countdown.hours
    Countdown.minutes Countdown.secs].
  set (seconds := ms / 1000).
  assert (0 <= seconds) as Hs by (subst seconds; apply Z.div_pos; lia).
  rewrite !Z.rem_mod_nonneg by lia.
  change (24 * 60 * 60) with 86400. change (60 * 60) with 3600.
  repeat match goal with |- _ /\ _ => split end; try exact Hms.
  - apply Z.div_pos; lia.
  - apply Z.div_pos; [apply Z.mod_pos_bound|]; lia.
  - apply Z.div_lt_upper_bound; [lia|]. pose proof (Z.mod_pos_bound seconds 86400). lia.
  - apply Z.div_pos; [apply Z.mod_pos_bound|]; lia.
  - apply Z.div_lt_upper_bound; [lia|]. pose proof (Z.mod_pos_bound seconds 3600). lia.
  - apply Z.mod_pos_bound. lia.
  - apply Z.mod_pos_bound. lia.
  - Z.to_euclidean_division_equations. lia.
  - intros Hu. assert (ms = 0) as -> by (subst ms; unfold Countdown.remaining; lia).
    reflexivity.
Qed.

(** ** signUp: the sign-in after a Control Plane signup fails *)

(** X27. When the Control Plane signup answers 2xx (the account is
    created) but the sign-in that follows is refused by Supabase with an
    error whose message does not contain ["Signup failed"], the inner
    [catch] takes the refusal for an unreachable Control Plane and
    [signUp] goes on to the direct Supabase signup of the same address;
    when that reports the address as already registered, the caller is
    told that the account already exists. *)
Theorem created_account_reported_as_existing email password p d si x s res e de :
  answer p = Responded res -> ok res = true ->
  signin_error (answer si) = Some e ->
  includes "Signup failed" (JS.message e) = false ->
  signup_error (answer d) = Some de ->
  includes "User already registered" (JS.message de) = true ->
  let s' := exec (signUp email password p d si x) s in
  outcome (signUp email password p d si x) s
  = Throw (new_Error
             "An account with this username already exists. Please sign in instead.") /\
  calls s' = (calls s ++ [CallSignup email; CallSignInWithPassword email;
                          CallDirectSignUp email])%list /\
  currentTokenType s' = currentTokenType s /\
  localStorage s' = localStorage s /\
  timers s' = timers s.
Proof.
  intros Ha Hok He Hm Hd Hr s'. subst s'.
  destruct s, p as [lp a], si as [ls [se st]], d as [ld [err user osess]],
    e as [en em], de as [den dem].
  simpl in Ha, He, Hd, Hm, Hr. subst a se err.
  unfold signUp, signUp_control_plane, signUp_direct.
  run. rewrite Hok. run. rewrite Hm.
  destruct (String.eqb en "AbortError"); run; rewrite Hr; run;
    rewrite <- !app_assoc; cbn [app]; repeat split; reflexivity.
Qed.

Lemma created_account_reported_as_existing_witness :
  ok {| status := 201; statusText := "Created"; text := "";
        json := @Normal (option string) None |} = true /\
  includes "Signup failed" (JS.message (mkError "AuthApiError" "Email not confirmed"))
  = false /\
  includes "User already registered"
    (JS.message (mkError "AuthApiError" "User already registered")) = true /\
  outcome (signUp "bob" "pw" Cases6.created Cases4.taken Cases6.unconfirmed
             (Scenario.granted "bob-scoped" 600)) Scenario.fresh
  = Throw (new_Error
             "An account with this username already exists. Please sign in instead.").
Proof.
  assert (ok {| status := 201; statusText := "Created"; text := "";
                json := @Normal (option string) None |} = true) as H1
    by (vm_compute; reflexivity).
  assert (includes "Signup failed"
            (JS.message (mkError "AuthApiError" "Email not confirmed")) = false) as H2
    by (vm_compute; reflexivity).
  assert (includes "User already registered"
            (JS.message (mkError "AuthApiError" "User already registered")) = true) as H3
    by (vm_compute; reflexivity).
  split; [exact H1|]. split; [exact H2|]. split; [exact H3|].
  exact (proj1 (created_account_reported_as_existing "bob" "pw" Cases6.created
                  Cases4.taken Cases6.unconfirmed (Scenario.granted "bob-scoped" 600)
                  Scenario.fresh _ _ _ eq_refl H1 eq_refl H2 eq_refl H3)).
Defined.

(** ** The tier along a session *)

Lemma run_ops_tier_ok ops s :
  tier_ok s -> tier_ok (fold_left (fun s o => exec (run_op o) s) ops s).
Proof.
  revert s. induction ops as [|o ops IH]; intros s H; [exact H|].
  simpl. apply IH, run_op_tier_ok, H.
Qed.

(** X28. The tier is always one of the three. For an instance created
    in a browser whose stored tier tag, if there is one, is one of
    [FALLBACK_ANON], [SCOPED_ANON] and [USER_SCOPED]: after any sequence
    of calls of the public API, timeouts firing and time passing,
    whatever the Control Plane and Supabase answer, the tier held and
    the tier tag in storage are among the three. *)
Theorem tier_stays_one_of_three cfg now store ops :
  (forall ty, store !! TOKEN_TYPE_KEY = Some ty -> is_tier ty) ->
  let s := fold_left (fun s o => exec (run_op o) s) ops (construct cfg now store) in
  is_tier (currentTokenType s) /\
  (forall ty, localStorage s !! TOKEN_TYPE_KEY = Some ty -> is_tier ty).
Proof.
  intros H s. apply run_ops_tier_ok, tier_ok_construct, H.
Qed.

Lemma tier_stays_one_of_three_witness :
  (forall ty, (∅ : gmap string string) !! TOKEN_TYPE_KEY = Some ty -> is_tier ty) /\
  is_tier (currentTokenType
             (fold_left (fun s o => exec (run_op o) s) Cases6.session_ops
                (construct Scenario.cfg 1000 ∅))).
Proof.
  assert (forall ty, (∅ : gmap string string) !! TOKEN_TYPE_KEY = Some ty -> is_tier ty)
    as H by (intros ty Q; rewrite lookup_empty in Q; discriminate).
  split; [exact H|].
  exact (proj1 (tier_stays_one_of_three Scenario.cfg 1000 ∅ Cases6.session_ops H)).
Defined.
